(** * webhook-relay: the relay delivery engine in Rocq

    A shallow embedding of the TypeScript sources of the relay server
    (ingestion route, replay guard, rate limiter, WebSocket manager,
    registration, endpoint encryption) and of the Node SDK client
    (reconnection state machine, back-off), followed by the properties of
    the specification that were checked against them and by further
    properties of the sources.

    Conventions.
    - [Date.now()] and the Redis clock are one clock, in milliseconds; a
      handler reads it once ([now]) and the model passes it explicitly.
    - Random draws ([crypto.randomUUID], [crypto.randomBytes],
      [Math.random]) are explicit arguments of the functions that draw.
    - Library primitives that the repository only calls (HMAC-SHA256,
      bcrypt, AES-256-GCM, [JSON.stringify]) are section variables.
    - JavaScript numbers are modelled exactly: integers by [Z], the
      back-off arithmetic by [Q]; IEEE rounding is not modelled.  Where a
      property depends on how a number is printed or rounded, its
      statement keeps to the numbers on which the exact model and the
      doubles agree ([JS.prints_exactly], whole numbers of milliseconds). *)

From Stdlib Require Import ZArith QArith Qround Qminmax Qpower Lia Lqa.
From Stdlib Require Import String Ascii List.
From Stdlib Require Import DecimalString DecimalZ.
From Stdlib.Strings Require Import Byte.
From stdpp Require Import gmap strings list.

#[local] Set Warnings "-register-all".

Local Close Scope Q_scope.
Local Open Scope string_scope.
Local Open Scope Z_scope.

(** ** JavaScript values and built-ins used by the sources *)

Module JS.

(** Parsed JSON, as [JSON.parse] returns it (numbers restricted to
    integers). *)
Inductive json : Type :=
| JNull
| JBool (b : bool)
| JNum (n : Z)
| JStr (s : string)
| JArr (items : list json)
| JObj (fields : list (string * json)).

(** [String(n)] for an integer: all its digits.  This is what JavaScript
    prints for an integer of magnitude below 2^53; a larger number is a
    double that JavaScript prints with the shortest digits that identify
    it, in exponent form from 1e21, which [string_of_Z] does not follow
    (see [prints_exactly]). *)
Definition string_of_Z (n : Z) : string :=
  NilZero.string_of_int (Z.to_int n).

(** Property access [v.name]: [None] is [undefined].  Reading a property
    of [null] throws and is handled by the caller. *)
Fixpoint assoc_last (name : string) (fields : list (string * json))
  : option json :=
  match fields with
  | [] => None
  | (k, v) :: rest =>
      match assoc_last name rest with
      | Some w => Some w
      | None => if String.eqb k name then Some v else None
      end
  end.

Definition get_field (name : string) (v : json) : option json :=
  match v with
  | JObj fields => assoc_last name fields
  | _ => None
  end.

(** Truthiness, as [||], [!] and [if] see a value. *)
Definition truthy (v : json) : bool :=
  match v with
  | JNull => false
  | JBool b => b
  | JNum n => negb (n =? 0)
  | JStr s => negb (String.eqb s EmptyString)
  | JArr _ => true
  | JObj _ => true
  end.

Definition truthy_string (s : option string) : bool :=
  match s with
  | None => false
  | Some s => negb (String.eqb s EmptyString)
  end.

(** String conversion inside a template literal. *)
Fixpoint to_string (v : json) : string :=
  match v with
  | JNull => "null"
  | JBool true => "true"
  | JBool false => "false"
  | JNum n => string_of_Z n
  | JStr s => s
  | JArr items =>
      String.concat ","
        (map (fun x => match x with
                       | JNull => EmptyString
                       | _ => to_string x
                       end) items)
  | JObj _ => "[object Object]"
  end.


(** [parseInt(s)] without a radix: leading white space, an optional sign,
    an optional [0x] prefix, then the longest run of digits.  [None] is
    [NaN].  The sources apply it to a header value, which Node decodes
    as Latin-1: one character per byte.  Among these JavaScript skips tab,
    line feed, vertical tab, form feed, carriage return, space and the
    no-break space U+00A0. *)
Definition is_ws (c : ascii) : bool :=
  match nat_of_ascii c with
  | 9%nat | 10%nat | 11%nat | 12%nat | 13%nat | 32%nat | 160%nat => true
  | _ => false
  end.

Fixpoint skip_ws (s : string) : string :=
  match s with
  | String c rest => if is_ws c then skip_ws rest else s
  | EmptyString => s
  end.

Definition digit_val (c : ascii) : option Z :=
  let n := Z.of_nat (nat_of_ascii c) in
  if (48 <=? n) && (n <=? 57) then Some (n - 48)
  else if (97 <=? n) && (n <=? 122) then Some (n - 87)
  else if (65 <=? n) && (n <=? 90) then Some (n - 55)
  else None.

Fixpoint digits (radix : Z) (acc : option Z) (s : string) : option Z :=
  match s with
  | EmptyString => acc
  | String c rest =>
      match digit_val c with
      | Some d =>
          if d <? radix
          then digits radix
                 (Some (match acc with Some a => a * radix + d | None => d end))
                 rest
          else acc
      | None => acc
      end
  end.

Definition parseInt (s : string) : option Z :=
  let s1 := skip_ws s in
  let '(sign, s2) :=
    match s1 with
    | String "-" rest => (-1, rest)
    | String "+" rest => (1, rest)
    | _ => (1, s1)
    end in
  let '(radix, s3) :=
    match s2 with
    | String "0" (String "x" rest) => (16, rest)
    | String "0" (String "X" rest) => (16, rest)
    | _ => (10, s2)
    end in
  option_map (Z.mul sign) (digits radix None s3).

(** [s.replace(pat, '')]: the first occurrence of [pat] is removed. *)
Fixpoint remove_first (pat s : string) : string :=
  if String.prefix pat s
  then String.substring (String.length pat)
         (String.length s - String.length pat) s
  else match s with
       | EmptyString => EmptyString
       | String c rest => String c (remove_first pat rest)
       end.

(** [Buffer.from(s, 'hex')]: pairs of hex digits, cut at the first pair
    that is not hex; a trailing single digit is dropped. *)
Definition hex_val (c : ascii) : option N :=
  let n := N_of_ascii c in
  (if (48 <=? n) && (n <=? 57) then Some (n - 48)
   else if (97 <=? n) && (n <=? 102) then Some (n - 87)
   else if (65 <=? n) && (n <=? 70) then Some (n - 55)
   else None)%N.

Fixpoint buffer_from_hex (s : string) : list byte :=
  match s with
  | String hi (String lo rest) =>
      match hex_val hi, hex_val lo with
      | Some h, Some l =>
          match Byte.of_N (16 * h + l) with
          | Some b => b :: buffer_from_hex rest
          | None => []
          end
      | _, _ => []
      end
  | _ => []
  end.

(** [buf.toString('hex')]: two lower-case digits per byte. *)
Definition hex_digit (n : N) : ascii :=
  (if n <? 10 then ascii_of_N (48 + n) else ascii_of_N (87 + n))%N.

Fixpoint buffer_to_hex (bs : list byte) : string :=
  match bs with
  | [] => EmptyString
  | b :: rest =>
      let n := Byte.to_N b in
      String (hex_digit (n / 16)) (String (hex_digit (n mod 16))
        (buffer_to_hex rest))
  end.

End JS.

(** ** Redis: one key space with expiry (src/redis/client.ts, ioredis)

    Only the commands the sources issue.  A key whose expiry time has
    passed is gone for every command; it may still sit in the map. *)

Module Redis.

Inductive rvalue : Type :=
| RString (s : string)
| RList (items : list string).

Record entry : Type := mkEntry {
  value : rvalue;
  expireAt : option Z   (* absolute time in ms; [None]: no expiry *)
}.

Abbreviation db := (gmap string entry).

Inductive reply (A : Type) : Type :=
| Ok (a : A)
| Err (msg : string).

Definition WRONGTYPE : string :=
  "WRONGTYPE Operation against a key holding the wrong kind of value".
Arguments Ok {A} a.
Arguments Err {A} msg.

Definition expired (now : Z) (e : entry) : bool :=
  match expireAt e with
  | Some t => t <? now
  | None => false
  end.

Definition lookup_live (now : Z) (d : db) (key : string) : option entry :=
  match d !! key with
  | Some e => if expired now e then None else Some e
  | None => None
  end.

(** A stored string is a counter when it is the canonical decimal
    writing of a signed 64-bit integer. *)
Definition parse_int64 (s : string) : option Z :=
  match NilZero.int_of_string s with
  | Some i =>
      let n := Z.of_int i in
      if String.eqb (JS.string_of_Z n) s
         && (- 2 ^ 63 <=? n) && (n <? 2 ^ 63)
      then Some n else None
  | None => None
  end.

(** EXISTS key *)
Definition exists_ (now : Z) (d : db) (key : string) : Z :=
  match lookup_live now d key with
  | Some _ => 1
  | None => 0
  end.

(** SETEX key seconds value (every call site passes a positive
    constant) *)
Definition setex (now : Z) (d : db) (key : string) (seconds : Z)
  (v : string) : db :=
  <[key := mkEntry (RString v) (Some (now + seconds * 1000))]> d.

(** INCR key *)
Definition incr (now : Z) (d : db) (key : string) : db * reply Z :=
  match lookup_live now d key with
  | None => (<[key := mkEntry (RString "1") None]> d, Ok 1)
  | Some e =>
      match value e with
      | RString s =>
          match parse_int64 s with
          | Some n =>
              if n + 1 <? 2 ^ 63
              then (<[key := mkEntry (RString (JS.string_of_Z (n + 1)))
                               (expireAt e)]> d, Ok (n + 1))
              else (d, Err "ERR increment or decrement would overflow")
          | None => (d, Err "ERR value is not an integer or out of range")
          end
      | RList _ =>
          (d, Err WRONGTYPE)
      end
  end.

(** PEXPIRE key milliseconds (every call site passes a positive
    constant) *)
Definition pexpire (now : Z) (d : db) (key : string) (ms : Z) : db * Z :=
  match lookup_live now d key with
  | Some e => (<[key := mkEntry (value e) (Some (now + ms))]> d, 1)
  | None => (d, 0)
  end.

(** PTTL key *)
Definition pttl (now : Z) (d : db) (key : string) : Z :=
  match lookup_live now d key with
  | Some e =>
      match expireAt e with
      | Some t => t - now
      | None => -1
      end
  | None => -2
  end.

(** LPUSH key value *)
Definition lpush (now : Z) (d : db) (key : string) (v : string)
  : db * reply Z :=
  match lookup_live now d key with
  | None => (<[key := mkEntry (RList [v]) None]> d, Ok 1)
  | Some e =>
      match value e with
      | RList items =>
          (<[key := mkEntry (RList (v :: items)) (expireAt e)]> d,
           Ok (Z.of_nat (S (length items))))
      | RString _ =>
          (d, Err WRONGTYPE)
      end
  end.

(** DEL key *)
Definition del (now : Z) (d : db) (key : string) : db * Z :=
  (delete key d, exists_ now d key).

End Redis.

(** ** Asynchronous functions: state passing with exceptions

    An [async] function reads and writes the shared state and either
    returns or throws; writes made before a throw stay. *)

Module Async.

Inductive exn : Type :=
| ReplayError (message : string)
| RateLimitError (message : string) (retryAfter : Z)
| ReplyError (message : string)      (* raised by ioredis *)
| TypeError (message : string)
| SyntaxError (message : string)     (* raised by JSON.parse *)
| LibraryError (message : string).   (* raised by Prisma or bcrypt *)

(** [error.name] *)
Definition name (e : exn) : string :=
  match e with
  | ReplayError _ => "ReplayError"
  | RateLimitError _ _ => "RateLimitError"
  | ReplyError _ => "ReplyError"
  | TypeError _ => "TypeError"
  | SyntaxError _ => "SyntaxError"
  | LibraryError _ => "Error"
  end.

Inductive outcome (A : Type) : Type :=
| Returns (a : A)
| Throws (e : exn).
Arguments Returns {A} a.
Arguments Throws {A} e.

Definition M (S A : Type) : Type := S -> S * outcome A.

Definition ret {S A} (a : A) : M S A := fun s => (s, Returns a).
Definition throw {S A} (e : exn) : M S A := fun s => (s, Throws e).
Definition bind {S A B} (c : M S A) (k : A -> M S B) : M S B :=
  fun s =>
    match c s with
    | (s', Returns a) => k a s'
    | (s', Throws e) => (s', Throws e)
    end.

(** [try { c } catch (error) { h error }] *)
Definition try_catch {S A} (c : M S A) (h : exn -> M S A) : M S A :=
  fun s =>
    match c s with
    | (s', Returns a) => (s', Returns a)
    | (s', Throws e) => h e s'
    end.

(** Run a computation on a component of the state. *)
Definition zoom {S T A} (get : S -> T) (set : T -> S -> S) (c : M T A)
  : M S A :=
  fun s => let '(t', r) := c (get s) in (set t' s, r).

Definition of_reply {S A} (r : S * Redis.reply A) : S * outcome A :=
  match r with
  | (s, Redis.Ok a) => (s, Returns a)
  | (s, Redis.Err msg) => (s, Throws (ReplyError msg))
  end.

(** The ioredis client calls, as awaited by the services. *)
Definition redis_exists (now : Z) (key : string) : M Redis.db Z :=
  fun d => (d, Returns (Redis.exists_ now d key)).
Definition redis_setex (now : Z) (key : string) (seconds : Z) (v : string)
  : M Redis.db unit :=
  fun d => (Redis.setex now d key seconds v, Returns tt).
Definition redis_incr (now : Z) (key : string) : M Redis.db Z :=
  fun d => of_reply (Redis.incr now d key).
Definition redis_pexpire (now : Z) (key : string) (ms : Z) : M Redis.db Z :=
  fun d => let '(d', n) := Redis.pexpire now d key ms in (d', Returns n).
Definition redis_pttl (now : Z) (key : string) : M Redis.db Z :=
  fun d => (d, Returns (Redis.pttl now d key)).
Definition redis_lpush (now : Z) (key : string) (v : string)
  : M Redis.db Z :=
  fun d => of_reply (Redis.lpush now d key v).
Definition redis_del (now : Z) (key : string) : M Redis.db Z :=
  fun d => let '(d', n) := Redis.del now d key in (d', Returns n).

End Async.

Notation "x <- c ;; k" := (Async.bind c (fun x => k))
  (at level 100, c at next level, right associativity).
Notation "c ;; k" := (Async.bind c (fun _ => k))
  (at level 100, right associativity).

(** ** The relay server (packages/relay-server/src) *)

Module Server.
Import Async.

(** *** Data *)

(** Frames the server writes on a channel (the objects it passes to
    [JSON.stringify] before [send]). *)
Inductive frame : Type :=
| auth_success (relay_id webhook_url session_id : string) (timestamp : Z)
| webhook (id : JS.json) (timestamp : Z) (signature : string)
    (payload : JS.json)
| ping (timestamp : Z)
| error (code message : string) (timestamp : Z).

Inductive readyState : Type := OPEN | CLOSING | CLOSED.

(** A channel of the [ws] library: its state and what was written on it,
    newest first. *)
Record WebSocket : Type := mkSocket {
  state : readyState;
  sent : list frame
}.

(** interface AgentConnection (websocket/manager.ts); [socket] is the
    handle of the channel. *)
Record AgentConnection : Type := mkConnection {
  relayId : string;
  socket : nat;
  sessionId : string;
  connectedAt : Z;
  lastPing : Z
}.

(** The two variables captured by the handlers of one
    [handleConnection] call. *)
Record Closure : Type := mkClosure {
  authenticated : bool;
  closure_relayId : option string    (* [None] is [null] *)
}.

(** A row of [db.agents]. *)
Record Agent : Type := mkAgent {
  api_key_hash : string
}.

Record ServerState : Type := mkState {
  redis : Redis.db;
  agents : gmap string Agent;
  connections : gmap string AgentConnection;  (* the manager's Map *)
  sockets : gmap nat WebSocket;
  closures : gmap nat Closure
}.

Definition set_redis (d : Redis.db) (s : ServerState) : ServerState :=
  mkState d (agents s) (connections s) (sockets s) (closures s).
Definition set_connections (c : gmap string AgentConnection)
  (s : ServerState) : ServerState :=
  mkState (redis s) (agents s) c (sockets s) (closures s).
Definition set_sockets (k : gmap nat WebSocket) (s : ServerState)
  : ServerState :=
  mkState (redis s) (agents s) (connections s) k (closures s).
Definition set_closures (c : gmap nat Closure) (s : ServerState)
  : ServerState :=
  mkState (redis s) (agents s) (connections s) (sockets s) c.

Definition with_redis {A} (c : M Redis.db A) : M ServerState A :=
  zoom redis set_redis c.

(** [socket.send(...)] of [ws]: written when the channel is open,
    dropped without an exception when it is closing or closed. *)
Definition socket_send (h : nat) (f : frame) (s : ServerState)
  : ServerState :=
  match sockets s !! h with
  | Some (mkSocket OPEN out) =>
      set_sockets (<[h := mkSocket OPEN (f :: out)]> (sockets s)) s
  | _ => s
  end.

(** [socket.close()]: an open channel starts closing. *)
Definition socket_close (h : nat) (s : ServerState) : ServerState :=
  match sockets s !! h with
  | Some (mkSocket OPEN out) =>
      set_sockets (<[h := mkSocket CLOSING out]> (sockets s)) s
  | _ => s
  end.

(** *** services/replay.ts *)

Definition DEDUP_TTL : Z := 10 * 60.

Definition preventReplay (now : Z) (eventId : string) : M Redis.db unit :=
  let key := "event:processed:" +:+ eventId in
  exists_ <- redis_exists now key ;;
  if negb (exists_ =? 0)
  then throw (ReplayError "Event already processed")
  else redis_setex now key DEDUP_TTL "1".

(** *** services/ratelimit.ts *)

Definition RATE_LIMIT_WINDOW : Z := 60 * 1000.
Definition RATE_LIMIT_MAX : Z := 100.

Record RateLimitInfo : Type := mkRateLimitInfo {
  limit : Z;
  remaining : Z;
  reset : Z
}.

Definition checkRateLimit (now : Z) (relay : string)
  : M Redis.db RateLimitInfo :=
  let key := "ratelimit:" +:+ relay in
  count <- redis_incr now key ;;
  (if count =? 1 then redis_pexpire now key RATE_LIMIT_WINDOW else ret 0) ;;
  ttl <- redis_pttl now key ;;
  if count >? RATE_LIMIT_MAX
  then throw (RateLimitError
                ("Rate limit exceeded. Retry after "
                   +:+ JS.string_of_Z ttl +:+ "ms") ttl)
  else ret (mkRateLimitInfo RATE_LIMIT_MAX
              (Z.max 0 (RATE_LIMIT_MAX - count)) (now + ttl)).

(** The calls of [checkRateLimit] for one relay at the given times, one
    after the other: the store after the last call and what each call
    did. *)
Fixpoint checkRateLimit_each (relay : string) (times : list Z)
  (d : Redis.db) : Redis.db * list (outcome RateLimitInfo) :=
  match times with
  | [] => (d, [])
  | now :: rest =>
      let '(d1, r) := checkRateLimit now relay d in
      let '(d2, rs) := checkRateLimit_each relay rest d1 in
      (d2, r :: rs)
  end.

Section Primitives.

(** Library primitives and configuration. *)
Variable hmac_sha256_hex : string -> string -> string.
  (* [crypto.createHmac('sha256', secret).update(data).digest('hex')] *)
Variable JSON_stringify : JS.json -> string.
Variable bcrypt_compare : string -> string -> bool.
Variable WEBHOOK_SECRET : string.
Variable PUBLIC_URL : string.

(** *** services/signature.ts *)

(** [crypto.timingSafeEqual]: [None] when it throws because the byte
    lengths differ. *)
Definition timingSafeEqual (a b : list byte) : option bool :=
  if (length a =? length b)%nat
  then Some (forallb (fun p => Byte.eqb (fst p) (snd p)) (combine a b))
  else None.

Definition verifySignature (payload : JS.json) (timestamp signature
  secret : string) : bool :=
  let body := JSON_stringify payload in
  let signedPayload := timestamp +:+ "." +:+ body in
  let expectedSignature := hmac_sha256_hex secret signedPayload in
  let receivedSignature := JS.remove_first "sha256=" signature in
  match timingSafeEqual (JS.buffer_from_hex expectedSignature)
          (JS.buffer_from_hex receivedSignature) with
  | Some b => b
  | None => false
  end.

(** *** services/auth.ts *)

Definition verifyApiKey (apiKey : option JS.json) (hash : string)
  : M ServerState bool :=
  match apiKey with
  | Some (JS.JStr k) => ret (bcrypt_compare k hash)
  | _ => throw (LibraryError "data and hash must be strings")
  end.

Definition getAgentByRelayId (relay : option JS.json)
  : M ServerState (option Agent) :=
  match relay with
  | Some (JS.JStr r) => fun s => (s, Returns (agents s !! r))
  | _ => throw (LibraryError "Invalid `db.agents.findUnique()` invocation")
  end.

(** *** websocket/manager.ts *)

Definition sendError (h : nat) (code message : string) (now : Z)
  : M ServerState unit :=
  fun s => (socket_send h (error code message now) s, Returns tt).

Definition handlePong (relay : option string) (now : Z)
  : M ServerState unit :=
  fun s =>
    match relay with
    | Some r =>
        match connections s !! r with
        | Some conn =>
            (set_connections
               (<[r := mkConnection (relayId conn) (socket conn)
                         (sessionId conn) (connectedAt conn) now]>
                  (connections s)) s, Returns tt)
        | None => (s, Returns tt)
        end
    | None => (s, Returns tt)
    end.

(** [`${v}`] for a value that may be [undefined] or [null]. *)
Definition template (v : option JS.json) : string :=
  match v with
  | Some v => JS.to_string v
  | None => "undefined"
  end.

(** [relayId] goes to the debug log only. *)
Definition handleAck (relay : option string) (eventId : option JS.json)
  (now : Z) : M ServerState unit :=
  (* Remove from pending queue *)
  with_redis (redis_del now ("ack:pending:" +:+ template eventId)) ;;
  ret tt.

(** The argument of [sendWebhook]. *)
Record Event : Type := mkEvent {
  id : JS.json;
  signature : string;
  payload : JS.json
}.

Definition Event_json (e : Event) : JS.json :=
  JS.JObj [("id", id e); ("signature", JS.JStr (signature e));
           ("payload", payload e)].

Inductive status : Type := delivered | queued.

Definition sendWebhook (relay : string) (event : Event) (now : Z)
  : M ServerState status :=
  fun s =>
    match connections s !! relay with
    | None =>
        (* Agent offline - queue for retry *)
        (with_redis (redis_lpush now ("queue:pending:" +:+ relay)
                       (JSON_stringify (Event_json event))) ;;
         ret queued) s
    | Some connection =>
        (* Send event to agent *)
        let s1 :=
          socket_send (socket connection)
            (webhook (id event) now (signature event) (payload event)) s in
        (* Store pending ack (timeout after 30s) *)
        (with_redis
           (redis_setex now
              ("ack:pending:" +:+ JS.to_string (id event)) 30
              (JSON_stringify
                 (JS.JObj [("relayId", JS.JStr relay);
                           ("sentAt", JS.JNum now)]))) ;;
         ret delivered) s1
    end.

(** One turn of the loop of [sendHeartbeats]. *)
Definition heartbeat_entry (now : Z) (relay : string)
  (conn : AgentConnection) (s : ServerState) : ServerState :=
  let TIMEOUT := 90000 in
  if now - lastPing conn >? TIMEOUT
  then let s1 := socket_close (socket conn) s in
       set_connections (delete relay (connections s1)) s1
  else socket_send (socket conn) (ping now) s.

Definition sendHeartbeats (now : Z) (s : ServerState) : ServerState :=
  map_fold (heartbeat_entry now) s (connections s).

(** [destroy]: the interval timer is cleared and every channel of the
    registry is closed; the registry itself is left as it is. *)
Definition destroy (s : ServerState) : ServerState :=
  map_fold (fun _ conn s => socket_close (socket conn) s) s (connections s).

(** [handleConnection]: the call itself captures
    [authenticated = false] and [relayId = null] and installs the
    handlers below on the channel. *)
Definition handleConnection (h : nat) (s : ServerState) : ServerState :=
  set_closures (<[h := mkClosure false None]> (closures s))
    (set_sockets (<[h := mkSocket OPEN []]> (sockets s)) s).

Definition get_closure (h : nat) : M ServerState Closure :=
  fun s =>
    (s, Returns (match closures s !! h with
                 | Some c => c
                 | None => mkClosure false None
                 end)).

Definition set_closure (h : nat) (c : Closure) : M ServerState unit :=
  fun s => (set_closures (<[h := c]> (closures s)) s, Returns tt).

(** [message.name]; reading a property of [null] throws. *)
Definition prop (message : JS.json) (name : string)
  : M ServerState (option JS.json) :=
  match message with
  | JS.JNull => throw (TypeError "Cannot read properties of null")
  | _ => ret (JS.get_field name message)
  end.

Definition is_string (v : option JS.json) (s : string) : bool :=
  match v with
  | Some (JS.JStr t) => String.eqb t s
  | _ => false
  end.

(** The ['message'] handler.  [data] is the result of [JSON.parse]
    ([None] when it throws); [uuid] is the value [crypto.randomUUID()]
    would draw.  This is the handler run from its first line to its last
    with nothing in between and one reading of the clock; [Handshake]
    cuts it at its [await]s. *)
Definition onMessage (h : nat) (data : option JS.json) (now : Z)
  (uuid : string) : M ServerState unit :=
  try_catch
    (match data with
     | None => throw (SyntaxError "Unexpected token")
     | Some message =>
         c <- get_closure h ;;
         type <- prop message "type" ;;
         (* Handle authentication *)
         if negb (authenticated c) then
           if negb (is_string type "auth") then
             sendError h "authentication_required"
               "Must authenticate first" now
           else
             (* Verify credentials *)
             relay_id <- prop message "relay_id" ;;
             api_key <- prop message "api_key" ;;
             agent <- getAgentByRelayId relay_id ;;
             ok <- match agent with
                   | None => ret false
                   | Some a => verifyApiKey api_key (api_key_hash a)
                   end ;;
             if negb ok then
               sendError h "invalid_credentials"
                 "Invalid relay_id or API key" now
             else
               (* Authentication successful *)
               let relay := template relay_id in
               set_closure h (mkClosure true (Some relay)) ;;
               let sessionId := uuid in
               (* Store connection *)
               (if JS.truthy_string (Some relay)
                then fun s =>
                       (set_connections
                          (<[relay := mkConnection relay h sessionId now now]>
                             (connections s)) s, Returns tt)
                else ret tt) ;;
               (* Store session in Redis (for multi-instance routing) *)
               with_redis
                 (redis_setex now ("session:" +:+ relay) 86400
                    (JSON_stringify
                       (JS.JObj [("sessionId", JS.JStr sessionId);
                                 ("connectedAt", JS.JNum now)]))) ;;
               (* Send success message *)
               fun s =>
                 (socket_send h
                    (auth_success relay
                       (PUBLIC_URL +:+ "/api/v1/webhook/" +:+ relay)
                       sessionId now) s, Returns tt)
         else
           (* Handle other message types *)
           if is_string type "pong" then
             handlePong (closure_relayId c) now
           else if is_string type "ack" then
             id <- prop message "id" ;;
             handleAck (closure_relayId c) id now
           else
             sendError h "invalid_message"
               ("Unknown message type: " +:+ template type) now
     end)
    (fun _ =>
       sendError h "internal_error" "Failed to process message" now).

(** The ['close'] handler; the channel is closed when it runs.  The
    [redis.del] is not awaited by the source. *)
Definition onClose (h : nat) (now : Z) (s : ServerState) : ServerState :=
  let s1 :=
    match sockets s !! h with
    | Some k => set_sockets (<[h := mkSocket CLOSED (sent k)]> (sockets s)) s
    | None => s
    end in
  match closures s1 !! h with
  | Some c =>
      if JS.truthy_string (closure_relayId c) then
        match closure_relayId c with
        | Some relay =>
            let s2 := set_connections (delete relay (connections s1)) s1 in
            set_redis (fst (Redis.del now (redis s2) ("session:" +:+ relay))) s2
        | None => s1
        end
      else s1
  | None => s1
  end.

(** *** routes/webhook.ts *)

Record Request : Type := mkRequest {
  relay_id : string;                    (* request.params *)
  x_signature : option string;          (* x-powerlobster-signature *)
  x_timestamp : option string;          (* x-powerlobster-timestamp *)
  body : JS.json
}.

(** The bodies the route sends. *)
Inductive ReplyBody : Type :=
| unauthorized (message : string)
| status_delivered (relay : string) (timestamp : Z)
| status_queued (relay : string) (message : string) (timestamp : Z)
| rate_limit_exceeded (message : string) (retry_after_ms : Z)
| duplicate_event (message : string)
| internal_error (message : string).

Record Reply : Type := mkReply {
  code : Z;
  headers : list (string * Z);
  reply_body : ReplyBody
}.

(** The state the route handler works on: the server and the headers
    set on [reply] so far. *)
Record Ctx : Type := mkCtx {
  server : ServerState;
  reply_headers : list (string * Z)
}.

Definition on_server {A} (c : M ServerState A) : M Ctx A :=
  zoom server (fun s x => mkCtx s (reply_headers x)) c.

Definition reply_header (name : string) (v : Z) : M Ctx unit :=
  fun x => (mkCtx (server x) (reply_headers x ++ [(name, v)]), Returns tt).

(** [reply.code(c).send(b)] *)
Definition send (c : Z) (b : ReplyBody) : M Ctx (Z * ReplyBody) :=
  ret (c, b).

Definition MAX_AGE : Z := 5 * 60 * 1000.

(** [Math.abs(now - eventTime) > MAX_AGE], where [eventTime] may be
    [NaN]: every comparison with [NaN] is false. *)
Definition too_old_or_in_future (now : Z) (eventTime : option Z) : bool :=
  match eventTime with
  | Some t => Z.abs (now - t) >? MAX_AGE
  | None => false
  end.

(** [event.event_id || crypto.randomUUID()] *)
Definition event_id_or (event : JS.json) (uuid : string) : JS.json :=
  match JS.get_field "event_id" event with
  | Some v => if JS.truthy v then v else JS.JStr uuid
  | None => JS.JStr uuid
  end.

Definition webhook_handler (now : Z) (uuid : string) (request : Request)
  : M Ctx (Z * ReplyBody) :=
  let relay_id := relay_id request in
  try_catch
    ((* 1. Verify HMAC signature *)
     match x_signature request, x_timestamp request with
     | Some signature, Some timestamp =>
         if negb (JS.truthy_string (Some signature))
            || negb (JS.truthy_string (Some timestamp))
         then send 401 (unauthorized "Missing signature or timestamp headers")
         else
           let isValidSignature :=
             verifySignature (body request) timestamp signature
               WEBHOOK_SECRET in
           if negb isValidSignature
           then send 401 (unauthorized "Invalid signature")
           else
             (* 2. Check timestamp (prevent replay attacks) *)
             let eventTime := JS.parseInt timestamp in
             if too_old_or_in_future now eventTime
             then send 401 (unauthorized "Timestamp too old or in future")
             else
               (* 3. Prevent replay attacks (event deduplication) *)
               let event := body request in
               _ <- on_server (prop event "event_id") ;;
               let eventId := event_id_or event uuid in
               on_server (with_redis
                            (preventReplay now (JS.to_string eventId))) ;;
               (* 4. Rate limiting *)
               rateLimitInfo <- on_server (with_redis
                                             (checkRateLimit now relay_id)) ;;
               reply_header "X-RateLimit-Limit" (limit rateLimitInfo) ;;
               reply_header "X-RateLimit-Remaining"
                 (remaining rateLimitInfo) ;;
               reply_header "X-RateLimit-Reset" (reset rateLimitInfo) ;;
               (* 5. Forward to agent via WebSocket *)
               result <- on_server
                           (sendWebhook relay_id
                              (mkEvent eventId signature event) now) ;;
               (* 6. Return response *)
               match result with
               | delivered => send 200 (status_delivered relay_id now)
               | queued =>
                   send 202
                     (status_queued relay_id
                        "Agent offline; event queued for delivery" now)
               end
     | _, _ =>
         send 401 (unauthorized "Missing signature or timestamp headers")
     end)
    (fun error =>
       match error with
       | RateLimitError message retryAfter =>
           send 429 (rate_limit_exceeded message retryAfter)
       | ReplayError _ =>
           send 409 (duplicate_event "Event already processed")
       | _ => send 500 (internal_error "Failed to process webhook")
       end).

(** [POST /webhook/:relay_id]: the server after the request and the
    reply sent. *)
Definition ingest (now : Z) (uuid : string) (request : Request)
  (s : ServerState) : ServerState * Reply :=
  match webhook_handler now uuid request (mkCtx s []) with
  | (x, Returns (c, b)) => (server x, mkReply c (reply_headers x) b)
  | (x, Throws _) =>
      (server x,
       mkReply 500 (reply_headers x)
         (internal_error "Internal Server Error"))
  end.

(** The request gets through the first three stages of the route:
    both headers are there, the signature verifies and the timestamp
    check does not reject. *)
Definition passes_gates (now : Z) (request : Request) : bool :=
  match x_signature request, x_timestamp request with
  | Some signature, Some timestamp =>
      JS.truthy_string (Some signature)
      && JS.truthy_string (Some timestamp)
      && verifySignature (body request) timestamp signature WEBHOOK_SECRET
      && negb (too_old_or_in_future now (JS.parseInt timestamp))
  | _, _ => false
  end.

(** The counter of [relay] leaves room for one more request. *)
Definition below_rate_limit (now : Z) (d : Redis.db) (relay : string)
  : Prop :=
  match Redis.lookup_live now d ("ratelimit:" +:+ relay) with
  | None => True
  | Some e =>
      exists str n,
        Redis.value e = Redis.RString str
        /\ Redis.parse_int64 str = Some n /\ n < RATE_LIMIT_MAX
  end.

(** The offline queue of [relay] is absent or holds a list. *)
Definition queue_is_list (now : Z) (d : Redis.db) (relay : string)
  : Prop :=
  match Redis.lookup_live now d ("queue:pending:" +:+ relay) with
  | None => True
  | Some e => exists items, Redis.value e = Redis.RList items
  end.

(** *** The server as a transition system

    What can happen to the server, one handler at a time.  Channel
    handles are never reused; a channel that is closed delivers
    nothing more. *)
Inductive event : Type :=
| Connect (h : nat)
| Message (h : nat) (data : option JS.json) (now : Z) (uuid : string)
| Close (h : nat) (now : Z)
| Ingest (now : Z) (uuid : string) (request : Request)
| Heartbeat (now : Z).

Definition is_closed (k : WebSocket) : bool :=
  match state k with
  | CLOSED => true
  | _ => false
  end.

Definition apply (e : event) (s : ServerState) : ServerState :=
  match e with
  | Connect h =>
      match sockets s !! h with
      | None => handleConnection h s
      | Some _ => s
      end
  | Message h data now uuid =>
      match sockets s !! h with
      | Some k => if is_closed k then s
                  else fst (onMessage h data now uuid s)
      | None => s
      end
  | Close h now =>
      match sockets s !! h with
      | Some k => if is_closed k then s else onClose h now s
      | None => s
      end
  | Ingest now uuid request => fst (ingest now uuid request s)
  | Heartbeat now => sendHeartbeats now s
  end.

Definition run (es : list event) (s : ServerState) : ServerState :=
  fold_left (fun s e => apply e s) es s.

Definition is_webhook (f : frame) : bool :=
  match f with
  | webhook _ _ _ _ => true
  | _ => false
  end.

(** The deliveries written on channel [h] so far. *)
Definition deliveries (h : nat) (s : ServerState) : list frame :=
  match sockets s !! h with
  | Some k => List.filter is_webhook (sent k)
  | None => []
  end.

End Primitives.

(** What [checkRateLimit] answers to the [i]-th request of a window
    that was opened at [opened], when the request arrives at [now]. *)
Definition window_reply (opened now i : Z) : Async.outcome RateLimitInfo :=
  let ttl := opened + RATE_LIMIT_WINDOW - now in
  if i >? RATE_LIMIT_MAX
  then Async.Throws
         (Async.RateLimitError
            ("Rate limit exceeded. Retry after "
               +:+ JS.string_of_Z ttl +:+ "ms") ttl)
  else Async.Returns
         (mkRateLimitInfo RATE_LIMIT_MAX (RATE_LIMIT_MAX - i)
            (opened + RATE_LIMIT_WINDOW)).

Fixpoint window_replies (opened i : Z) (times : list Z)
  : list (Async.outcome RateLimitInfo) :=
  match times with
  | [] => []
  | now :: rest =>
      window_reply opened now i :: window_replies opened (i + 1) rest
  end.

(** The counter of [relay] stands at [count], in a window opened at
    [opened]. *)
Definition counter_at (d : Redis.db) (relay : string) (opened count : Z)
  : Prop :=
  d !! ("ratelimit:" +:+ relay)
  = Some (Redis.mkEntry (Redis.RString (JS.string_of_Z count))
            (Some (opened + RATE_LIMIT_WINDOW))).

(** The counter of [relay] stands at [count] and has no expiry. *)
Definition counter_without_expiry (d : Redis.db) (relay : string)
  (count : Z) : Prop :=
  d !! ("ratelimit:" +:+ relay)
  = Some (Redis.mkEntry (Redis.RString (JS.string_of_Z count)) None).

Definition is_rate_limit_error (r : Async.outcome RateLimitInfo) : bool :=
  match r with
  | Async.Throws (Async.RateLimitError _ _) => true
  | _ => false
  end.

(** The test of [sendHeartbeats]: no pong for more than 90 seconds. *)
Definition timed_out (now : Z) (conn : AgentConnection) : bool :=
  now - lastPing conn >? 90000.

(** Channel [h] has authenticated. *)
Definition has_authenticated (h : nat) (s : ServerState) : bool :=
  match closures s !! h with
  | Some c => authenticated c
  | None => false
  end.

(** Channel [h] is open and [f] is the newest frame on it, written on top
    of the frames [out]. *)
Definition written (h : nat) (f : frame) (out : list frame)
  (s : ServerState) : Prop :=
  sockets s !! h = Some (mkSocket OPEN (f :: out)).

(** Channel [h] is not open (or does not exist). *)
Definition not_open (h : nat) (s : ServerState) : Prop :=
  match sockets s !! h with
  | Some k => state k <> OPEN
  | None => True
  end.

(** [data] carries credentials that the agent table accepts: it is a
    message of type [auth] whose [relay_id] names an agent and whose
    [api_key] matches the stored hash. *)
Definition credentials_ok (bcrypt_compare : string -> string -> bool)
  (s : ServerState) (data : option JS.json) : bool :=
  match data with
  | Some JS.JNull => false
  | Some message =>
      is_string (JS.get_field "type" message) "auth"
      && match JS.get_field "relay_id" message,
               JS.get_field "api_key" message with
         | Some (JS.JStr r), Some (JS.JStr k) =>
             match agents s !! r with
             | Some a => bcrypt_compare k (api_key_hash a)
             | None => false
             end
         | _, _ => false
         end
  | None => false
  end.

(** The key under which [preventReplay] marks an event id. *)
Definition marker (eventId : JS.json) : string :=
  "event:processed:" +:+ JS.to_string eventId.

(** The reply says [delivered] (200) or [queued] (202). *)
Definition accepted (relay : string) (now : Z) (r : Reply) : Prop :=
  (code r = 200 /\ reply_body r = status_delivered relay now)
  \/ (code r = 202 /\
      reply_body r
      = status_queued relay "Agent offline; event queued for delivery" now).

Definition is_replay (e : Async.exn) : bool :=
  match e with
  | Async.ReplayError _ => true
  | _ => false
  end.

End Server.

(** ** Two requests inside [preventReplay] at once

    A Node process runs one continuation at a time and switches between
    requests only at an [await].  [preventReplay] has two awaited Redis
    calls, so one run of it is two atomic steps; a schedule says which of
    two pending runs moves next. *)

Module Interleaving.

(** Where one run of [preventReplay] stands. *)
Inductive pc : Type :=
| AtExists       (* about to await [redis.exists(key)] *)
| AtSetex        (* the check passed; about to await [redis.setex] *)
| Resolved       (* returned: the replay gate is passed *)
| Rejected.      (* threw [ReplayError] *)

Definition step (now : Z) (eventId : string) (p : pc) (d : Redis.db)
  : pc * Redis.db :=
  let key := "event:processed:" +:+ eventId in
  match p with
  | AtExists =>
      if negb (Redis.exists_ now d key =? 0) then (Rejected, d)
      else (AtSetex, d)
  | AtSetex => (Resolved, Redis.setex now d key Server.DEDUP_TTL "1")
  | Resolved => (Resolved, d)
  | Rejected => (Rejected, d)
  end.

Inductive who : Type := First | Second.

Record config : Type := mkConfig {
  first : pc;
  second : pc;
  store : Redis.db
}.

Definition move (now : Z) (id1 id2 : string) (w : who) (c : config)
  : config :=
  match w with
  | First =>
      let '(p, d) := step now id1 (first c) (store c) in
      mkConfig p (second c) d
  | Second =>
      let '(p, d) := step now id2 (second c) (store c) in
      mkConfig (first c) p d
  end.

Definition run (now : Z) (id1 id2 : string) (schedule : list who)
  (c : config) : config :=
  fold_left (fun c w => move now id1 id2 w c) schedule c.

Definition passed (p : pc) : bool :=
  match p with
  | Resolved => true
  | _ => false
  end.

End Interleaving.

(** ** Any number of requests inside [checkRateLimit] at once

    [checkRateLimit] awaits two or three Redis commands.  Each command
    runs atomically in Redis at some time; the code after it, up to the
    next [await], runs without interruption.  A schedule says which
    pending run has its next command executed, and when. *)

Module Burst.

(** Where one run of [checkRateLimit] stands. *)
Inductive pc : Type :=
| AtIncr                  (* about to await [redis.incr(key)] *)
| AtPexpire (count : Z)   (* [count === 1]; about to await [redis.pexpire] *)
| AtPttl (count : Z)      (* about to await [redis.pttl(key)] *)
| Finished (count : Z) (r : Async.outcome Server.RateLimitInfo)
| Failed (message : string).   (* [redis.incr] was rejected *)

Definition step (now : Z) (relay : string) (p : pc) (d : Redis.db)
  : pc * Redis.db :=
  let key := "ratelimit:" +:+ relay in
  match p with
  | AtIncr =>
      match Redis.incr now d key with
      | (d', Redis.Ok count) =>
          (if count =? 1 then AtPexpire count else AtPttl count, d')
      | (d', Redis.Err message) => (Failed message, d')
      end
  | AtPexpire count =>
      (AtPttl count, fst (Redis.pexpire now d key Server.RATE_LIMIT_WINDOW))
  | AtPttl count =>
      let ttl := Redis.pttl now d key in
      (Finished count
         (if count >? Server.RATE_LIMIT_MAX
          then Async.Throws
                 (Async.RateLimitError
                    ("Rate limit exceeded. Retry after "
                       +:+ JS.string_of_Z ttl +:+ "ms") ttl)
          else Async.Returns
                 (Server.mkRateLimitInfo Server.RATE_LIMIT_MAX
                    (Z.max 0 (Server.RATE_LIMIT_MAX - count)) (now + ttl))),
       d)
  | Finished _ _ => (p, d)
  | Failed _ => (p, d)
  end.

(** What a run that has come to its end hands to its caller. *)
Definition result (p : pc) : option (Async.outcome Server.RateLimitInfo) :=
  match p with
  | Finished _ r => Some r
  | Failed message => Some (Async.Throws (Async.ReplyError message))
  | _ => None
  end.

Record config : Type := mkConfig {
  runs : list pc;
  store : Redis.db
}.

(** The next command of run number [who] is executed at time [now]. *)
Definition move (relay : string) (who : nat) (now : Z) (c : config)
  : config :=
  match runs c !! who with
  | Some p =>
      let '(p', d') := step now relay p (store c) in
      mkConfig (<[who := p']> (runs c)) d'
  | None => c
  end.

Definition run (relay : string) (schedule : list (nat * Z)) (c : config)
  : config :=
  fold_left (fun c m => move relay (fst m) (snd m) c) schedule c.

(** The run has returned a [RateLimitInfo]: the request goes on. *)
Definition accepted (p : pc) : bool :=
  match p with
  | Finished _ (Async.Returns _) => true
  | _ => false
  end.

(** The value [redis.incr] gave to a run. *)
Definition count_of (p : pc) : option Z :=
  match p with
  | AtPexpire count => Some count
  | AtPttl count => Some count
  | Finished count _ => Some count
  | _ => None
  end.

Definition counts (ps : list pc) : list Z := omap count_of ps.

Definition accepted_count (p : pc) : option Z :=
  if accepted p then count_of p else None.

(** A run sets the expiry only with the count 1, is accepted exactly
    with a count of at most 100, and has not been failed by Redis. *)
Definition consistent (p : pc) : Prop :=
  match p with
  | AtIncr => True
  | AtPexpire count => count = 1
  | AtPttl _ => True
  | Finished count r => accepted p = (count <=? Server.RATE_LIMIT_MAX)
  | Failed _ => False
  end.

(** What holds of a burst that started at [t0] without a live counter
    while all its commands fall within one minute: the counts handed out
    are the numbers from 1 to their number, each once, and the counter
    holds their number and does not expire before [t0 + 60000]. *)
Definition in_step (t0 : Z) (relay : string) (c : config) : Prop :=
  let m := Z.of_nat (length (counts (runs c))) in
  NoDup (counts (runs c))
  /\ Forall (fun x => 1 <= x <= m) (counts (runs c))
  /\ Forall consistent (runs c)
  /\ (m = 0 ->
      forall t, t0 <= t ->
        Redis.lookup_live t (store c) ("ratelimit:" +:+ relay) = None)
  /\ (0 < m ->
      exists e,
        store c !! ("ratelimit:" +:+ relay)
        = Some (Redis.mkEntry (Redis.RString (JS.string_of_Z m)) e)
        /\ match e with
           | Some x => t0 + Server.RATE_LIMIT_WINDOW <= x
           | None => True
           end).

End Burst.

(** ** The ['message'] handler of the server, one [await] at a time

    [Server.onMessage] runs the handler from its first line to its last.
    In the source the handler is an [async] function: at an [await] the
    process turns to other handlers and comes back when the awaited call
    has answered.  On the authentication path the captured variable
    [authenticated] is tested before the first [await] (manager.ts, line
    36) and set after the second (line 48).  Here one run of the handler
    is cut at its [await]s.  A schedule says what happens next: a frame
    arrives and its handler runs up to its first [await], a pending run
    gets its answer and runs up to its next [await], or another handler
    of the server runs. *)

Module Handshake.
Import Async Server.

(** The awaited call a run is waiting for. *)
Inductive pc : Type :=
| AtFind (message : JS.json)
    (* [getAgentByRelayId(message.relay_id)] *)
| AtCompare (message : JS.json) (agent : Agent)
    (* [verifyApiKey(message.api_key, agent.api_key_hash)] *)
| AtSetex (relay sessionId value : string)
    (* [redis.setex] of the session record *)
| AtDel (key : string)
    (* [redis.del] inside [handleAck] *)
| Done.

(** A run of the handler: its channel, the UUID that
    [crypto.randomUUID()] gives it if it comes to draw one, and where it
    stands. *)
Record handler : Type := mkHandler {
  channel : nat;
  uuid : string;
  waits : pc
}.

Record config : Type := mkConfig {
  runs : list handler;
  world : ServerState
}.

Inductive action : Type :=
| Arrives (h : nat) (data : option JS.json) (now : Z) (uuid : string)
    (* a ['message'] event on channel [h] *)
| Resumes (who : nat) (now : Z)
    (* the call that run number [who] awaits answers at [now] *)
| Happens (e : Server.event).
    (* a handler of the server that nothing interrupts *)

Section Primitives.

Variable hmac_sha256_hex : string -> string -> string.
Variable JSON_stringify : JS.json -> string.
Variable bcrypt_compare : string -> string -> bool.
Variable WEBHOOK_SECRET : string.
Variable PUBLIC_URL : string.

(** One segment of the handler inside its [try]: an exception is
    answered by the [catch], which ends the run. *)
Definition guarded (h : nat) (now : Z) (c : M ServerState pc)
  : ServerState -> pc * ServerState :=
  fun s =>
    match c s with
    | (s', Returns p) => (p, s')
    | (s', Throws _) =>
        (Done,
         fst (sendError h "internal_error" "Failed to process message" now
                s'))
    end.

(** From the ['message'] event to the first [await]. *)
Definition start (h : nat) (data : option JS.json) (now : Z)
  : ServerState -> pc * ServerState :=
  guarded h now
    (match data with
     | None => throw (SyntaxError "Unexpected token")
     | Some message =>
         c <- get_closure h ;;
         type <- prop message "type" ;;
         (* Handle authentication *)
         if negb (authenticated c) then
           if negb (is_string type "auth") then
             sendError h "authentication_required"
               "Must authenticate first" now ;;
             ret Done
           else
             (* Verify credentials *)
             prop message "relay_id" ;;
             ret (AtFind message)
         else
           (* Handle other message types *)
           if is_string type "pong" then
             handlePong (closure_relayId c) now ;;
             ret Done
           else if is_string type "ack" then
             id <- prop message "id" ;;
             ret (AtDel ("ack:pending:" +:+ template id))
           else
             sendError h "invalid_message"
               ("Unknown message type: " +:+ template type) now ;;
             ret Done
     end).

(** From the answer of the awaited call to the next [await], or to the
    end of the handler. *)
Definition resume (h : nat) (now : Z) (uuid : string) (p : pc)
  : ServerState -> pc * ServerState :=
  match p with
  | AtFind message =>
      guarded h now
        (relay_id <- prop message "relay_id" ;;
         agent <- getAgentByRelayId relay_id ;;
         match agent with
         | None =>
             sendError h "invalid_credentials"
               "Invalid relay_id or API key" now ;;
             ret Done
         | Some a => ret (AtCompare message a)
         end)
  | AtCompare message a =>
      guarded h now
        (relay_id <- prop message "relay_id" ;;
         api_key <- prop message "api_key" ;;
         ok <- verifyApiKey bcrypt_compare api_key (api_key_hash a) ;;
         if negb ok then
           sendError h "invalid_credentials"
             "Invalid relay_id or API key" now ;;
           ret Done
         else
           (* Authentication successful *)
           let relay := template relay_id in
           set_closure h (mkClosure true (Some relay)) ;;
           let sessionId := uuid in
           (* Store connection *)
           (if JS.truthy_string (Some relay)
            then fun s =>
                   (set_connections
                      (<[relay := mkConnection relay h sessionId now now]>
                         (connections s)) s, Returns tt)
            else ret tt) ;;
           (* Store session in Redis (for multi-instance routing) *)
           ret (AtSetex relay sessionId
                  (JSON_stringify
                     (JS.JObj [("sessionId", JS.JStr sessionId);
                               ("connectedAt", JS.JNum now)]))))
  | AtSetex relay sessionId value =>
      guarded h now
        (with_redis (redis_setex now ("session:" +:+ relay) 86400 value) ;;
         (* Send success message *)
         (fun s =>
            (socket_send h
               (auth_success relay
                  (PUBLIC_URL +:+ "/api/v1/webhook/" +:+ relay)
                  sessionId now) s, Returns tt)) ;;
         ret Done)
  | AtDel key =>
      guarded h now (with_redis (redis_del now key) ;; ret Done)
  | Done => fun s => (Done, s)
  end.

(** A run that nothing interrupts: its segments one after the other, at
    one reading of the clock. *)
Definition alone (h : nat) (data : option JS.json) (now : Z)
  (uuid : string) (s : ServerState) : ServerState :=
  let '(p0, s0) := start h data now s in
  let '(p1, s1) := resume h now uuid p0 s0 in
  let '(p2, s2) := resume h now uuid p1 s1 in
  snd (resume h now uuid p2 s2).

Definition act (a : action) (c : config) : config :=
  match a with
  | Arrives h data now uuid =>
      match sockets (world c) !! h with
      | Some k =>
          if is_closed k then c
          else let '(p, s) := start h data now (world c) in
               mkConfig (runs c ++ [mkHandler h uuid p]) s
      | None => c
      end
  | Resumes who now =>
      match runs c !! who with
      | Some r =>
          let '(p, s) := resume (channel r) now (uuid r) (waits r) (world c) in
          mkConfig (<[who := mkHandler (channel r) (uuid r) p]> (runs c)) s
      | None => c
      end
  | Happens e =>
      mkConfig (runs c)
        (Server.apply hmac_sha256_hex JSON_stringify bcrypt_compare
           WEBHOOK_SECRET PUBLIC_URL e (world c))
  end.

Definition play (schedule : list action) (c : config) : config :=
  fold_left (fun c a => act a c) schedule c.

End Primitives.

(** Neither a channel closing by itself nor a heartbeat sweep. *)
Definition steady (a : action) : bool :=
  match a with
  | Happens (Close _ _) => false
  | Happens (Heartbeat _) => false
  | _ => true
  end.

End Handshake.

(** ** packages/node-sdk/src/utils/retry.ts *)

Module Retry.

(** [random] is the value of [Math.random()], in [0, 1).  The arithmetic
    is exact.  The doubles of the source differ from it in two places: a
    base delay of 0 with an attempt from 1025 on gives [NaN]
    ([0 * Infinity]), and a sum just below a whole number can be rounded
    up to it before [Math.floor].  The properties below take a base delay
    above 0 and bounds with room for the rounding. *)
Definition exponentialBackoff (attempt : Z) (baseDelay : Q) (random : Q)
  : Z :=
  let maxDelay : Q := (30000 # 1)%Q in              (* 30 seconds max *)
  let delay :=
    Qmin (baseDelay * Qpower (2 # 1) (attempt - 1))%Q maxDelay in
  (* Add jitter *)
  let jitter := (delay * (2 # 10) * (random - (1 # 2)))%Q in
  Qfloor (delay + jitter)%Q.

(** The interval of the specification, around the capped delay. *)
Definition capped (attempt : Z) (baseDelay : Q) : Q :=
  Qmin (baseDelay * Qpower (2 # 1) (attempt - 1))%Q (30000 # 1)%Q.

Definition within_bounds (attempt : Z) (baseDelay : Q) (result : Z) : Prop :=
  ((8 # 10) * capped attempt baseDelay <= inject_Z result
   /\ inject_Z result <= (12 # 10) * capped attempt baseDelay)%Q.

End Retry.

(** ** The Node SDK client (class [WebhookRelay])

    Each method is a function from the fields of the object to the new
    fields and the list of things it did, in order.  The caller is taken
    to have registered an ['error'] listener, so [emit('error', ...)]
    returns. *)

Module Client.

Inductive readyState : Type := CONNECTING | OPEN | CLOSING | CLOSED.

Record Options : Type := mkOptions {
  relayUrl : string;
  apiKey : string;
  autoReconnect : bool;
  reconnectDelay : Q;
  maxReconnectAttempts : option Z;     (* a whole number; [None] is
                                          [Infinity] *)
  heartbeatInterval : Z
}.

(** A parsed message from the server, by [message.type], with the fields
    the handlers read. *)
Inductive Message : Type :=
| auth_success (webhook_url session_id : string) (timestamp : Z)
| auth_error (message : option string)
| webhook (id : string) (payload : option JS.json)   (* [None]: no
                                                         [payload] field *)
| ping
| error (message : option string)
| disconnect (reason : string) (message : option string)
    (reconnectAfterMs : option Z)
| unknown (type : string)
| unparsable.                          (* [JSON.parse] throws *)

(** What the client writes on the channel. *)
Inductive Frame : Type :=
| auth (relay_id api_key version : string)
| pong (timestamp : Z)
| ack (id : string) (timestamp : Z).

Inductive effect : Type :=
| Emit_error (message : string)
| Emit_connected (webhookUrl sessionId : string) (timestamp : Z)
| Emit_disconnected (reason : string) (message : option string)
    (reconnectAfterMs : option Z)
| Emit_reconnecting (attempt : Z) (maxAttempts : option Z) (nextRetryMs : Z)
| Sent (f : Frame)
| Resolve                              (* the promise of [connect] *)
| Reject (message : string)
| Unhandled_rejection (message : string)   (* a promise that nobody
                                               awaits is rejected *)
| NewWebSocket (url : string)
| CloseSocket                          (* [ws.close()] *)
| Timeout_reconnect (ms : Z)   (* [setTimeout(() => this.reconnect(), ms)] *)
| Timeout_connect (ms : Z).    (* [reconnect]: wait [ms], then [connect()] *)

Record WebhookRelay : Type := mkRelay {
  options : Options;
  ws : option readyState;        (* [null], or the state of the channel *)
  connected : bool;
  reconnectAttempt : Z;
  heartbeatTimer : bool;         (* an interval timer is set *)
  lastPongTime : Z;
  webhookUrl : option string;
  sessionId : option string;
  shouldReconnect : bool
}.

(** [new WebhookRelay(options)], with the defaults filled in; [None] when
    it throws because [relayUrl] or [apiKey] is empty. *)
Definition constructor (o : Options) : option WebhookRelay :=
  if String.eqb (relayUrl o) EmptyString
     || String.eqb (apiKey o) EmptyString
  then None
  else Some (mkRelay o None false 0 false 0 None None true).

(** [a || b] on strings that may be missing. *)
Definition or_default (a : option string) (b : string) : string :=
  match a with
  | Some s => if String.eqb s EmptyString then b else s
  | None => b
  end.

Definition send (f : Frame) (c : WebhookRelay) : list effect :=
  match ws c with
  | Some OPEN => [Sent f]
  | _ => []
  end.

Definition extractRelayId (c : WebhookRelay) : string := EmptyString.

Definition acknowledge (eventId : string) (now : Z) (c : WebhookRelay)
  : list effect :=
  send (ack eventId now) c.

Definition connect (c : WebhookRelay) : WebhookRelay * list effect :=
  (mkRelay (options c) (Some CONNECTING) (connected c) (reconnectAttempt c)
     (heartbeatTimer c) (lastPongTime c) (webhookUrl c) (sessionId c)
     (shouldReconnect c),
   [NewWebSocket (relayUrl (options c))]).

(** The ['open'] handler. *)
Definition onOpen (c : WebhookRelay) : WebhookRelay * list effect :=
  let c1 :=
    mkRelay (options c) (Some OPEN) (connected c) (reconnectAttempt c)
      (heartbeatTimer c) (lastPongTime c) (webhookUrl c) (sessionId c)
      (shouldReconnect c) in
  (c1, send (auth (extractRelayId c1) (apiKey (options c1)) "1.0.0") c1).

(** The ['error'] handler. *)
Definition onError (message : string) (c : WebhookRelay)
  : WebhookRelay * list effect :=
  (c, [Emit_error message; Reject message]).

Definition disconnect_ (c : WebhookRelay) : WebhookRelay * list effect :=
  (mkRelay (options c) None false (reconnectAttempt c) false
     (lastPongTime c) (webhookUrl c) (sessionId c) false,
   match ws c with
   | Some _ => [CloseSocket]
   | None => []
   end).

Definition handleAuthSuccess (webhook_url session_id : string)
  (timestamp now : Z) (c : WebhookRelay) : WebhookRelay * list effect :=
  (mkRelay (options c) (ws c) true 0 true now (Some webhook_url)
     (Some session_id) (shouldReconnect c),
   [Emit_connected webhook_url session_id timestamp; Resolve]).

Definition handleAuthError (message : option string) (c : WebhookRelay)
  : WebhookRelay * list effect :=
  let error := or_default message "Authentication failed" in
  (c, [Emit_error error; Reject error]).

(** What one registered ['webhook'] listener does with the event. *)
Inductive handler_result : Type :=
| returns_false
| returns_other
| throws (message : string).

Fixpoint call_handlers (hs : list handler_result) (shouldAck : bool)
  : string + bool :=
  match hs with
  | [] => inr shouldAck
  | returns_false :: rest => call_handlers rest false
  | returns_other :: rest => call_handlers rest shouldAck
  | throws m :: _ => inl m
  end.

(** [message.payload.event] can be read: [payload] is there and is not
    [null]. *)
Definition has_payload (payload : option JS.json) : bool :=
  match payload with
  | None => false
  | Some JS.JNull => false
  | Some _ => true
  end.

(** [handleWebhook] is an [async] method that [handleMessage] calls
    without awaiting it.  Its first statement, before the [try], reads
    [message.payload.event] for the debug log: without a payload this
    throws, the promise of the method is rejected and nothing else
    happens.  [listeners] are the listeners registered when the frame
    arrives, with what each does; the client is read only by [send], once
    the listeners have been awaited. *)
Definition handleWebhook (id : string) (payload : option JS.json)
  (listeners : list handler_result) (now : Z) (c : WebhookRelay)
  : WebhookRelay * list effect :=
  match payload with
  | None =>
      (c, [Unhandled_rejection
             "Cannot read properties of undefined (reading 'event')"])
  | Some JS.JNull =>
      (c, [Unhandled_rejection
             "Cannot read properties of null (reading 'event')"])
  | Some _ =>
      match listeners with
      | [] => (c, acknowledge id now c)
      | _ =>
          match call_handlers listeners true with
          | inr true => (c, acknowledge id now c)
          | inr false => (c, [])
          | inl m => (c, [Emit_error m])   (* Don't acknowledge on error *)
          end
      end
  end.

Definition handlePing (now : Z) (c : WebhookRelay)
  : WebhookRelay * list effect :=
  let c1 :=
    mkRelay (options c) (ws c) (connected c) (reconnectAttempt c)
      (heartbeatTimer c) now (webhookUrl c) (sessionId c)
      (shouldReconnect c) in
  (c1, send (pong now) c1).

Definition handleError (message : option string) (c : WebhookRelay)
  : WebhookRelay * list effect :=
  (c, [Emit_error (or_default message "Server error")]).

Definition handleDisconnect (reason : string) (message : option string)
  (reconnectAfterMs : option Z) (c : WebhookRelay)
  : WebhookRelay * list effect :=
  (c,
   Emit_disconnected reason message reconnectAfterMs ::
   match reconnectAfterMs with
   | Some ms =>
       if negb (ms =? 0) && autoReconnect (options c)
       then [Timeout_reconnect ms] else []
   | None => []
   end).

(** [reconnect], up to the point where it waits: [random] is the draw of
    [Math.random()] inside [exponentialBackoff]. *)
Definition reconnect (random : Q) (c : WebhookRelay)
  : WebhookRelay * list effect :=
  if match maxReconnectAttempts (options c) with
     | Some m => reconnectAttempt c >=? m
     | None => false
     end
  then (c, [Emit_error "Max reconnect attempts reached"])
  else
    let attempt := reconnectAttempt c + 1 in
    let delay :=
      Retry.exponentialBackoff attempt (reconnectDelay (options c)) random in
    (mkRelay (options c) (ws c) (connected c) attempt (heartbeatTimer c)
       (lastPongTime c) (webhookUrl c) (sessionId c) (shouldReconnect c),
     [Emit_reconnecting attempt (maxReconnectAttempts (options c)) delay;
      Timeout_connect delay]).

(** The ['close'] handler. *)
Definition handleClose (code : Z) (reason : string) (random : Q)
  (c : WebhookRelay) : WebhookRelay * list effect :=
  let c1 :=
    mkRelay (options c) (ws c) false (reconnectAttempt c) false
      (lastPongTime c) (webhookUrl c) (sessionId c) (shouldReconnect c) in
  let event :=
    Emit_disconnected (or_default (Some reason) "connection_closed")
      (Some ("WebSocket closed with code " +:+ JS.string_of_Z code)) None in
  (* Auto-reconnect if enabled *)
  if shouldReconnect c1 && autoReconnect (options c1)
  then let '(c2, es) := reconnect random c1 in (c2, event :: es)
  else (c1, [event]).

(** One tick of the interval timer set by [startHeartbeat]. *)
Definition heartbeat_tick (now : Z) (c : WebhookRelay)
  : WebhookRelay * list effect :=
  let timeSinceLastPong := now - lastPongTime c in
  let timeout := heartbeatInterval (options c) * 3 in
  if timeSinceLastPong >? timeout
  then match ws c with
       | Some OPEN =>
           (mkRelay (options c) (Some CLOSING) (connected c)
              (reconnectAttempt c) (heartbeatTimer c) (lastPongTime c)
              (webhookUrl c) (sessionId c) (shouldReconnect c),
            [CloseSocket])
       | Some _ => (c, [CloseSocket])
       | None => (c, [])
       end
  else (c, []).

(** [handleMessage]; [listeners] are the registered ['webhook']
    listeners. *)
Definition handleMessage (m : Message) (listeners : list handler_result)
  (now : Z) (c : WebhookRelay) : WebhookRelay * list effect :=
  match m with
  | auth_success url sid ts => handleAuthSuccess url sid ts now c
  | auth_error msg => handleAuthError msg c
  | webhook id payload => handleWebhook id payload listeners now c
  | ping => handlePing now c
  | error msg => handleError msg c
  | disconnect reason msg after => handleDisconnect reason msg after c
  | unknown _ => (c, [])
  | unparsable => (c, [Emit_error "Unexpected token"])
  end.

(** Does a step start a reconnection attempt? *)
Definition initiates_reconnect (es : list effect) : bool :=
  existsb (fun e => match e with
                    | Emit_reconnecting _ _ _ => true
                    | Timeout_connect _ => true
                    | Timeout_reconnect _ => true
                    | _ => false
                    end) es.

(** [reconnectAttempt] is below [maxReconnectAttempts]. *)
Definition attempts_left (c : WebhookRelay) : Prop :=
  match maxReconnectAttempts (options c) with
  | Some m => reconnectAttempt c < m
  | None => True
  end.

(** *** The client as a transition system

    What can happen to one [WebhookRelay] object, one callback at a
    time.  A tick of the heartbeat interval is allowed in every state:
    [startHeartbeat] overwrites [heartbeatTimer] without clearing it, so
    an interval can outlive the field. *)
Inductive event : Type :=
| Call_connect                 (* by the application, or by [reconnect]
                                  when its delay has passed *)
| Call_disconnect
| On_open
| On_error (message : string)
| On_message (m : Message) (listeners : list handler_result) (now : Z)
| On_close (code : Z) (reason : string) (random : Q)
| On_heartbeat (now : Z)
| On_reconnect_timer (random : Q).   (* the timer of [handleDisconnect] *)

Definition step (e : event) (c : WebhookRelay)
  : WebhookRelay * list effect :=
  match e with
  | Call_connect => connect c
  | Call_disconnect => disconnect_ c
  | On_open => onOpen c
  | On_error message => onError message c
  | On_message m listeners now => handleMessage m listeners now c
  | On_close code reason random => handleClose code reason random c
  | On_heartbeat now => heartbeat_tick now c
  | On_reconnect_timer random => reconnect random c
  end.

Definition run (es : list event) (c : WebhookRelay) : WebhookRelay :=
  fold_left (fun c e => fst (step e c)) es c.

Definition is_returns_other (r : handler_result) : bool :=
  match r with
  | returns_other => true
  | _ => false
  end.

(** A frame as the server parses it: [JSON.parse] of the
    [JSON.stringify] of the object the client passed to [send]. *)
Definition wire (f : Frame) : JS.json :=
  match f with
  | auth relay_id api_key version =>
      JS.JObj [("type", JS.JStr "auth"); ("relay_id", JS.JStr relay_id);
               ("api_key", JS.JStr api_key); ("version", JS.JStr version)]
  | pong timestamp =>
      JS.JObj [("type", JS.JStr "pong"); ("timestamp", JS.JNum timestamp)]
  | ack id timestamp =>
      JS.JObj [("type", JS.JStr "ack"); ("id", JS.JStr id);
               ("timestamp", JS.JNum timestamp)]
  end.

End Client.

(** ** Endpoint encryption (AES-256-GCM)

    A [string] stands for the UTF-8 bytes of a text, that is, of a
    JavaScript string without lone surrogates.  [None] is a thrown
    exception. *)

Module Encryption.

(** [s.split(sep)] for a one-character separator. *)
Fixpoint split (sep : ascii) (s : string) : list string :=
  match s with
  | EmptyString => [EmptyString]
  | String c rest =>
      if Ascii.eqb c sep then EmptyString :: split sep rest
      else match split sep rest with
           | x :: xs => String c x :: xs
           | [] => [String c EmptyString]
           end
  end.

(** No separator inside a field. *)
Fixpoint no_colon (s : string) : Prop :=
  match s with
  | EmptyString => True
  | String c rest => c <> ":"%char /\ no_colon rest
  end.

Section Cipher.

(** [createCipheriv('aes-256-gcm', key, iv)], [update], [final] and
    [getAuthTag]: ciphertext and tag. *)
Variable gcm_encrypt : list byte -> list byte -> list byte
                       -> list byte * list byte.
(** [createDecipheriv], [setAuthTag], [update] and [final]: [None]
    when any of them throws (tag mismatch included). *)
Variable gcm_decrypt : list byte -> list byte -> list byte -> list byte
                       -> option (list byte).

Definition encryptEndpoint (endpoint key : string) (iv : list byte)
  : option string :=
  let keyBuffer := JS.buffer_from_hex key in
  if (length keyBuffer =? 32)%nat then
    let '(encrypted, authTag) :=
      gcm_encrypt keyBuffer iv (list_byte_of_string endpoint) in
    (* Return: iv + authTag + ciphertext (all hex) *)
    Some (JS.buffer_to_hex iv +:+ ":" +:+ JS.buffer_to_hex authTag
            +:+ ":" +:+ JS.buffer_to_hex encrypted)
  else None.

Definition decryptEndpoint (encryptedData key : string) : option string :=
  let keyBuffer := JS.buffer_from_hex key in
  match split ":" encryptedData with
  | ivHex :: authTagHex :: encrypted :: _ =>
      let iv := JS.buffer_from_hex ivHex in
      let authTag := JS.buffer_from_hex authTagHex in
      if (length keyBuffer =? 32)%nat then
        match gcm_decrypt keyBuffer iv authTag
                (JS.buffer_from_hex encrypted) with
        | Some decrypted => Some (string_of_list_byte decrypted)
        | None => None
        end
      else None
  | _ => None
  end.

End Cipher.

End Encryption.

(** ** Registration (routes/register.ts, services/auth.ts)

    [crypto.randomBytes] draws and the bcrypt salt are arguments.  The
    table [agents] has [relay_id] as its unique key ([findUnique] looks
    agents up by it) and a nullable text column [workspace_id]. *)

Module Registration.
Import Async Server.

(** [s.replace(/=/g, '')] *)
Fixpoint remove_equals (s : string) : string :=
  match s with
  | EmptyString => EmptyString
  | String c rest =>
      if Ascii.eqb c "="%char then remove_equals rest
      else String c (remove_equals rest)
  end.

(** The body of the reply of [POST /register]. *)
Record Registered : Type := mkRegistered {
  relay_id : string;
  api_key : string;
  webhook_url : string
}.

Definition BCRYPT_ROUNDS : Z := 12.

Section Primitives.

Variable bcrypt_hash : string -> Z -> string -> string.
  (* [bcrypt.hash(data, rounds)] with the salt it draws *)
Variable base64url : list byte -> string.
  (* [buf.toString('base64url')] *)
Variable PUBLIC_URL : string.

Definition generateApiKey (random32 random16 : list byte) : string :=
  let base64Url := remove_equals (base64url random32) in
  let hexSuffix := JS.buffer_to_hex random16 in
  "sk_" +:+ base64Url +:+ "_" +:+ hexSuffix.

Definition hashApiKey (apiKey salt : string) : string :=
  bcrypt_hash apiKey BCRYPT_ROUNDS salt.

(** [db.agents.create]: the row is inserted unless [relay_id] is taken
    or [workspace_id] is neither missing, [null] nor a string. *)
Definition create (relayId apiKeyHash : string)
  (workspaceId : option JS.json) : M ServerState string :=
  fun s =>
    let insert :=
      match agents s !! relayId with
      | Some _ =>
          (s, Throws (LibraryError
                        "Unique constraint failed on the fields: (`relay_id`)"))
      | None =>
          (mkState (redis s) (<[relayId := mkAgent apiKeyHash]> (agents s))
             (connections s) (sockets s) (closures s),
           Returns relayId)
      end in
    match workspaceId with
    | None => insert
    | Some JS.JNull => insert
    | Some (JS.JStr _) => insert
    | Some _ =>
        (s, Throws (LibraryError "Invalid `db.agents.create()` invocation"))
    end.

(** The handler of [POST /register].  Of the row it creates, the model
    keeps [relay_id] and [api_key_hash], the two columns that the sources
    read back. *)
Definition register (body : JS.json) (random32 random16 random8 : list byte)
  (salt : string) : M ServerState Registered :=
  workspaceId <- prop body "workspace_id" ;;
  let apiKey := generateApiKey random32 random16 in
  let apiKeyHash := hashApiKey apiKey salt in
  let relayId := "agt_" +:+ JS.buffer_to_hex random8 in
  agent_relay_id <- create relayId apiKeyHash workspaceId ;;
  ret (mkRegistered agent_relay_id apiKey
         (PUBLIC_URL +:+ "/api/v1/webhook/" +:+ agent_relay_id)).

End Primitives.

(** The [auth] message of an agent that presents what [register]
    returned. *)
Definition auth_with (r : Registered) : JS.json :=
  JS.JObj [("type", JS.JStr "auth"); ("relay_id", JS.JStr (relay_id r));
           ("api_key", JS.JStr (api_key r)); ("version", JS.JStr "1.0.0")].

End Registration.

(** ** Stand-ins for the library primitives

    Used only to run the model on concrete inputs. *)

Module Fixture.

(** A keyed digest that is the hex of the key and the data. *)
Definition hmac (secret data : string) : string :=
  JS.buffer_to_hex (list_byte_of_string (secret +:+ data)).

Definition quote : string := String "034"%char EmptyString.

(** A serialiser without escapes. *)
Fixpoint stringify (v : JS.json) : string :=
  match v with
  | JS.JNull => "null"
  | JS.JBool true => "true"
  | JS.JBool false => "false"
  | JS.JNum n => JS.string_of_Z n
  | JS.JStr s => quote +:+ s +:+ quote
  | JS.JArr items => "[" +:+ String.concat "," (map stringify items) +:+ "]"
  | JS.JObj fields =>
      "{" +:+ String.concat ","
                (map (fun kv => quote +:+ fst kv +:+ quote +:+ ":"
                                  +:+ stringify (snd kv))
                   fields) +:+ "}"
  end.

Definition bcrypt (apiKey hash : string) : bool :=
  String.eqb hash ("$2b$12$" +:+ apiKey).

Definition secret : string := "whsec".
Definition public_url : string := "http://localhost:3000".

(** The signature header a producer holding [secret] sends. *)
Definition sign (timestamp : string) (body : JS.json) : string :=
  "sha256=" +:+ hmac secret (timestamp +:+ "." +:+ stringify body).

(** A cipher that copies the plaintext and tags it with sixteen zero
    bytes. *)
Definition seal (key iv plaintext : list byte) : list byte * list byte :=
  (plaintext, repeat Byte.x00 16).
Definition unseal (key iv tag ciphertext : list byte)
  : option (list byte) :=
  if forallb (fun b => Byte.eqb b Byte.x00) tag then Some ciphertext
  else None.

Definition now : Z := 1738425600000.
Definition timestamp : string := "1738425600000".

Definition event (eventId : string) : JS.json :=
  JS.JObj [("event_id", JS.JStr eventId);
           ("event", JS.JStr "message.received")].
Definition anonymous_event : JS.json :=
  JS.JObj [("event", JS.JStr "message.received")].

(** A correctly signed request. *)
Definition post (relay timestamp : string) (body : JS.json)
  : Server.Request :=
  Server.mkRequest relay (Some (sign timestamp body)) (Some timestamp) body.

Definition registry : gmap string Server.Agent :=
  {[ "agt_1" := Server.mkAgent "$2b$12$sk_1";
     "agt_2" := Server.mkAgent "$2b$12$sk_2" ]}.

Definition fresh_server : Server.ServerState :=
  Server.mkState ∅ registry ∅ ∅ ∅.


Definition auth_message (relay key : string) : option JS.json :=
  Some (JS.JObj [("type", JS.JStr "auth"); ("relay_id", JS.JStr relay);
                 ("api_key", JS.JStr key)]).

(** A 256-bit key in hex and a 12-byte nonce. *)
Definition key : string :=
  "000102030405060708090a0b0c0d0e0f101112131415161718191a1b1c1d1e1f".
Definition nonce : list byte :=
  [Byte.x01; Byte.x02; Byte.x03; Byte.x04; Byte.x05; Byte.x06;
   Byte.x07; Byte.x08; Byte.x09; Byte.x0a; Byte.x0b; Byte.x0c].

(** The options of a client built with the defaults of the SDK. *)
Definition options : Client.Options :=
  Client.mkOptions "wss://relay.example/api/v1/connect" "sk_1" true
    (5000 # 1)%Q None 30000.

(** The client just built from [options], and the same client once its
    channel is open and the [auth] frame is sent. *)
Definition client : Client.WebhookRelay :=
  Client.mkRelay options None false 0 false 0 None None true.
Definition authenticating : Client.WebhookRelay :=
  fst (Client.onOpen (fst (Client.connect client))).

Definition ingest := Server.ingest hmac stringify secret.
Definition passes_gates := Server.passes_gates hmac stringify secret.
Definition run := Server.run hmac stringify bcrypt secret public_url.
Definition play := Handshake.play hmac stringify bcrypt secret public_url.

(** Stand-ins for [bcrypt.hash] and for the base64url encoder. *)
Definition hash (data : string) (rounds : Z) (salt : string) : string :=
  "$2b$12$" +:+ data.
Definition base64 (bytes : list byte) : string := JS.buffer_to_hex bytes.

Definition onMessage := Server.onMessage stringify bcrypt public_url.
Definition sendWebhook := Server.sendWebhook stringify.
Definition register := Registration.register hash base64 public_url.

(** A server with one open channel that has not authenticated, and the
    same server once [agt_1] has authenticated on that channel. *)
Definition waiting_server : Server.ServerState :=
  run [Server.Connect 1] fresh_server.
Definition online_server : Server.ServerState :=
  run [Server.Message 1 (auth_message "agt_1" "sk_1") now "s-1"]
    waiting_server.
Definition connection_1 : Server.AgentConnection :=
  Server.mkConnection "agt_1" 1 "s-1" now now.
Definition greeting : Server.frame :=
  Server.auth_success "agt_1" (public_url +:+ "/api/v1/webhook/agt_1")
    "s-1" now.


(** A store in which the counter of [agt_1] has no expiry. *)
Definition stuck_counter : Redis.db :=
  {[ "ratelimit:agt_1" := Redis.mkEntry (Redis.RString "100") None ]}.

Definition pong_message : JS.json :=
  JS.JObj [("type", JS.JStr "pong"); ("timestamp", JS.JNum now)].

(** Client options with at most three reconnection attempts. *)
Definition cautious_options : Client.Options :=
  Client.mkOptions "wss://relay.example/api/v1/connect" "sk_1" true
    (5000 # 1)%Q (Some 3) 30000.
Definition cautious_client : Client.WebhookRelay :=
  Client.mkRelay cautious_options None false 0 false 0 None None true.

(** Channel 1 sends its [auth] frame twice in a row; the first run is
    answered and registers channel 1 while the second still waits for
    the agent lookup.  Then channel 2 authenticates for the same relay. *)
Definition both_authenticate : list Handshake.action :=
  [Handshake.Happens (Server.Connect 1);
   Handshake.Happens (Server.Connect 2);
   Handshake.Arrives 1 (auth_message "agt_1" "sk_1") now "s-1";
   Handshake.Arrives 1 (auth_message "agt_1" "sk_1") (now + 1) "s-3";
   Handshake.Resumes 0 (now + 2); Handshake.Resumes 0 (now + 3);
   Handshake.Resumes 0 (now + 4);
   Handshake.Arrives 2 (auth_message "agt_1" "sk_1") (now + 5) "s-2";
   Handshake.Resumes 2 (now + 6); Handshake.Resumes 2 (now + 7);
   Handshake.Resumes 2 (now + 8)].

(** The second run of channel 1 gets its answers. *)
Definition frame_in_flight : list Handshake.action :=
  [Handshake.Resumes 1 (now + 9); Handshake.Resumes 1 (now + 10);
   Handshake.Resumes 1 (now + 11)].

(** Channel 1 closes while its [auth] frame waits for the agent lookup;
    the run gets its answers afterwards. *)
Definition closes_before_answer : list Handshake.action :=
  [Handshake.Happens (Server.Connect 1);
   Handshake.Arrives 1 (auth_message "agt_1" "sk_1") now "s-1";
   Handshake.Happens (Server.Close 1 (now + 1));
   Handshake.Resumes 0 (now + 2); Handshake.Resumes 0 (now + 3);
   Handshake.Resumes 0 (now + 4)].

End Fixture.

(** * Properties *)

(** ** Running asynchronous functions *)

Module AsyncFacts.
Import Async.

Lemma bind_returns {S A B} (c : M S A) (k : A -> M S B) s s' a :
  c s = (s', Returns a) -> bind c k s = k a s'.
Proof. intros H. unfold bind. now rewrite H. Qed.

Lemma bind_throws {S A B} (c : M S A) (k : A -> M S B) s s' e :
  c s = (s', Throws e) -> bind c k s = (s', Throws e).
Proof. intros H. unfold bind. now rewrite H. Qed.

End AsyncFacts.

(** ** Redis commands: which keys they touch *)

Module RedisFacts.
Import Redis.

Lemma lookup_live_setex_eq now now' d key seconds v :
  now' <= now + seconds * 1000 ->
  lookup_live now' (setex now d key seconds v) key
  = Some (mkEntry (RString v) (Some (now + seconds * 1000))).
Proof.
  intros H. unfold lookup_live, setex. rewrite lookup_insert_eq.
  unfold expired; simpl.
  destruct (Z.ltb_spec (now + seconds * 1000) now'); [lia | reflexivity].
Qed.

Lemma exists_setex_eq now now' d key seconds v :
  now' <= now + seconds * 1000 ->
  exists_ now' (setex now d key seconds v) key = 1.
Proof.
  intros H. unfold exists_. now rewrite lookup_live_setex_eq.
Qed.

Lemma setex_other now d key seconds v key' :
  key <> key' -> setex now d key seconds v !! key' = d !! key'.
Proof. intros H. unfold setex. now rewrite lookup_insert_ne. Qed.

Lemma incr_other now d key key' :
  key <> key' -> fst (incr now d key) !! key' = d !! key'.
Proof.
  intros H. unfold incr.
  destruct (lookup_live now d key) as [e|]; simpl.
  - destruct (value e) as [s|l]; simpl; [|reflexivity].
    destruct (parse_int64 s) as [n|]; simpl; [|reflexivity].
    destruct (n + 1 <? 2 ^ 63); simpl; [|reflexivity].
    now rewrite lookup_insert_ne.
  - now rewrite lookup_insert_ne.
Qed.

Lemma pexpire_other now d key ms key' :
  key <> key' -> fst (pexpire now d key ms) !! key' = d !! key'.
Proof.
  intros H. unfold pexpire.
  destruct (lookup_live now d key); simpl; [|reflexivity].
  now rewrite lookup_insert_ne.
Qed.

Lemma lpush_other now d key v key' :
  key <> key' -> fst (lpush now d key v) !! key' = d !! key'.
Proof.
  intros H. unfold lpush.
  destruct (lookup_live now d key) as [e|]; simpl.
  - destruct (value e); simpl; [reflexivity|].
    now rewrite lookup_insert_ne.
  - now rewrite lookup_insert_ne.
Qed.

Lemma del_other now d key key' :
  key <> key' -> fst (del now d key) !! key' = d !! key'.
Proof. intros H. unfold del; simpl. now rewrite lookup_delete_ne. Qed.

Lemma del_absent now d key :
  d !! key = None -> del now d key = (d, 0).
Proof.
  intros H. unfold del, exists_, lookup_live. rewrite H.
  now rewrite delete_id.
Qed.

Lemma lookup_live_ext now d d' key :
  d !! key = d' !! key -> lookup_live now d key = lookup_live now d' key.
Proof. intros H. unfold lookup_live. now rewrite H. Qed.

End RedisFacts.

(** ** The ingestion route *)

Module WebhookFacts.
Import Async AsyncFacts Server.

Lemma preventReplay_fresh now id d :
  Redis.exists_ now d ("event:processed:" +:+ id) = 0 ->
  preventReplay now id d
  = (Redis.setex now d ("event:processed:" +:+ id) DEDUP_TTL "1", Returns tt).
Proof.
  intros H. unfold preventReplay, bind, redis_exists, redis_setex.
  rewrite H. reflexivity.
Qed.

Lemma preventReplay_marked now id d :
  Redis.exists_ now d ("event:processed:" +:+ id) = 1 ->
  preventReplay now id d = (d, Throws (ReplayError "Event already processed")).
Proof.
  intros H. unfold preventReplay, bind, redis_exists, redis_setex.
  rewrite H. reflexivity.
Qed.

Lemma checkRateLimit_returns now relay d :
  below_rate_limit now d relay ->
  exists d' info,
    checkRateLimit now relay d = (d', Returns info)
    /\ forall k, k <> "ratelimit:" +:+ relay -> d' !! k = d !! k.
Proof.
  unfold below_rate_limit, checkRateLimit.
  set (key := "ratelimit:" +:+ relay).
  intros H.
  unfold bind at 1. unfold redis_incr, Redis.incr.
  destruct (Redis.lookup_live now d key) as [e|] eqn:He.
  - destruct H as (str & n & Hv & Hp & Hn). rewrite Hv, Hp.
    unfold RATE_LIMIT_MAX in *.
    destruct (Z.ltb_spec (n + 1) (2 ^ 63)); [|lia].
    cbn [of_reply]. unfold bind, redis_pttl, ret, throw.
    destruct (Z.gtb_spec (n + 1) 100); [lia|].
    destruct (n + 1 =? 1).
    + unfold redis_pexpire.
      destruct (Redis.pexpire now _ key RATE_LIMIT_WINDOW) as [d2 m] eqn:Hpe.
      eexists _, _. split; [reflexivity|].
      intros k Hk. change d2 with (fst (d2, m)). rewrite <- Hpe.
      rewrite RedisFacts.pexpire_other by congruence.
      now rewrite lookup_insert_ne by congruence.
    + eexists _, _. split; [reflexivity|].
      intros k Hk. now rewrite lookup_insert_ne by congruence.
  - cbn [of_reply]. unfold bind, redis_pttl, ret, throw.
    change (1 =? 1) with true. cbv iota.
    unfold redis_pexpire.
    destruct (Redis.pexpire now _ key RATE_LIMIT_WINDOW) as [d2 m] eqn:Hpe.
    change (1 >? RATE_LIMIT_MAX) with false. cbv iota.
    eexists _, _. split; [reflexivity|].
    intros k Hk. change d2 with (fst (d2, m)). rewrite <- Hpe.
    rewrite RedisFacts.pexpire_other by congruence.
    now rewrite lookup_insert_ne by congruence.
Qed.


Lemma append_inj p a b : p +:+ a = p +:+ b -> a = b.
Proof.
  induction p as [|c p IH]; intros H; [exact H|].
  apply IH. change (String c (p +:+ a) = String c (p +:+ b)) in H.
  now injection H.
Qed.

Lemma checkRateLimit_other now relay d k :
  k <> "ratelimit:" +:+ relay ->
  fst (checkRateLimit now relay d) !! k = d !! k.
Proof.
  intros Hk.
  unfold checkRateLimit, bind, redis_incr, redis_pexpire, redis_pttl, ret,
    throw.
  pose proof (RedisFacts.incr_other now d ("ratelimit:" +:+ relay) k) as Hi.
  destruct (Redis.incr now d _) as [d1 [n|msg]]; cbn [of_reply fst] in *.
  - destruct (n =? 1).
    + pose proof (RedisFacts.pexpire_other now d1 ("ratelimit:" +:+ relay)
                    RATE_LIMIT_WINDOW k) as Hp.
      destruct (Redis.pexpire now d1 _ _) as [d2 m]. cbn [fst] in *.
      destruct (n >? RATE_LIMIT_MAX); cbn [fst];
        (rewrite Hp by congruence; apply Hi; congruence).
    + destruct (n >? RATE_LIMIT_MAX); cbn [fst]; apply Hi; congruence.
  - apply Hi; congruence.
Qed.

Section Facts.

Variable hmac_sha256_hex : string -> string -> string.
Variable JSON_stringify : JS.json -> string.
Variable WEBHOOK_SECRET : string.

Local Abbreviation ingest :=
  (Server.ingest hmac_sha256_hex JSON_stringify WEBHOOK_SECRET).
Local Abbreviation passes_gates :=
  (Server.passes_gates hmac_sha256_hex JSON_stringify WEBHOOK_SECRET).
Local Abbreviation sendWebhook := (Server.sendWebhook JSON_stringify).

Lemma sendWebhook_returns relay event now s :
  (connections s !! relay = None -> queue_is_list now (redis s) relay) ->
  exists s' st,
    sendWebhook relay event now s = (s', Returns st)
    /\ (forall k, k <> "queue:pending:" +:+ relay ->
                  k <> "ack:pending:" +:+ JS.to_string (id event) ->
                  redis s' !! k = redis s !! k).
Proof.
  intros Hq. unfold Server.sendWebhook.
  destruct (connections s !! relay) as [c|] eqn:Hc.
  - unfold bind, with_redis, zoom, redis_setex, ret.
    eexists _, _. split; [reflexivity|].
    intros k _ Hk. cbn.
    rewrite RedisFacts.setex_other by congruence.
    unfold socket_send.
    destruct (sockets s !! socket c) as [[[] out]|]; reflexivity.
  - specialize (Hq eq_refl). unfold queue_is_list in Hq.
    unfold bind, with_redis, zoom, redis_lpush, Redis.lpush, ret.
    destruct (Redis.lookup_live now (redis s) _) as [e|] eqn:He.
    + destruct Hq as [items Hv]. rewrite Hv. cbn.
      eexists _, _. split; [reflexivity|].
      intros k Hk _. cbn. now rewrite lookup_insert_ne by congruence.
    + cbn. eexists _, _. split; [reflexivity|].
      intros k Hk _. cbn. now rewrite lookup_insert_ne by congruence.
Qed.



Lemma on_redis_eq {A} (c : M Redis.db A) x d' r :
  c (redis (server x)) = (d', r) ->
  on_server (with_redis c) x
  = (mkCtx (set_redis d' (server x)) (reply_headers x), r).
Proof.
  intros H. unfold on_server, with_redis, zoom. now rewrite H.
Qed.

Lemma on_server_eq {A} (c : M ServerState A) x s' r :
  c (server x) = (s', r) ->
  on_server c x = (mkCtx s' (reply_headers x), r).
Proof. intros H. unfold on_server, zoom. now rewrite H. Qed.

Lemma set_redis_same s : set_redis (redis s) s = s.
Proof. now destruct s. Qed.

Lemma prop_not_null v name :
  v <> JS.JNull -> prop v name = ret (JS.get_field name v).
Proof. destruct v; intros H; try reflexivity. congruence. Qed.

Lemma ingest_duplicate now uuid req s :
  passes_gates now req = true ->
  body req <> JS.JNull ->
  Redis.exists_ now (redis s) (marker (event_id_or (body req) uuid)) = 1 ->
  ingest now uuid req s
  = (s, mkReply 409 [] (duplicate_event "Event already processed")).
Proof.
  intros Hg Hb Hex.
  unfold Server.ingest, webhook_handler, Server.passes_gates in *.
  destruct (x_signature req) as [sig|]; [|discriminate].
  destruct (x_timestamp req) as [ts|]; [|discriminate].
  apply andb_prop in Hg as [Hg Hfresh].
  apply andb_prop in Hg as [Hg Hver].
  apply andb_prop in Hg as [Hsig Hts].
  rewrite Hsig, Hts, Hver. apply negb_true_iff in Hfresh. rewrite Hfresh.
  cbn [negb orb andb].
  rewrite (prop_not_null _ _ Hb).
  unfold try_catch.
  erewrite bind_returns by (apply on_server_eq; reflexivity).
  erewrite bind_throws
    by (apply on_redis_eq, preventReplay_marked, Hex).
  cbn. now rewrite set_redis_same.
Qed.

Lemma marker_not_ratelimit e r : marker e <> "ratelimit:" +:+ r.
Proof. unfold marker; discriminate. Qed.
Lemma marker_not_queue e r : marker e <> "queue:pending:" +:+ r.
Proof. unfold marker; discriminate. Qed.
Lemma marker_not_ack e r : marker e <> "ack:pending:" +:+ r.
Proof. unfold marker; discriminate. Qed.
Lemma ratelimit_not_queue a r : "ratelimit:" +:+ a <> "queue:pending:" +:+ r.
Proof. discriminate. Qed.

Lemma below_rate_limit_ext now d d' relay :
  d' !! ("ratelimit:" +:+ relay) = d !! ("ratelimit:" +:+ relay) ->
  below_rate_limit now d relay -> below_rate_limit now d' relay.
Proof.
  unfold below_rate_limit. intros H.
  now rewrite (RedisFacts.lookup_live_ext now d' d _ H).
Qed.

Lemma queue_is_list_ext now d d' relay :
  d' !! ("queue:pending:" +:+ relay) = d !! ("queue:pending:" +:+ relay) ->
  queue_is_list now d relay -> queue_is_list now d' relay.
Proof.
  unfold queue_is_list. intros H.
  now rewrite (RedisFacts.lookup_live_ext now d' d _ H).
Qed.


Lemma ingest_accepted now uuid req s :
  passes_gates now req = true ->
  body req <> JS.JNull ->
  Redis.exists_ now (redis s) (marker (event_id_or (body req) uuid)) = 0 ->
  below_rate_limit now (redis s) (relay_id req) ->
  (connections s !! relay_id req = None ->
   queue_is_list now (redis s) (relay_id req)) ->
  exists s' reply,
    ingest now uuid req s = (s', reply)
    /\ accepted (relay_id req) now reply
    /\ redis s' !! marker (event_id_or (body req) uuid)
       = Some (Redis.mkEntry (Redis.RString "1")
                 (Some (now + DEDUP_TTL * 1000))).
Proof.
  intros Hg Hb Hex Hrl Hq.
  set (eid := event_id_or (body req) uuid) in *.
  unfold Server.ingest, webhook_handler, Server.passes_gates in *.
  destruct (x_signature req) as [sig|]; [|discriminate].
  destruct (x_timestamp req) as [ts|]; [|discriminate].
  apply andb_prop in Hg as [Hg Hfresh].
  apply andb_prop in Hg as [Hg Hver].
  apply andb_prop in Hg as [Hsig Hts].
  rewrite Hsig, Hts, Hver. apply negb_true_iff in Hfresh. rewrite Hfresh.
  cbn [negb orb andb].
  rewrite (prop_not_null _ _ Hb).
  unfold try_catch.
  erewrite bind_returns by (apply on_server_eq; reflexivity).
  erewrite bind_returns
    by (apply on_redis_eq, preventReplay_fresh, Hex).
  fold eid. cbn [server reply_headers].
  set (d1 := Redis.setex now (redis s) _ DEDUP_TTL "1").
  destruct (checkRateLimit_returns now (relay_id req) d1)
    as (d2 & info & Hcrl & Hd2).
  { apply (below_rate_limit_ext now (redis s)); [|exact Hrl].
    subst d1. apply RedisFacts.setex_other, marker_not_ratelimit. }
  erewrite bind_returns
    by (apply on_redis_eq; cbn [server redis set_redis]; exact Hcrl).
  cbn [server reply_headers set_redis redis agents connections sockets
         closures].
  erewrite bind_returns by reflexivity.
  erewrite bind_returns by reflexivity.
  erewrite bind_returns by reflexivity.
  cbn [server reply_headers].
  set (s2 := set_redis d2 _).
  destruct (sendWebhook_returns (relay_id req)
              (mkEvent eid sig (body req)) now s2)
    as (s3 & st & Hsw & Hs3).
  { intros Hc. apply (queue_is_list_ext now (redis s)); [|exact (Hq Hc)].
    subst s2; cbn [redis set_redis].
    rewrite Hd2 by apply not_eq_sym, ratelimit_not_queue.
    subst d1. apply RedisFacts.setex_other, marker_not_queue. }
  erewrite bind_returns by (apply on_server_eq; cbn [server]; exact Hsw).
  assert (Hmark : redis s3 !! marker eid
                  = Some (Redis.mkEntry (Redis.RString "1")
                            (Some (now + DEDUP_TTL * 1000)))).
  { rewrite Hs3 by (apply marker_not_queue || apply marker_not_ack).
    subst s2; cbn [redis set_redis]. rewrite Hd2 by apply marker_not_ratelimit.
    subst d1. unfold Redis.setex. apply lookup_insert_eq. }
  destruct st; cbn; eexists _, _; (split; [reflexivity|]); split; auto;
    [left|right]; split; reflexivity.
Qed.


Lemma checkRateLimit_throws now relay d d' e :
  checkRateLimit now relay d = (d', Throws e) -> is_replay e = false.
Proof.
  unfold checkRateLimit, bind, redis_incr, redis_pexpire, redis_pttl, ret,
    throw.
  destruct (Redis.incr now d _) as [d1 [n|msg]]; cbn.
  - destruct (n =? 1).
    + destruct (Redis.pexpire now d1 _ _) as [d2 m].
      destruct (n >? RATE_LIMIT_MAX); intros [= <- <-]; reflexivity.
    + destruct (n >? RATE_LIMIT_MAX); intros [= <- <-]; reflexivity.
  - intros [= <- <-]; reflexivity.
Qed.

Lemma sendWebhook_throws relay event now s s' e :
  sendWebhook relay event now s = (s', Throws e) -> is_replay e = false.
Proof.
  unfold Server.sendWebhook, bind, with_redis, zoom, redis_lpush,
    redis_setex, ret.
  destruct (connections s !! relay).
  - cbn. discriminate.
  - destruct (Redis.lpush now (redis s) _ _) as [d1 [n|msg]]; cbn.
    + discriminate.
    + intros [= <- <-]; reflexivity.
Qed.

Lemma ingest_409 now uuid req s :
  code (snd (ingest now uuid req s)) = 409 ->
  Redis.exists_ now (redis s) (marker (event_id_or (body req) uuid)) <> 0.
Proof.
  unfold Server.ingest, webhook_handler, try_catch.
  destruct (x_signature req) as [sig|]; [|discriminate].
  destruct (x_timestamp req) as [ts|]; [|discriminate].
  destruct (negb _ || negb _); [discriminate|].
  destruct (negb _); [discriminate|].
  destruct (too_old_or_in_future _ _); [discriminate|].
  destruct (on_server (prop (body req) "event_id") (mkCtx s []))
    as [x0 [f|e0]] eqn:Hprop.
  2:{ erewrite bind_throws by exact Hprop.
      destruct (body req); cbn in Hprop; try discriminate.
      injection Hprop as <- <-. discriminate. }
  erewrite bind_returns by exact Hprop.
  assert (x0 = mkCtx s []) as ->.
  { destruct (body req); cbn in Hprop; try discriminate;
      injection Hprop as <- _; now rewrite set_redis_same || now destruct s. }
  intros H Hex.
  erewrite bind_returns in H
    by (apply on_redis_eq, preventReplay_fresh, Hex).
  cbn [server reply_headers] in H.
  match type of H with
  | context [bind (on_server (with_redis (checkRateLimit ?n ?r))) _ ?x] =>
      destruct (checkRateLimit n r (redis (server x)))
        as [d2 [info|e]] eqn:Hcrl
  end.
  2:{ erewrite bind_throws in H by (apply on_redis_eq; exact Hcrl).
      apply checkRateLimit_throws in Hcrl.
      destruct e; cbn in H; discriminate. }
  erewrite bind_returns in H by (apply on_redis_eq; exact Hcrl).
  erewrite bind_returns in H by reflexivity.
  erewrite bind_returns in H by reflexivity.
  erewrite bind_returns in H by reflexivity.
  cbn [server reply_headers] in H.
  match type of H with
  | context [bind (on_server (sendWebhook ?r ?ev ?n)) _ ?x] =>
      destruct (sendWebhook r ev n (server x)) as [s3 [st|e]] eqn:Hsw
  end.
  - erewrite bind_returns in H by (apply on_server_eq; exact Hsw).
    destruct st; cbn in H; discriminate.
  - erewrite bind_throws in H by (apply on_server_eq; exact Hsw).
    apply sendWebhook_throws in Hsw.
    destruct e; cbn in H; discriminate.
Qed.

(** What the timestamp check does with a timestamp that is a number: it
    lets the request through exactly when the timestamp is at most five
    minutes away from [now], either side. *)
Lemma freshness_numeric now t :
  too_old_or_in_future now (Some t) = false
  <-> Z.abs (now - t) <= 5 * 60 * 1000.
Proof.
  unfold too_old_or_in_future, MAX_AGE.
  destruct (Z.gtb_spec (Z.abs (now - t)) (5 * 60 * 1000)); split;
    intros; (lia || congruence).
Qed.

Lemma freshness_five_minutes_one_second now :
  too_old_or_in_future now (Some (now - (5 * 60 + 1) * 1000)) = true.
Proof.
  unfold too_old_or_in_future, MAX_AGE.
  destruct (Z.gtb_spec (Z.abs (now - (now - (5 * 60 + 1) * 1000)))
              (5 * 60 * 1000)); [reflexivity | lia].
Qed.

Lemma freshness_four_minutes_fifty_nine now :
  too_old_or_in_future now (Some (now - (4 * 60 + 59) * 1000)) = false.
Proof. apply freshness_numeric. lia. Qed.

(** C8. A request without the signature header or without the timestamp
    header is answered 401 [unauthorized] at once and the server is left
    exactly as it was: no replay marker, rate-limit counter, queue entry or
    pending acknowledgment changes. *)
Theorem ingest_missing_header_unauthorized :
  forall now uuid request s,
    x_signature request = None \/ x_timestamp request = None ->
    ingest now uuid request s
    = (s, mkReply 401 []
            (unauthorized "Missing signature or timestamp headers")).
Proof.
  intros now uuid request s H.
  unfold Server.ingest, webhook_handler, try_catch.
  destruct H as [H | H]; rewrite H.
  - reflexivity.
  - destruct (x_signature request); reflexivity.
Qed.

(** A header that is there but empty is treated like a missing one. *)
Lemma ingest_empty_header_unauthorized now uuid request s :
  JS.truthy_string (x_signature request) = false
  \/ JS.truthy_string (x_timestamp request) = false ->
  ingest now uuid request s
  = (s, mkReply 401 []
          (unauthorized "Missing signature or timestamp headers")).
Proof.
  intros H.
  unfold Server.ingest, webhook_handler, try_catch.
  destruct (x_signature request) as [sig|], (x_timestamp request) as [ts|];
    try reflexivity.
  destruct H as [H | H]; rewrite H; cbn [negb orb]; [reflexivity|].
  now rewrite orb_true_r.
Qed.


Lemma sendWebhook_other relay event now s k :
  k <> "queue:pending:" +:+ relay ->
  k <> "ack:pending:" +:+ JS.to_string (id event) ->
  redis (fst (sendWebhook relay event now s)) !! k = redis s !! k.
Proof.
  intros Hq Ha. unfold Server.sendWebhook.
  destruct (connections s !! relay) as [c|].
  - unfold bind, with_redis, zoom, redis_setex, ret. cbn.
    rewrite RedisFacts.setex_other by congruence.
    unfold socket_send.
    destruct (sockets s !! socket c) as [[[] out]|]; reflexivity.
  - unfold bind, with_redis, zoom, redis_lpush, ret.
    pose proof (RedisFacts.lpush_other now (redis s)
                  ("queue:pending:" +:+ relay)
                  (JSON_stringify (Event_json event)) k) as Hl.
    destruct (Redis.lpush now (redis s) _ _) as [d1 [n|msg]];
      cbn in *; apply Hl; congruence.
Qed.

(** Past the replay gate: the store is the marked store, up to the keys
    of the rate limiter, of the offline queue and of the pending
    acknowledgement. *)
Lemma ingest_unmarked_store now uuid req s k :
  passes_gates now req = true ->
  body req <> JS.JNull ->
  Redis.exists_ now (redis s) (marker (event_id_or (body req) uuid)) = 0 ->
  k <> "ratelimit:" +:+ relay_id req ->
  k <> "queue:pending:" +:+ relay_id req ->
  k <> "ack:pending:" +:+ JS.to_string (event_id_or (body req) uuid) ->
  redis (fst (ingest now uuid req s)) !! k
  = Redis.setex now (redis s) (marker (event_id_or (body req) uuid))
      DEDUP_TTL "1" !! k.
Proof.
  intros Hg Hb Hex Hk1 Hk2 Hk3.
  set (eid := event_id_or (body req) uuid) in *.
  unfold Server.ingest, webhook_handler, Server.passes_gates in *.
  destruct (x_signature req) as [sig|]; [|discriminate].
  destruct (x_timestamp req) as [ts|]; [|discriminate].
  apply andb_prop in Hg as [Hg Hfresh].
  apply andb_prop in Hg as [Hg Hver].
  apply andb_prop in Hg as [Hsig Hts].
  rewrite Hsig, Hts, Hver. apply negb_true_iff in Hfresh. rewrite Hfresh.
  cbn [negb orb andb].
  rewrite (prop_not_null _ _ Hb).
  unfold try_catch.
  erewrite bind_returns by (apply on_server_eq; reflexivity).
  erewrite bind_returns
    by (apply on_redis_eq, preventReplay_fresh, Hex).
  fold eid. cbn [server reply_headers].
  set (d1 := Redis.setex now (redis s) _ DEDUP_TTL "1").
  pose proof (checkRateLimit_other now (relay_id req) d1 k Hk1) as Hd2.
  destruct (checkRateLimit now (relay_id req) d1) as [d2 [info|e]] eqn:Hcrl;
    cbn [fst] in Hd2.
  2:{ erewrite bind_throws
        by (apply on_redis_eq; cbn [server redis set_redis]; exact Hcrl).
      destruct e; cbn; exact Hd2. }
  erewrite bind_returns
    by (apply on_redis_eq; cbn [server redis set_redis]; exact Hcrl).
  cbn [server reply_headers set_redis redis agents connections sockets
         closures].
  erewrite bind_returns by reflexivity.
  erewrite bind_returns by reflexivity.
  erewrite bind_returns by reflexivity.
  cbn [server reply_headers].
  set (s2 := set_redis d2 _).
  pose proof (sendWebhook_other (relay_id req) (mkEvent eid sig (body req))
                now s2 k Hk2 Hk3) as Hs3.
  destruct (sendWebhook (relay_id req) (mkEvent eid sig (body req)) now s2)
    as [s3 [st|e]] eqn:Hsw; cbn [fst] in Hs3.
  - erewrite bind_returns by (apply on_server_eq; cbn [server]; exact Hsw).
    destruct st; cbn; rewrite Hs3; exact Hd2.
  - erewrite bind_throws by (apply on_server_eq; cbn [server]; exact Hsw).
    destruct e; cbn; rewrite Hs3; exact Hd2.
Qed.

Lemma exists_0_or_1 now d k :
  Redis.exists_ now d k = 0 \/ Redis.exists_ now d k = 1.
Proof. unfold Redis.exists_. destruct (Redis.lookup_live now d k); auto. Qed.

(** A request that does not get past the replay gate leaves the server
    as it found it. *)
Lemma ingest_not_marking now uuid req s :
  passes_gates now req = false
  \/ body req = JS.JNull
  \/ Redis.exists_ now (redis s) (marker (event_id_or (body req) uuid)) = 1 ->
  fst (ingest now uuid req s) = s.
Proof.
  intros H.
  destruct (passes_gates now req) eqn:Hg.
  2:{ clear H. unfold Server.ingest, webhook_handler, Server.passes_gates,
        try_catch in *.
      destruct (x_signature req) as [sig|]; [|now destruct (x_timestamp req)].
      destruct (x_timestamp req) as [ts|]; [|reflexivity].
      destruct (JS.truthy_string (Some sig)); [|reflexivity].
      destruct (JS.truthy_string (Some ts)); [|reflexivity].
      cbn [negb orb andb] in *.
      destruct (verifySignature _ _ _ _ _ _); [|reflexivity].
      cbn [negb andb] in *. apply negb_false_iff in Hg. rewrite Hg.
      reflexivity. }
  assert (Hnull : body req = JS.JNull \/ body req <> JS.JNull)
    by (destruct (body req); (now left) || (right; discriminate)).
  destruct Hnull as [Hb|Hb].
  - clear H.
    unfold Server.ingest, webhook_handler, Server.passes_gates, try_catch
      in *.
    destruct (x_signature req) as [sig|]; [|discriminate].
    destruct (x_timestamp req) as [ts|]; [|discriminate].
    apply andb_prop in Hg as [Hg Hfresh].
    apply andb_prop in Hg as [Hg Hver].
    apply andb_prop in Hg as [Hsig Hts].
    rewrite Hsig, Hts, Hver. apply negb_true_iff in Hfresh. rewrite Hfresh.
    cbn [negb orb andb]. rewrite Hb.
    erewrite bind_throws by (apply on_server_eq; reflexivity).
    reflexivity.
  - destruct H as [H | [H | H]]; [discriminate | contradiction |].
    now rewrite (ingest_duplicate now uuid req s Hg Hb H).
Qed.

(** The replay markers after a request: the marker of the request's own
    id is set when the request gets past the replay gate, and no other
    marker is touched, whatever the reply. *)
Lemma ingest_markers now uuid req s :
  let eid := event_id_or (body req) uuid in
  let s' := fst (ingest now uuid req s) in
  (passes_gates now req = true ->
   body req <> JS.JNull ->
   Redis.exists_ now (redis s) (marker eid) = 0 ->
   redis s' !! marker eid
   = Some (Redis.mkEntry (Redis.RString "1") (Some (now + DEDUP_TTL * 1000))))
  /\ (forall other,
        other <> JS.to_string eid ->
        redis s' !! ("event:processed:" +:+ other)
        = redis s !! ("event:processed:" +:+ other)).
Proof.
  intros eid s'. split.
  - intros Hg Hb Hex. subst s'.
    rewrite (ingest_unmarked_store now uuid req s (marker eid) Hg Hb Hex);
      try (unfold marker; discriminate).
    unfold Redis.setex. apply lookup_insert_eq.
  - intros other Hother. subst s'.
    destruct (passes_gates now req) eqn:Hg;
      [|now rewrite ingest_not_marking by auto].
    assert (Hnull : body req = JS.JNull \/ body req <> JS.JNull)
      by (destruct (body req); (now left) || (right; discriminate)).
    destruct Hnull as [Hb|Hb]; [now rewrite ingest_not_marking by auto|].
    destruct (exists_0_or_1 now (redis s) (marker eid)) as [Hex|Hex];
      [|now rewrite ingest_not_marking by auto].
    rewrite (ingest_unmarked_store now uuid req s _ Hg Hb Hex);
      try discriminate.
    apply RedisFacts.setex_other. unfold marker. intros E.
    apply append_inj in E. apply Hother. now rewrite <- E.
Qed.

(** C10. A request whose body has no [event_id] field is marked under
    the UUID drawn for it: when it gets past the gates with a body that
    is not [null], the store then holds the marker
    [event:processed:<uuid>], to expire ten minutes later, and the marker
    of no other id is written or removed.  When each drawn UUID is
    unmarked at the time it is drawn, neither the request nor its
    resubmission with the identical body is answered 409
    [duplicate_event]; a resubmission that passes the gates within the
    rate limit is answered [delivered] or [queued] again and is marked
    under its own UUID. *)
Theorem missing_event_id_not_deduplicated :
  forall s now1 now2 uuid1 uuid2 req,
    JS.get_field "event_id" (body req) = None ->
    Redis.exists_ now1 (redis s) ("event:processed:" +:+ uuid1) = 0 ->
    let r1 := ingest now1 uuid1 req s in
    Redis.exists_ now2 (redis (fst r1)) ("event:processed:" +:+ uuid2) = 0 ->
    let r2 := ingest now2 uuid2 req (fst r1) in
    event_id_or (body req) uuid1 = JS.JStr uuid1
    /\ event_id_or (body req) uuid2 = JS.JStr uuid2
    /\ code (snd r1) <> 409
    /\ code (snd r2) <> 409
    /\ (passes_gates now2 req = true ->
        body req <> JS.JNull ->
        below_rate_limit now2 (redis (fst r1)) (relay_id req) ->
        (connections (fst r1) !! relay_id req = None ->
         queue_is_list now2 (redis (fst r1)) (relay_id req)) ->
        accepted (relay_id req) now2 (snd r2))
    /\ (passes_gates now1 req = true ->
        body req <> JS.JNull ->
        redis (fst r1) !! ("event:processed:" +:+ uuid1)
        = Some (Redis.mkEntry (Redis.RString "1") (Some (now1 + 600000))))
    /\ (passes_gates now2 req = true ->
        body req <> JS.JNull ->
        redis (fst r2) !! ("event:processed:" +:+ uuid2)
        = Some (Redis.mkEntry (Redis.RString "1") (Some (now2 + 600000))))
    /\ (forall other,
          other <> uuid1 ->
          redis (fst r1) !! ("event:processed:" +:+ other)
          = redis s !! ("event:processed:" +:+ other))
    /\ (forall other,
          other <> uuid2 ->
          redis (fst r2) !! ("event:processed:" +:+ other)
          = redis (fst r1) !! ("event:processed:" +:+ other)).
Proof.
  intros s now1 now2 uuid1 uuid2 req Hnone Hf1 r1 Hf2 r2.
  assert (Hid : forall uuid, event_id_or (body req) uuid = JS.JStr uuid).
  { intros uuid. unfold event_id_or. now rewrite Hnone. }
  destruct (ingest_markers now1 uuid1 req s) as [Hm1 Ho1].
  destruct (ingest_markers now2 uuid2 req (fst r1)) as [Hm2 Ho2].
  rewrite Hid in Hm1, Ho1, Hm2, Ho2. unfold marker in Hm1, Hm2.
  cbn [JS.to_string] in Hm1, Ho1, Hm2, Ho2.
  change (DEDUP_TTL * 1000) with 600000 in Hm1, Hm2.
  split; [apply Hid|]. split; [apply Hid|].
  split. { intros H. apply ingest_409 in H. rewrite Hid in H. now apply H. }
  split. { intros H. apply ingest_409 in H. rewrite Hid in H. now apply H. }
  split.
  { intros Hg Hb Hrl Hq.
    destruct (ingest_accepted now2 uuid2 req (fst r1) Hg Hb)
      as (s2 & rep & Hi & Ha & _); rewrite ?Hid; auto.
    subst r2. now rewrite Hi. }
  split; [intros Hg Hb; now apply Hm1|].
  split; [intros Hg Hb; now apply Hm2|].
  split; [exact Ho1 | exact Ho2].
Qed.

End Facts.

End WebhookFacts.

(** ** The WebSocket manager *)

Module ManagerFacts.
Import Async AsyncFacts Server.

(** *** A second authentication for the same relayId *)

Section Supersede.

Variable hmac_sha256_hex : string -> string -> string.
Variable JSON_stringify : JS.json -> string.
Variable bcrypt_compare : string -> string -> bool.
Variable WEBHOOK_SECRET : string.
Variable PUBLIC_URL : string.

Local Abbreviation onMessage :=
  (Server.onMessage JSON_stringify bcrypt_compare PUBLIC_URL).
Local Abbreviation sendWebhook := (Server.sendWebhook JSON_stringify).
Local Abbreviation ingest :=
  (Server.ingest hmac_sha256_hex JSON_stringify WEBHOOK_SECRET).
Local Abbreviation webhook_handler :=
  (Server.webhook_handler hmac_sha256_hex JSON_stringify WEBHOOK_SECRET).
Local Abbreviation apply :=
  (Server.apply hmac_sha256_hex JSON_stringify bcrypt_compare WEBHOOK_SECRET
     PUBLIC_URL).
Local Abbreviation run :=
  (Server.run hmac_sha256_hex JSON_stringify bcrypt_compare WEBHOOK_SECRET
     PUBLIC_URL).

Lemma onMessage_auth_success s B cB m r k a out now uuid :
  r <> EmptyString ->
  sockets s !! B = Some (mkSocket OPEN out) ->
  closures s !! B = Some cB -> authenticated cB = false ->
  m <> JS.JNull ->
  JS.get_field "type" m = Some (JS.JStr "auth") ->
  JS.get_field "relay_id" m = Some (JS.JStr r) ->
  JS.get_field "api_key" m = Some (JS.JStr k) ->
  agents s !! r = Some a ->
  bcrypt_compare k (api_key_hash a) = true ->
  fst (onMessage B (Some m) now uuid s)
  = mkState
      (Redis.setex now (redis s) ("session:" +:+ r) 86400
         (JSON_stringify (JS.JObj [("sessionId", JS.JStr uuid);
                                   ("connectedAt", JS.JNum now)])))
      (agents s)
      (<[r := mkConnection r B uuid now now]> (connections s))
      (<[B := mkSocket OPEN
                (auth_success r (PUBLIC_URL +:+ "/api/v1/webhook/" +:+ r)
                   uuid now :: out)]> (sockets s))
      (<[B := mkClosure true (Some r)]> (closures s)).
Proof.
  intros Hr Hsock Hcl Hunauth Hm Htype Hrelay Hkey Hagent Hok.
  unfold Server.onMessage, try_catch, bind, get_closure.
  rewrite Hcl, Hunauth.
  rewrite !(WebhookFacts.prop_not_null _ _ Hm). unfold ret.
  rewrite Htype, Hrelay, Hkey. cbn [is_string negb].
  change (String.eqb "auth" "auth") with true. cbn [negb].
  cbn [getAgentByRelayId verifyApiKey ret]. rewrite Hagent.
  unfold ret. rewrite Hok.
  cbn [negb template JS.to_string set_closure JS.truthy_string].
  destruct (String.eqb_spec r EmptyString) as [E|_]; [contradiction|].
  cbn [negb with_redis zoom redis_setex redis set_redis connections
         set_connections agents sockets closures set_closures fst].
  unfold socket_send, set_redis, set_connections, set_closures.
  cbn [sockets]. rewrite Hsock. reflexivity.
Qed.

(** C1 at the failing input. Channel [A] is registered for [r] and open;
    an [auth] frame for [r] with a valid key arrives on another open
    channel [B] that has not authenticated, and its handler runs with
    nothing in between.  Then the registry holds [B]'s connection for
    [r], and channel [A] is exactly as it was: still open, with no frame
    added (the server neither closes it nor tells it), and still bound to
    [r], so that it goes on acting for [r]. *)
Theorem second_authentication_leaves_first_open :
  forall s A B cA cB r k a m outA outB now uuid,
    connections s !! r = Some cA -> socket cA = A ->
    sockets s !! A = Some (mkSocket OPEN outA) ->
    closures s !! A = Some (mkClosure true (Some r)) ->
    r <> EmptyString ->
    A <> B ->
    sockets s !! B = Some (mkSocket OPEN outB) ->
    closures s !! B = Some cB -> authenticated cB = false ->
    m <> JS.JNull ->
    JS.get_field "type" m = Some (JS.JStr "auth") ->
    JS.get_field "relay_id" m = Some (JS.JStr r) ->
    JS.get_field "api_key" m = Some (JS.JStr k) ->
    agents s !! r = Some a ->
    bcrypt_compare k (api_key_hash a) = true ->
    let s' := apply (Message B (Some m) now uuid) s in
    connections s' !! r = Some (mkConnection r B uuid now now)
    /\ sockets s' !! A = Some (mkSocket OPEN outA)
    /\ closures s' !! A = Some (mkClosure true (Some r)).
Proof.
  intros s A B cA cB r k a m outA outB now uuid HcA HA HsoA HclA Hr Hne Hsock
    Hcl Hun Hm Htype Hrelay Hkey Hagent Hpw s'.
  pose proof (onMessage_auth_success s B cB m r k a outB now uuid Hr Hsock
                Hcl Hun Hm Htype Hrelay Hkey Hagent Hpw) as Hs'.
  assert (Happ : s' = fst (onMessage B (Some m) now uuid s)).
  { subst s'. cbn [Server.apply]. rewrite Hsock. reflexivity. }
  rewrite <- Happ in Hs'. clearbody s'. clear Happ.
  rewrite Hs'. cbn [connections sockets closures].
  split; [apply lookup_insert_eq|].
  split; now rewrite lookup_insert_ne by congruence.
Qed.


End Supersede.

End ManagerFacts.

(** ** The [message] handler, await by await *)

Module HandshakeFacts.
Import Async AsyncFacts Server Handshake.

Section Facts.

Variable hmac_sha256_hex : string -> string -> string.
Variable JSON_stringify : JS.json -> string.
Variable bcrypt_compare : string -> string -> bool.
Variable WEBHOOK_SECRET : string.
Variable PUBLIC_URL : string.

Local Abbreviation onMessage :=
  (Server.onMessage JSON_stringify bcrypt_compare PUBLIC_URL).
Local Abbreviation resume :=
  (Handshake.resume JSON_stringify bcrypt_compare PUBLIC_URL).
Local Abbreviation alone :=
  (Handshake.alone JSON_stringify bcrypt_compare PUBLIC_URL).

(** *** The handler that nothing interrupts

    [Server.onMessage] is the run of the handler in which every awaited
    call answers before anything else happens. *)
Lemma alone_is_onMessage h data now uuid s :
  alone h data now uuid s = fst (onMessage h data now uuid s).
Proof.
  unfold Handshake.alone, Handshake.start, Server.onMessage, guarded,
    try_catch.
  destruct data as [message|]; [|reflexivity].
  assert (Hnull : message = JS.JNull \/ message <> JS.JNull)
    by (destruct message; (now left) || (right; discriminate)).
  destruct Hnull as [->|Hm]; [reflexivity|].
  rewrite !(WebhookFacts.prop_not_null _ _ Hm).
  unfold bind, ret, get_closure.
  set (c := match closures s !! h with Some c => c | None => _ end).
  destruct (authenticated c).
  - cbn [negb].
    destruct (is_string (JS.get_field "type" message) "pong").
    { unfold handlePong.
      destruct (closure_relayId c) as [r|]; [|reflexivity].
      destruct (connections s !! r); reflexivity. }
    destruct (is_string (JS.get_field "type" message) "ack").
    { unfold Handshake.resume, guarded, handleAck, bind, ret, with_redis,
        zoom, redis_del. cbn. reflexivity. }
    reflexivity.
  - cbn [negb].
    destruct (is_string (JS.get_field "type" message) "auth"); cbn [negb];
      [|reflexivity].
    unfold Handshake.resume at 1. unfold guarded at 1.
    rewrite !(WebhookFacts.prop_not_null _ _ Hm). unfold bind, ret.
    destruct (JS.get_field "relay_id" message) as [rid|] eqn:Hrid;
      [|reflexivity].
    destruct rid as [| | |r| |]; try reflexivity.
    cbn [getAgentByRelayId].
    destruct (agents s !! r) as [a|]; [|reflexivity].
    unfold Handshake.resume at 1. unfold guarded at 1.
    rewrite !(WebhookFacts.prop_not_null _ _ Hm). unfold bind, ret.
    rewrite Hrid.
    destruct (JS.get_field "api_key" message) as [key|]; [|reflexivity].
    destruct key as [| | |k| |]; try reflexivity.
    cbn [verifyApiKey ret].
    destruct (bcrypt_compare k (api_key_hash a)); cbn [negb]; [|reflexivity].
    cbn [template JS.to_string set_closure].
    destruct (JS.truthy_string (Some r)); reflexivity.
Qed.

End Facts.

(** *** What a computation leaves as it is

    [obs] is something one can read off the state; [c] leaves it as it
    is, whether it returns or throws. *)

Lemma bind_keeps {S O X Y} (obs : S -> O) (c : M S X) (k : X -> M S Y) :
  (forall s, obs (fst (c s)) = obs s) ->
  (forall x s, obs (fst (k x s)) = obs s) ->
  forall s, obs (fst (bind c k s)) = obs s.
Proof.
  intros Hc Hk s. unfold bind. specialize (Hc s).
  destruct (c s) as [s1 [x|e]]; cbn [fst] in *; [|exact Hc].
  now rewrite Hk.
Qed.

Lemma try_catch_keeps {S O X} (obs : S -> O) (c : M S X) handler :
  (forall s, obs (fst (c s)) = obs s) ->
  (forall e s, obs (fst (handler e s)) = obs s) ->
  forall s, obs (fst (try_catch c handler s)) = obs s.
Proof.
  intros Hc Hh s. unfold try_catch. specialize (Hc s).
  destruct (c s) as [s1 [x|e]]; cbn [fst] in *; [exact Hc|].
  now rewrite Hh.
Qed.

Section Keeps.

Variable hmac_sha256_hex : string -> string -> string.
Variable JSON_stringify : JS.json -> string.
Variable bcrypt_compare : string -> string -> bool.
Variable WEBHOOK_SECRET : string.
Variable PUBLIC_URL : string.

Local Abbreviation resume :=
  (Handshake.resume JSON_stringify bcrypt_compare PUBLIC_URL).
Local Abbreviation ingest :=
  (Server.ingest hmac_sha256_hex JSON_stringify WEBHOOK_SECRET).
Local Abbreviation webhook_handler :=
  (Server.webhook_handler hmac_sha256_hex JSON_stringify WEBHOOK_SECRET).
Local Abbreviation sendWebhook := (Server.sendWebhook JSON_stringify).

Context {O : Type}.
Variable obs : ServerState -> O.
Hypothesis obs_redis : forall d s, obs (set_redis d s) = obs s.
Hypothesis obs_connections : forall c s, obs (set_connections c s) = obs s.
Hypothesis obs_closures : forall c s, obs (set_closures c s) = obs s.

Lemma with_redis_keeps {X} (c : M Redis.db X) s :
  obs (fst (with_redis c s)) = obs s.
Proof.
  unfold with_redis, zoom. destruct (c (redis s)) as [d r]. apply obs_redis.
Qed.

Lemma prop_keeps message name s :
  obs (fst (prop message name s)) = obs s.
Proof. destruct message; reflexivity. Qed.

Lemma handlePong_keeps relay now s :
  obs (fst (handlePong relay now s)) = obs s.
Proof.
  unfold handlePong. destruct relay as [r|]; [|reflexivity].
  destruct (connections s !! r); [apply obs_connections | reflexivity].
Qed.

Section Handler.

Variable h : nat.
Hypothesis obs_send : forall f s, obs (socket_send h f s) = obs s.

Lemma sendError_keeps code message now s :
  obs (fst (sendError h code message now s)) = obs s.
Proof. apply obs_send. Qed.

Lemma guarded_keeps now (c : M ServerState pc) :
  (forall s, obs (fst (c s)) = obs s) ->
  forall s, obs (snd (guarded h now c s)) = obs s.
Proof.
  intros Hc s. unfold guarded. specialize (Hc s).
  destruct (c s) as [s1 [p|e]]; cbn [fst snd] in *; [exact Hc|].
  now rewrite sendError_keeps.
Qed.

Ltac keeps :=
  repeat first
    [ reflexivity
    | progress intros
    | apply prop_keeps
    | apply sendError_keeps
    | apply handlePong_keeps
    | apply with_redis_keeps
    | apply obs_send
    | apply obs_connections
    | apply obs_closures
    | apply bind_keeps ].

Lemma start_keeps data now s :
  obs (snd (Handshake.start h data now s)) = obs s.
Proof.
  unfold Handshake.start. apply guarded_keeps. clear s.
  destruct data as [message|]; [|reflexivity].
  apply bind_keeps; [reflexivity|]. intros c.
  apply bind_keeps; [apply prop_keeps|]. intros type.
  destruct (negb (authenticated c)).
  - destruct (negb (is_string type "auth")); keeps.
  - destruct (is_string type "pong"); [keeps|].
    destruct (is_string type "ack"); keeps.
Qed.

Lemma resume_keeps now uuid p s :
  obs (snd (resume h now uuid p s)) = obs s.
Proof.
  destruct p as [message|message a|relay sessionId value|key|];
    cbn [Handshake.resume]; [| | | |reflexivity];
    apply guarded_keeps; clear s.
  - apply bind_keeps; [apply prop_keeps|]. intros relay_id.
    apply bind_keeps.
    { intros s. destruct relay_id as [[]|]; reflexivity. }
    intros [a|]; keeps.
  - apply bind_keeps; [apply prop_keeps|]. intros relay_id.
    apply bind_keeps; [apply prop_keeps|]. intros api_key.
    apply bind_keeps.
    { intros s. destruct api_key as [[]|]; reflexivity. }
    intros ok. destruct (negb ok); [keeps|].
    apply bind_keeps; [intros s; apply obs_closures|]. intros _.
    apply bind_keeps; [|reflexivity].
    destruct (JS.truthy_string _); [intros s; apply obs_connections|reflexivity].
  - keeps.
  - keeps.
Qed.

End Handler.

(** The handler that nothing interrupts. *)
Lemma alone_keeps h data now uuid s :
  (forall f s, obs (socket_send h f s) = obs s) ->
  obs (Handshake.alone JSON_stringify bcrypt_compare PUBLIC_URL h data now
         uuid s) = obs s.
Proof.
  intros Hsend. unfold Handshake.alone.
  pose proof (start_keeps h Hsend data now s) as H0.
  destruct (Handshake.start h data now s) as [p0 s0]. cbn [snd] in H0.
  pose proof (resume_keeps h Hsend now uuid p0 s0) as H1.
  destruct (resume h now uuid p0 s0) as [p1 s1]. cbn [snd] in H1.
  pose proof (resume_keeps h Hsend now uuid p1 s1) as H2.
  destruct (resume h now uuid p1 s1) as [p2 s2]. cbn [snd] in H2.
  rewrite (resume_keeps h Hsend now uuid p2 s2). congruence.
Qed.

(** The ingestion route. *)
Lemma sendWebhook_keeps relay event now s :
  (forall h f s, obs (socket_send h f s) = obs s) ->
  obs (fst (sendWebhook relay event now s)) = obs s.
Proof.
  intros Hsend. unfold Server.sendWebhook.
  destruct (connections s !! relay) as [c|].
  - rewrite bind_keeps; [apply Hsend | intros; apply with_redis_keeps
                        | reflexivity].
  - apply bind_keeps; [intros; apply with_redis_keeps | reflexivity].
Qed.

Lemma on_server_keeps {X} (c : M ServerState X) :
  (forall s, obs (fst (c s)) = obs s) ->
  forall x, obs (server (fst (on_server c x))) = obs (server x).
Proof.
  intros Hc x. unfold on_server, zoom. specialize (Hc (server x)).
  destruct (c (server x)) as [s1 r]. exact Hc.
Qed.

Lemma ingest_keeps now uuid request s :
  (forall h f s, obs (socket_send h f s) = obs s) ->
  obs (fst (ingest now uuid request s)) = obs s.
Proof.
  intros Hsend. unfold Server.ingest.
  assert (H : forall x,
             obs (server (fst (webhook_handler now uuid request x)))
             = obs (server x)).
  { unfold Server.webhook_handler.
    apply (try_catch_keeps (fun x => obs (server x))).
    2:{ intros e x. destruct e; reflexivity. }
    destruct (x_signature request) as [sig|]; [|reflexivity].
    destruct (x_timestamp request) as [ts|]; [|reflexivity].
    destruct (negb _ || negb _); [reflexivity|].
    destruct (negb _); [reflexivity|].
    destruct (too_old_or_in_future _ _); [reflexivity|].
    apply (bind_keeps (fun x => obs (server x)));
      [apply on_server_keeps; intros; apply prop_keeps|]. intros _.
    apply (bind_keeps (fun x => obs (server x)));
      [apply on_server_keeps; intros; apply with_redis_keeps|]. intros _.
    apply (bind_keeps (fun x => obs (server x)));
      [apply on_server_keeps; intros; apply with_redis_keeps|]. intros info.
    apply (bind_keeps (fun x => obs (server x))); [reflexivity|]. intros _.
    apply (bind_keeps (fun x => obs (server x))); [reflexivity|]. intros _.
    apply (bind_keeps (fun x => obs (server x))); [reflexivity|]. intros _.
    apply (bind_keeps (fun x => obs (server x)));
      [apply on_server_keeps; intros; now apply sendWebhook_keeps|].
    intros [] x; reflexivity. }
  specialize (H (mkCtx s [])).
  destruct (webhook_handler now uuid request (mkCtx s [])) as [x [[c b]|e]];
    exact H.
Qed.

End Keeps.

(** *** A handler writes on its own channel only *)

Lemma socket_send_elsewhere h f s A :
  A <> h -> sockets (socket_send h f s) !! A = sockets s !! A.
Proof.
  intros Hne. unfold socket_send.
  destruct (sockets s !! h) as [[[] out]|]; try reflexivity.
  cbn [sockets set_sockets]. now rewrite lookup_insert_ne by congruence.
Qed.

Section Elsewhere.

Variable JSON_stringify : JS.json -> string.
Variable bcrypt_compare : string -> string -> bool.
Variable PUBLIC_URL : string.

(** No segment of a ['message'] handler touches a channel other than
    its own: it writes nothing on it and does not close it. *)
Lemma start_elsewhere h data now s A :
  A <> h ->
  sockets (snd (Handshake.start h data now s)) !! A = sockets s !! A.
Proof.
  intros Hne.
  apply (start_keeps (fun s => sockets s !! A)); intros;
    (reflexivity || now apply socket_send_elsewhere).
Qed.

Lemma resume_elsewhere h now uuid p s A :
  A <> h ->
  sockets (snd (Handshake.resume JSON_stringify bcrypt_compare PUBLIC_URL
                  h now uuid p s)) !! A
  = sockets s !! A.
Proof.
  intros Hne.
  apply (resume_keeps JSON_stringify bcrypt_compare PUBLIC_URL
           (fun s => sockets s !! A)); intros;
    (reflexivity || now apply socket_send_elsewhere).
Qed.

End Elsewhere.

(** *** An open channel stays open *)

Lemma socket_send_state h f s A :
  state <$> sockets (socket_send h f s) !! A = state <$> sockets s !! A.
Proof.
  unfold socket_send.
  destruct (sockets s !! h) as [[[] out]|] eqn:Hh; try reflexivity.
  cbn [sockets set_sockets].
  destruct (decide (A = h)) as [->|Hne].
  - now rewrite lookup_insert_eq, Hh.
  - now rewrite lookup_insert_ne by congruence.
Qed.

Section Open.

Variable hmac_sha256_hex : string -> string -> string.
Variable JSON_stringify : JS.json -> string.
Variable bcrypt_compare : string -> string -> bool.
Variable WEBHOOK_SECRET : string.
Variable PUBLIC_URL : string.

Local Abbreviation act :=
  (Handshake.act hmac_sha256_hex JSON_stringify bcrypt_compare
     WEBHOOK_SECRET PUBLIC_URL).
Local Abbreviation play :=
  (Handshake.play hmac_sha256_hex JSON_stringify bcrypt_compare
     WEBHOOK_SECRET PUBLIC_URL).

Lemma act_keeps_state a c A :
  steady a = true ->
  is_Some (sockets (world c) !! A) ->
  state <$> sockets (world (act a c)) !! A
  = state <$> sockets (world c) !! A.
Proof.
  intros Hsteady HA.
  set (obs := fun s : ServerState => state <$> sockets s !! A).
  assert (Hsend : forall h f s, obs (socket_send h f s) = obs s)
    by (intros; apply socket_send_state).
  destruct a as [h data now uuid|who now|e]; cbn [Handshake.act].
  - destruct (sockets (world c) !! h) as [k|]; [|reflexivity].
    destruct (is_closed k); [reflexivity|].
    assert (H : obs (snd (Handshake.start h data now (world c)))
                = obs (world c))
      by (apply start_keeps; intros; (reflexivity || apply Hsend)).
    destruct (Handshake.start h data now (world c)) as [p s1]. exact H.
  - destruct (runs c !! who) as [r|]; [|reflexivity].
    assert (H : obs (snd (Handshake.resume JSON_stringify bcrypt_compare
                            PUBLIC_URL (channel r) now (uuid r) (waits r)
                            (world c)))
                = obs (world c))
      by (apply resume_keeps; intros; (reflexivity || apply Hsend)).
    destruct (Handshake.resume _ _ _ (channel r) now (uuid r) (waits r)
                (world c)) as [p s1]. exact H.
  - cbn [world]. destruct e as [h|h data now uuid|h now|now uuid request|now];
      try discriminate; cbn [Server.apply].
    + destruct (sockets (world c) !! h) as [k|] eqn:Hh; [reflexivity|].
      unfold handleConnection. cbn [sockets set_sockets set_closures].
      rewrite lookup_insert_ne; [reflexivity|].
      intros ->. rewrite Hh in HA. now destruct HA.
    + destruct (sockets (world c) !! h) as [k|]; [|reflexivity].
      destruct (is_closed k); [reflexivity|].
      rewrite <- alone_is_onMessage.
      change (obs (Handshake.alone JSON_stringify bcrypt_compare PUBLIC_URL
                     h data now uuid (world c)) = obs (world c)).
      apply alone_keeps; intros; (reflexivity || apply Hsend).
    + change (obs (fst (Server.ingest hmac_sha256_hex JSON_stringify
                          WEBHOOK_SECRET now uuid request (world c)))
              = obs (world c)).
      apply ingest_keeps; intros; (reflexivity || apply Hsend).
Qed.

(** Whatever frames arrive, in whatever order their handlers are
    resumed, and whatever events are ingested in between: as long as the
    channel does not close by itself and no heartbeat sweep runs, a
    channel of the server is in the state it was in.  No authentication
    closes a channel. *)
Lemma open_channel_stays_open schedule : forall c A,
  forallb steady schedule = true ->
  is_Some (sockets (world c) !! A) ->
  state <$> sockets (world (play schedule c)) !! A
  = state <$> sockets (world c) !! A.
Proof.
  induction schedule as [|a rest IH]; intros c A Hsteady HA; [reflexivity|].
  cbn [forallb] in Hsteady. apply andb_prop in Hsteady as [Ha Hrest].
  cbn [Handshake.play fold_left].
  pose proof (act_keeps_state a c A Ha HA) as Hact.
  change (fold_left _ rest (act a c)) with (play rest (act a c)).
  rewrite IH; [exact Hact | exact Hrest |].
  destruct HA as [k Hk]. rewrite Hk in Hact. cbn in Hact.
  destruct (sockets (world (act a c)) !! A); [eauto | discriminate].
Qed.

End Open.

(** *** Runs in which handlers overlap *)

(** What the open first channel makes possible.  Channel 1 sends its
    [auth] frame twice; the second run passes the test of
    [authenticated] before the first has set it.  Channel 1 is
    registered, channel 2 authenticates for the same relay and takes the
    registry entry, and then the second run of channel 1 is answered: it
    registers channel 1 again, and the next event for the relay is
    written on channel 1, the superseded one, and not on channel 2. *)
Lemma superseded_channel_gets_the_delivery :
  let c1 := Fixture.play Fixture.both_authenticate
              (mkConfig [] Fixture.fresh_server) in
  let c2 := Fixture.play Fixture.frame_in_flight c1 in
  let s3 := fst (Fixture.ingest (Fixture.now + 12) "u-1"
                   (Fixture.post "agt_1" Fixture.timestamp
                      (Fixture.event "evt_1")) (world c2)) in
  connections (world c1) !! "agt_1"
  = Some (mkConnection "agt_1" 2%nat "s-2" (Fixture.now + 7)
            (Fixture.now + 7))
  /\ connections (world c2) !! "agt_1"
     = Some (mkConnection "agt_1" 1%nat "s-3" (Fixture.now + 10)
               (Fixture.now + 10))
  /\ deliveries 1 s3
     = [webhook (JS.JStr "evt_1") (Fixture.now + 12)
          (Fixture.sign Fixture.timestamp (Fixture.event "evt_1"))
          (Fixture.event "evt_1")]
  /\ deliveries 2 s3 = [].
Proof.
  repeat split; vm_compute; reflexivity.
Qed.

(** A channel that closes while its [auth] frame waits for an answer is
    registered all the same when the answer comes: its [close] handler
    has run with [relayId] still [null] and will not run again, so the
    registry keeps an entry for a closed channel. *)
Lemma authentication_after_close_registers_closed_channel :
  let c := Fixture.play Fixture.closes_before_answer
             (mkConfig [] Fixture.fresh_server) in
  connections (world c) !! "agt_1"
  = Some (mkConnection "agt_1" 1%nat "s-1" (Fixture.now + 3)
            (Fixture.now + 3))
  /\ sockets (world c) !! 1%nat = Some (mkSocket CLOSED []).
Proof.
  split; vm_compute; reflexivity.
Qed.

End HandshakeFacts.

(** ** Two requests inside the replay guard at once *)

Module InterleavingFacts.
Import Async Interleaving.

(** Two steps of one run, with nothing in between, are [preventReplay]. *)
Lemma two_steps_are_preventReplay now eventId d :
  let '(p1, d1) := step now eventId AtExists d in
  let '(p2, d2) := step now eventId p1 d1 in
  Server.preventReplay now eventId d
  = (d2, if passed p2 then Returns tt
         else Throws (ReplayError "Event already processed")).
Proof.
  unfold step, Server.preventReplay, bind, redis_exists, redis_setex, throw.
  destruct (negb (Redis.exists_ now d _ =? 0)); reflexivity.
Qed.

Lemma step_check_fresh now eventId d :
  Redis.exists_ now d ("event:processed:" +:+ eventId) = 0 ->
  step now eventId AtExists d = (AtSetex, d).
Proof. intros H. unfold step. now rewrite H. Qed.

(** One request after the other: the second is rejected. *)
Lemma sequential_runs_reject_second now eventId d :
  Redis.exists_ now d ("event:processed:" +:+ eventId) = 0 ->
  let c := run now eventId eventId [First; First; Second; Second]
             (mkConfig AtExists AtExists d) in
  first c = Resolved /\ second c = Rejected.
Proof.
  intros H. unfold run, move. cbn [fold_left first second store].
  rewrite (step_check_fresh _ _ _ H). cbn [first second store step].
  rewrite RedisFacts.exists_setex_eq by (unfold Server.DEDUP_TTL; lia).
  split; reflexivity.
Qed.

(** C2 on the code: when both requests run their existence check before
    either has marked the id, both pass the replay gate. *)
Theorem both_pass_when_checks_come_first :
  forall now eventId d,
    Redis.exists_ now d ("event:processed:" +:+ eventId) = 0 ->
    let c := run now eventId eventId [First; Second; First; Second]
               (mkConfig AtExists AtExists d) in
    passed (first c) = true /\ passed (second c) = true.
Proof.
  intros now eventId d H. unfold run, move.
  cbn [fold_left first second store].
  rewrite (step_check_fresh _ _ _ H). cbn [first second store].
  rewrite (step_check_fresh _ _ _ H). cbn [first second store step passed].
  split; reflexivity.
Qed.

(** The same for the three other schedules in which both checks come
    before both marks. *)
Lemma both_pass_in_every_order_of_marks now eventId d schedule :
  Redis.exists_ now d ("event:processed:" +:+ eventId) = 0 ->
  In schedule [[First; Second; Second; First]; [Second; First; First; Second];
               [Second; First; Second; First]] ->
  let c := run now eventId eventId schedule (mkConfig AtExists AtExists d) in
  passed (first c) = true /\ passed (second c) = true.
Proof.
  intros H Hin. cbn [In] in Hin.
  destruct Hin as [<- | [<- | [<- | []]]]; unfold run, move;
    cbn [fold_left first second store];
    rewrite (step_check_fresh _ _ _ H); cbn [first second store];
    rewrite (step_check_fresh _ _ _ H); cbn [first second store step passed];
    split; reflexivity.
Qed.

Lemma both_pass_witness :
  let c := run Fixture.now "evt_1" "evt_1" [First; Second; First; Second]
             (mkConfig AtExists AtExists ∅) in
  passed (first c) = true /\ passed (second c) = true.
Proof.
  apply (both_pass_when_checks_come_first Fixture.now "evt_1" ∅).
  vm_compute; reflexivity.
Defined.

End InterleavingFacts.

(** ** The client *)

Module ClientFacts.
Import Client.

Lemma reconnect_initiates random c :
  attempts_left c ->
  initiates_reconnect (snd (reconnect random c)) = true
  /\ reconnectAttempt (fst (reconnect random c)) = reconnectAttempt c + 1.
Proof.
  unfold attempts_left, reconnect.
  destruct (maxReconnectAttempts (options c)) as [m|]; intros H.
  - destruct (Z.geb_spec (reconnectAttempt c) m); [lia|]. split; reflexivity.
  - split; reflexivity.
Qed.

(** C4, amended. On [auth_error] the client emits an [error] event and
    rejects the pending [connect]; it changes none of its fields and starts
    no reconnection itself.  The flag [shouldReconnect] is therefore as it
    was, and a later close of the channel starts a reconnection attempt
    whenever [shouldReconnect] and [autoReconnect] are set and attempts are
    left.  Only [disconnect()] stops that. *)
Theorem auth_error_leaves_reconnection_on :
  forall c message listeners now code reason random,
    let r := handleMessage (auth_error message) listeners now c in
    let e := or_default message "Authentication failed" in
    fst r = c
    /\ snd r = [Emit_error e; Reject e]
    /\ initiates_reconnect (snd r) = false
    /\ (shouldReconnect c = true ->
        autoReconnect (options c) = true ->
        attempts_left c ->
        initiates_reconnect (snd (handleClose code reason random (fst r)))
        = true)
    /\ initiates_reconnect
         (snd (handleClose code reason random (fst (disconnect_ (fst r)))))
       = false.
Proof.
  intros c message listeners now code reason random r e. subst r e.
  cbn [handleMessage handleAuthError fst snd].
  split; [reflexivity|]. split; [reflexivity|]. split; [reflexivity|].
  split.
  - intros Hs Ha Hleft. unfold handleClose.
    cbn [shouldReconnect options]. rewrite Hs, Ha. cbn [andb].
    set (c1 := mkRelay _ _ _ _ _ _ _ _ _).
    destruct (reconnect_initiates random c1 Hleft) as [Hi _].
    destruct (reconnect random c1) as [c2 es]. cbn in *.
    exact Hi.
  - reflexivity.
Qed.

End ClientFacts.

(** ** Back-off *)

Module RetryFacts.
Import Retry.
Local Open Scope Q_scope.

Lemma floor_bounds (x : Q) :
  inject_Z (Qfloor x) <= x /\ x < inject_Z (Qfloor x) + 1.
Proof.
  split; [apply Qfloor_le|].
  pose proof (Qlt_floor x) as H. rewrite inject_Z_plus in H. exact H.
Qed.

(** The result is the floor of a value between 0.9 and 1.1 times the
    capped delay, so it is within 20 per cent once that delay is at least
    10 ms. *)
Lemma backoff_within_bounds_of_delay (n : Z) (base r : Q) :
  0 <= r -> r < 1 -> 10 <= capped n base ->
  within_bounds n base (exponentialBackoff n base r).
Proof.
  intros Hr0 Hr1 Hd.
  unfold within_bounds, exponentialBackoff. fold (capped n base).
  set (d := capped n base) in *. clearbody d.
  destruct (floor_bounds (d + d * (2 # 10) * (r - (1 # 2)))) as [Hle Hlt].
  set (f := inject_Z (Qfloor (d + d * (2 # 10) * (r - (1 # 2))))) in *.
  clearbody f.
  assert (Hd0 : 0 <= d) by lra.
  assert (Hdr0 : 0 <= d * r) by (apply Qmult_le_0_compat; assumption).
  assert (Hdr1 : d * r <= d * 1) by (apply Qmult_le_l; lra).
  split; lra.
Qed.

Lemma capped_at_least_base (n : Z) (base : Q) :
  (1 <= n)%Z -> 10 <= base -> 10 <= capped n base.
Proof.
  intros Hn Hb. unfold capped. apply Q.min_glb; [|discriminate].
  assert (Hp : 1 <= (2 # 1) ^ (n - 1))
    by (apply Qpower_1_le; [discriminate | lia]).
  assert (H : base * 1 <= base * (2 # 1) ^ (n - 1))
    by (apply Qmult_le_l; [lra | exact Hp]).
  lra.
Qed.

(** C5, amended. For every attempt number at least 1, every base delay of
    at least 10 ms and every draw in [0, 1), the delay computed lies in
    the closed interval from 0.8 to 1.2 times the capped delay. *)
Theorem backoff_within_bounds :
  forall (n : Z) (base r : Q),
    (1 <= n)%Z -> 10 <= base -> 0 <= r -> r < 1 ->
    within_bounds n base (exponentialBackoff n base r).
Proof.
  intros n base r Hn Hb Hr0 Hr1.
  apply backoff_within_bounds_of_delay; try assumption.
  now apply capped_at_least_base.
Qed.

Lemma backoff_within_bounds_witness :
  within_bounds 3 (5000 # 1) (exponentialBackoff 3 (5000 # 1) (1 # 4)).
Proof.
  apply (backoff_within_bounds 3 (5000 # 1) (1 # 4)).
  - lia.
  - discriminate.
  - discriminate.
  - reflexivity.
Defined.

(** C5 as stated fails: with a base delay of 1 ms, attempt 1 and the draw
    0, the delay computed is 0 ms, below 0.8 ms. *)
Lemma backoff_of_one_millisecond :
  exponentialBackoff 1 1 0 = 0%Z
  /\ ~ within_bounds 1 1 (exponentialBackoff 1 1 0).
Proof.
  split; [reflexivity|]. intros [H _]. vm_compute in H. apply H. reflexivity.
Qed.

End RetryFacts.

(** ** Endpoint encryption *)

Module EncryptionFacts.
Import Encryption.

Lemma hex_pair b :
  match JS.hex_val (JS.hex_digit (Byte.to_N b / 16)),
        JS.hex_val (JS.hex_digit (Byte.to_N b mod 16)) with
  | Some h, Some l => Byte.of_N (16 * h + l)
  | _, _ => None
  end = Some b.
Proof. destruct b; reflexivity. Qed.

Lemma buffer_from_to_hex bs : JS.buffer_from_hex (JS.buffer_to_hex bs) = bs.
Proof.
  induction bs as [|b bs IH]; [reflexivity|].
  cbn [JS.buffer_to_hex JS.buffer_from_hex].
  pose proof (hex_pair b) as H.
  destruct (JS.hex_val (JS.hex_digit (Byte.to_N b / 16))) as [h|];
    [|discriminate].
  destruct (JS.hex_val (JS.hex_digit (Byte.to_N b mod 16))) as [l|];
    [|discriminate].
  rewrite H. now rewrite IH.
Qed.

Lemma hex_digit_not_colon b :
  JS.hex_digit (Byte.to_N b / 16) <> ":"%char
  /\ JS.hex_digit (Byte.to_N b mod 16) <> ":"%char.
Proof. destruct b; split; discriminate. Qed.

Lemma hex_no_colon bs : no_colon (JS.buffer_to_hex bs).
Proof.
  induction bs as [|b bs IH]; [exact I|].
  destruct (hex_digit_not_colon b). cbn. auto.
Qed.

Lemma split_field a rest :
  no_colon a -> split ":" (a +:+ ":" +:+ rest) = a :: split ":" rest.
Proof.
  induction a as [|c a IH]; intros H.
  - reflexivity.
  - destruct H as [Hc Ha]. change (String c a +:+ ":" +:+ rest)
      with (String c (a +:+ ":" +:+ rest)).
    cbn [split]. destruct (Ascii.eqb_spec c ":"); [contradiction|].
    now rewrite (IH Ha).
Qed.

Lemma split_last a : no_colon a -> split ":" a = [a].
Proof.
  induction a as [|c a IH]; intros H; [reflexivity|].
  destruct H as [Hc Ha]. cbn [split].
  destruct (Ascii.eqb_spec c ":"); [contradiction|]. now rewrite (IH Ha).
Qed.

Section Cipher.

Variable gcm_encrypt : list byte -> list byte -> list byte
                       -> list byte * list byte.
Variable gcm_decrypt : list byte -> list byte -> list byte -> list byte
                       -> option (list byte).

(** What AES-256-GCM guarantees: under the key and the nonce of the
    encryption, the ciphertext with its tag decrypts to the plaintext. *)
Hypothesis gcm_correct :
  forall key iv plaintext,
    length key = 32%nat -> length iv = 12%nat ->
    gcm_decrypt key iv (snd (gcm_encrypt key iv plaintext))
      (fst (gcm_encrypt key iv plaintext)) = Some plaintext.


(** C9. For every endpoint [v], every key whose hex decodes to 32 bytes and
    every 12-byte nonce drawn by [encryptEndpoint], the output is the hex of
    the nonce, of the tag and of the ciphertext joined by colons, splitting
    it at the colons gives back exactly these three fields, and
    [decryptEndpoint] returns [v]. *)
Theorem decrypt_encrypt_endpoint :
  forall (v k : string) (iv : list byte),
    length (JS.buffer_from_hex k) = 32%nat ->
    length iv = 12%nat ->
    exists authTag encrypted,
      gcm_encrypt (JS.buffer_from_hex k) iv (list_byte_of_string v)
      = (encrypted, authTag)
      /\ encryptEndpoint gcm_encrypt v k iv
         = Some (JS.buffer_to_hex iv +:+ ":" +:+ JS.buffer_to_hex authTag
                   +:+ ":" +:+ JS.buffer_to_hex encrypted)
      /\ split ":" (JS.buffer_to_hex iv +:+ ":" +:+ JS.buffer_to_hex authTag
                      +:+ ":" +:+ JS.buffer_to_hex encrypted)
         = [JS.buffer_to_hex iv; JS.buffer_to_hex authTag;
            JS.buffer_to_hex encrypted]
      /\ decryptEndpoint gcm_decrypt
           (JS.buffer_to_hex iv +:+ ":" +:+ JS.buffer_to_hex authTag
              +:+ ":" +:+ JS.buffer_to_hex encrypted) k
         = Some v.
Proof.
  intros v k iv Hk Hiv.
  pose proof (gcm_correct (JS.buffer_from_hex k) iv (list_byte_of_string v)
                Hk Hiv) as Hc.
  destruct (gcm_encrypt (JS.buffer_from_hex k) iv (list_byte_of_string v))
    as [encrypted authTag] eqn:He.
  exists authTag, encrypted. cbn [fst snd] in Hc.
  assert (Hsplit :
            split ":" (JS.buffer_to_hex iv +:+ ":" +:+ JS.buffer_to_hex authTag
                         +:+ ":" +:+ JS.buffer_to_hex encrypted)
            = [JS.buffer_to_hex iv; JS.buffer_to_hex authTag;
               JS.buffer_to_hex encrypted]).
  { rewrite split_field by apply hex_no_colon.
    rewrite split_field by apply hex_no_colon.
    now rewrite split_last by apply hex_no_colon. }
  split; [reflexivity|]. split.
  - unfold encryptEndpoint. rewrite Hk, He. reflexivity.
  - split; [exact Hsplit|].
    unfold decryptEndpoint. rewrite Hsplit, Hk.
    rewrite !buffer_from_to_hex, Hc.
    now rewrite string_of_list_byte_of_string.
Qed.
End Cipher.

Lemma decrypt_encrypt_witness :
  exists authTag encrypted,
    Fixture.seal (JS.buffer_from_hex Fixture.key) Fixture.nonce
      (list_byte_of_string "https://agent.example/hook")
    = (encrypted, authTag)
    /\ encryptEndpoint Fixture.seal "https://agent.example/hook" Fixture.key
         Fixture.nonce
       = Some (JS.buffer_to_hex Fixture.nonce +:+ ":"
                 +:+ JS.buffer_to_hex authTag
                 +:+ ":" +:+ JS.buffer_to_hex encrypted)
    /\ split ":" (JS.buffer_to_hex Fixture.nonce +:+ ":"
                    +:+ JS.buffer_to_hex authTag
                    +:+ ":" +:+ JS.buffer_to_hex encrypted)
       = [JS.buffer_to_hex Fixture.nonce; JS.buffer_to_hex authTag;
          JS.buffer_to_hex encrypted]
    /\ decryptEndpoint Fixture.unseal
         (JS.buffer_to_hex Fixture.nonce +:+ ":" +:+ JS.buffer_to_hex authTag
            +:+ ":" +:+ JS.buffer_to_hex encrypted) Fixture.key
       = Some "https://agent.example/hook".
Proof.
  apply (decrypt_encrypt_endpoint Fixture.seal Fixture.unseal).
  - intros key iv plaintext _ _. reflexivity.
  - reflexivity.
  - reflexivity.
Defined.

End EncryptionFacts.

(** ** Concrete runs of the server and of the client *)

Module Runs.
Import Server.

Lemma ingest_missing_header_witness :
  Fixture.ingest Fixture.now "u-1"
    (mkRequest "agt_1" None (Some Fixture.timestamp) (Fixture.event "evt_1"))
    Fixture.fresh_server
  = (Fixture.fresh_server,
     mkReply 401 [] (unauthorized "Missing signature or timestamp headers")).
Proof.
  apply WebhookFacts.ingest_missing_header_unauthorized.
  left; reflexivity.
Defined.



Lemma missing_event_id_witness :
  let req := Fixture.post "agt_1" Fixture.timestamp Fixture.anonymous_event in
  let r1 := Fixture.ingest Fixture.now "u-1" req Fixture.fresh_server in
  let r2 := Fixture.ingest (Fixture.now + 1000) "u-2" req (fst r1) in
  event_id_or (body req) "u-1" = JS.JStr "u-1"
  /\ event_id_or (body req) "u-2" = JS.JStr "u-2"
  /\ code (snd r1) <> 409
  /\ code (snd r2) <> 409
  /\ (Fixture.passes_gates (Fixture.now + 1000) req = true ->
      body req <> JS.JNull ->
      below_rate_limit (Fixture.now + 1000) (redis (fst r1)) (relay_id req) ->
      (connections (fst r1) !! relay_id req = None ->
       queue_is_list (Fixture.now + 1000) (redis (fst r1)) (relay_id req)) ->
      accepted (relay_id req) (Fixture.now + 1000) (snd r2))
  /\ (Fixture.passes_gates Fixture.now req = true ->
      body req <> JS.JNull ->
      redis (fst r1) !! "event:processed:u-1"
      = Some (Redis.mkEntry (Redis.RString "1")
                (Some (Fixture.now + 600000))))
  /\ (Fixture.passes_gates (Fixture.now + 1000) req = true ->
      body req <> JS.JNull ->
      redis (fst r2) !! "event:processed:u-2"
      = Some (Redis.mkEntry (Redis.RString "1")
                (Some (Fixture.now + 1000 + 600000))))
  /\ (forall other,
        other <> "u-1" ->
        redis (fst r1) !! ("event:processed:" +:+ other)
        = redis Fixture.fresh_server !! ("event:processed:" +:+ other))
  /\ (forall other,
        other <> "u-2" ->
        redis (fst r2) !! ("event:processed:" +:+ other)
        = redis (fst r1) !! ("event:processed:" +:+ other)).
Proof.
  apply (WebhookFacts.missing_event_id_not_deduplicated Fixture.hmac
           Fixture.stringify Fixture.secret Fixture.fresh_server Fixture.now
           (Fixture.now + 1000) "u-1" "u-2"
           (Fixture.post "agt_1" Fixture.timestamp Fixture.anonymous_event)).
  - reflexivity.
  - vm_compute; reflexivity.
  - vm_compute; reflexivity.
Defined.

(** The same two requests, evaluated: both are queued, each under the
    marker of its own UUID, and no marker is written for an absent id. *)
Example missing_event_id_markers :
  let req := Fixture.post "agt_1" Fixture.timestamp Fixture.anonymous_event in
  let r1 := Fixture.ingest Fixture.now "u-1" req Fixture.fresh_server in
  let r2 := Fixture.ingest (Fixture.now + 1000) "u-2" req (fst r1) in
  code (snd r1) = 202
  /\ code (snd r2) = 202
  /\ redis (fst r2) !! "event:processed:u-1"
     = Some (Redis.mkEntry (Redis.RString "1") (Some (Fixture.now + 600000)))
  /\ redis (fst r2) !! "event:processed:u-2"
     = Some (Redis.mkEntry (Redis.RString "1")
               (Some (Fixture.now + 1000 + 600000)))
  /\ redis (fst r2) !! "event:processed:undefined" = None.
Proof.
  repeat split; vm_compute; reflexivity.
Qed.

(** C7 at the failing input: a timestamp header that is not a number.
    [parseInt] gives [NaN], the comparison with [MAX_AGE] is false, and the
    correctly signed request is queued at any time of day. *)
Lemma non_numeric_timestamp_is_let_through :
  JS.parseInt "soon" = None
  /\ (forall now, too_old_or_in_future now (JS.parseInt "soon") = false)
  /\ snd (Fixture.ingest Fixture.now "u-1"
            (Fixture.post "agt_1" "soon" (Fixture.event "evt_1"))
            Fixture.fresh_server)
     = mkReply 202
         [("X-RateLimit-Limit", 100); ("X-RateLimit-Remaining", 99);
          ("X-RateLimit-Reset", Fixture.now + 60000)]
         (status_queued "agt_1" "Agent offline; event queued for delivery"
            Fixture.now).
Proof.
  split; [reflexivity|]. split; [reflexivity|].
  vm_compute. reflexivity.
Qed.


(** Two channels authenticate for [agt_1], one after the other. *)
Lemma second_authentication_witness :
  let s := Fixture.run
             [Connect 1;
              Message 1 (Fixture.auth_message "agt_1" "sk_1") Fixture.now
                "s-1";
              Connect 2] Fixture.fresh_server in
  let s' := Fixture.run [Message 2 (Fixture.auth_message "agt_1" "sk_1")
                           (Fixture.now + 5) "s-2"] s in
  connections s' !! "agt_1"
  = Some (mkConnection "agt_1" 2%nat "s-2" (Fixture.now + 5) (Fixture.now + 5))
  /\ sockets s' !! 1%nat = Some (mkSocket OPEN [Fixture.greeting])
  /\ closures s' !! 1%nat = Some (mkClosure true (Some "agt_1")).
Proof.
  apply (ManagerFacts.second_authentication_leaves_first_open
           Fixture.hmac Fixture.stringify Fixture.bcrypt Fixture.secret
           Fixture.public_url
           (Fixture.run
              [Connect 1;
               Message 1 (Fixture.auth_message "agt_1" "sk_1") Fixture.now
                 "s-1";
               Connect 2] Fixture.fresh_server)
           1%nat 2%nat
           (mkConnection "agt_1" 1%nat "s-1" Fixture.now Fixture.now)
           (mkClosure false None) "agt_1" "sk_1"
           (mkAgent "$2b$12$sk_1")
           (JS.JObj [("type", JS.JStr "auth"); ("relay_id", JS.JStr "agt_1");
                     ("api_key", JS.JStr "sk_1")])
           [Fixture.greeting] []).
  - vm_compute; reflexivity.
  - reflexivity.
  - vm_compute; reflexivity.
  - vm_compute; reflexivity.
  - discriminate.
  - lia.
  - vm_compute; reflexivity.
  - vm_compute; reflexivity.
  - reflexivity.
  - discriminate.
  - reflexivity.
  - reflexivity.
  - reflexivity.
  - vm_compute; reflexivity.
  - vm_compute; reflexivity.
Defined.

(** The same run from the start: after the second authentication the
    first channel is still open; the server has written nothing but its
    [auth_success] on it and has not closed it. *)
Lemma first_channel_left_open :
  let s' := Fixture.run
              [Connect 1;
               Message 1 (Fixture.auth_message "agt_1" "sk_1") Fixture.now
                 "s-1";
               Connect 2;
               Message 2 (Fixture.auth_message "agt_1" "sk_1")
                 (Fixture.now + 5) "s-2"]
              Fixture.fresh_server in
  (exists c, connections s' !! "agt_1" = Some c /\ socket c = 2%nat)
  /\ sockets s' !! 1%nat
     = Some (mkSocket OPEN
               [auth_success "agt_1"
                  "http://localhost:3000/api/v1/webhook/agt_1" "s-1"
                  Fixture.now]).
Proof.
  split; [eexists; split|]; vm_compute; reflexivity.
Qed.

(** What then happens when the first channel does close: its [close]
    handler deletes the entry of its relayId, which by now is the entry of
    the second channel, and the next event for the relay is queued although
    the second channel is open. *)
Lemma stale_close_unregisters_successor :
  let s' := Fixture.run
              [Connect 1;
               Message 1 (Fixture.auth_message "agt_1" "sk_1") Fixture.now
                 "s-1";
               Connect 2;
               Message 2 (Fixture.auth_message "agt_1" "sk_1")
                 (Fixture.now + 5) "s-2";
               Close 1 (Fixture.now + 9)]
              Fixture.fresh_server in
  connections s' !! "agt_1" = None
  /\ (exists out, sockets s' !! 2%nat = Some (mkSocket OPEN out))
  /\ code (snd (Fixture.ingest (Fixture.now + 10) "u-1"
                  (Fixture.post "agt_1" Fixture.timestamp
                     (Fixture.event "evt_1")) s')) = 202.
Proof.
  split; [|split; [eexists|]]; vm_compute; reflexivity.
Qed.




Example constructor_fixture :
  Client.constructor Fixture.options = Some Fixture.client
  /\ Client.ws Fixture.authenticating = Some Client.OPEN
  /\ Client.shouldReconnect Fixture.authenticating = true.
Proof. repeat split. Qed.

(** C4 as stated fails: a client built with the defaults receives
    [auth_error] while authenticating; when the channel then closes it
    starts reconnection attempt 1. *)
Lemma reconnects_after_auth_error :
  let c1 := Fixture.authenticating in
  let r2 := Client.handleMessage (Client.auth_error (Some "Invalid API key"))
              [] Fixture.now c1 in
  let r3 := Client.handleClose 1006 EmptyString (1 # 2)%Q (fst r2) in
  snd r2 = [Client.Emit_error "Invalid API key";
            Client.Reject "Invalid API key"]
  /\ snd r3
     = [Client.Emit_disconnected "connection_closed"
          (Some "WebSocket closed with code 1006") None;
        Client.Emit_reconnecting 1 None 5000;
        Client.Timeout_connect 5000]
  /\ Client.initiates_reconnect (snd r3) = true.
Proof.
  repeat split; vm_compute; reflexivity.
Qed.

Lemma auth_error_witness :
  let c := Fixture.authenticating in
  let r := Client.handleMessage (Client.auth_error None) [] Fixture.now c in
  let e := Client.or_default None "Authentication failed" in
  fst r = c
  /\ snd r = [Client.Emit_error e; Client.Reject e]
  /\ Client.initiates_reconnect (snd r) = false
  /\ (Client.shouldReconnect c = true ->
      Client.autoReconnect (Client.options c) = true ->
      Client.attempts_left c ->
      Client.initiates_reconnect
        (snd (Client.handleClose 1006 EmptyString (1 # 2)%Q (fst r))) = true)
  /\ Client.initiates_reconnect
       (snd (Client.handleClose 1006 EmptyString (1 # 2)%Q
               (fst (Client.disconnect_ (fst r))))) = false.
Proof.
  apply (ClientFacts.auth_error_leaves_reconnection_on Fixture.authenticating
           None [] Fixture.now 1006 EmptyString (1 # 2)%Q).
Defined.

End Runs.

(** * Further properties of the sources *)


(** ** The rate limiter (services/ratelimit.ts) *)

Module RateLimitFacts.
Import Async AsyncFacts Server.

Lemma parse_string_of_Z n :
  - 2 ^ 63 <= n < 2 ^ 63 -> Redis.parse_int64 (JS.string_of_Z n) = Some n.
Proof.
  intros Hn. unfold Redis.parse_int64, JS.string_of_Z.
  rewrite NilZero.isi.
  - rewrite DecimalZ.of_to, String.eqb_refl.
    destruct (Z.leb_spec (- 2 ^ 63) n); [|lia].
    destruct (Z.ltb_spec n (2 ^ 63)); [reflexivity | lia].
  - destruct n; cbn; try discriminate.
    intros [= H]. now apply DecimalPos.Unsigned.to_uint_nonnil in H.
  - destruct n; cbn; try discriminate.
    intros [= H]. now apply DecimalPos.Unsigned.to_uint_nonnil in H.
Qed.

Lemma checkRateLimit_first now relay d :
  Redis.lookup_live now d ("ratelimit:" +:+ relay) = None ->
  checkRateLimit now relay d
  = (<["ratelimit:" +:+ relay :=
         Redis.mkEntry (Redis.RString "1") (Some (now + RATE_LIMIT_WINDOW))]> d,
     Returns (mkRateLimitInfo 100 99 (now + RATE_LIMIT_WINDOW))).
Proof.
  intros H. unfold checkRateLimit.
  set (key := "ratelimit:" +:+ relay) in *.
  unfold bind at 1. unfold redis_incr, Redis.incr. rewrite H.
  cbn [of_reply]. change (1 =? 1) with true. cbv iota.
  unfold bind at 1. unfold redis_pexpire, Redis.pexpire.
  unfold Redis.lookup_live at 1. rewrite lookup_insert_eq.
  cbn [Redis.expired Redis.expireAt Redis.value].
  rewrite insert_insert_eq.
  unfold bind, redis_pttl, Redis.pttl, ret, throw.
  unfold Redis.lookup_live. rewrite lookup_insert_eq.
  unfold Redis.expired. cbn [Redis.expireAt].
  destruct (Z.ltb_spec (now + RATE_LIMIT_WINDOW) now);
    [unfold RATE_LIMIT_WINDOW in *; lia|].
  change (1 >? RATE_LIMIT_MAX) with false. cbv iota.
  cbn [Redis.expireAt]. unfold RATE_LIMIT_MAX.
  replace (now + (now + RATE_LIMIT_WINDOW - now)) with (now + RATE_LIMIT_WINDOW)
    by lia.
  reflexivity.
Qed.

Lemma checkRateLimit_in_window now relay d opened k :
  counter_at d relay opened k ->
  1 <= k < 2 ^ 63 - 1 ->
  now <= opened + RATE_LIMIT_WINDOW ->
  checkRateLimit now relay d
  = (<["ratelimit:" +:+ relay :=
         Redis.mkEntry (Redis.RString (JS.string_of_Z (k + 1)))
           (Some (opened + RATE_LIMIT_WINDOW))]> d,
     window_reply opened now (k + 1)).
Proof.
  unfold counter_at. intros Hc Hk Hnow. unfold checkRateLimit.
  set (key := "ratelimit:" +:+ relay) in *.
  unfold bind at 1. unfold redis_incr, Redis.incr.
  unfold Redis.lookup_live at 1. rewrite Hc.
  unfold Redis.expired at 1. cbn [Redis.expireAt Redis.value].
  destruct (Z.ltb_spec (opened + RATE_LIMIT_WINDOW) now); [lia|].
  cbn [Redis.expireAt Redis.value].
  rewrite parse_string_of_Z by lia.
  destruct (Z.ltb_spec (k + 1) (2 ^ 63)); [|lia].
  cbn [of_reply].
  destruct (Z.eqb_spec (k + 1) 1); [lia|].
  unfold bind, redis_pttl, Redis.pttl, ret, throw.
  unfold Redis.lookup_live. rewrite lookup_insert_eq.
  unfold Redis.expired. cbn [Redis.expireAt].
  destruct (Z.ltb_spec (opened + RATE_LIMIT_WINDOW) now); [lia|].
  unfold window_reply.
  cbn [Redis.expireAt].
  destruct (Z.gtb_spec (k + 1) RATE_LIMIT_MAX); [reflexivity|].
  rewrite Z.max_r by lia.
  replace (now + (opened + RATE_LIMIT_WINDOW - now))
    with (opened + RATE_LIMIT_WINDOW) by lia.
  reflexivity.
Qed.

Lemma checkRateLimit_each_in_window relay opened times : forall d k,
  counter_at d relay opened k ->
  1 <= k ->
  k + Z.of_nat (length times) < 2 ^ 63 ->
  Forall (fun now => now <= opened + RATE_LIMIT_WINDOW) times ->
  snd (checkRateLimit_each relay times d)
  = window_replies opened (k + 1) times
  /\ counter_at (fst (checkRateLimit_each relay times d)) relay opened
       (k + Z.of_nat (length times)).
Proof.
  induction times as [|now rest IH]; intros d k Hc Hk Hlen Hall.
  - cbn. rewrite Z.add_0_r. now split.
  - apply Forall_cons in Hall as [Hnow Hall].
    cbn [length] in Hlen. rewrite Nat2Z.inj_succ in Hlen.
    cbn [checkRateLimit_each window_replies].
    rewrite (checkRateLimit_in_window now relay d opened k Hc) by lia.
    set (d1 := <[_ := _]> d).
    destruct (IH d1 (k + 1)) as [IH1 IH2]; try lia; try assumption.
    { unfold counter_at. subst d1. apply lookup_insert_eq. }
    destruct (checkRateLimit_each relay rest d1) as [d2 rs].
    cbn [fst snd] in *. split; [now rewrite IH1|].
    cbn [length]. rewrite Nat2Z.inj_succ.
    replace (k + Z.succ (Z.of_nat (length rest)))
      with (k + 1 + Z.of_nat (length rest)) by lia.
    exact IH2.
Qed.

Lemma window_replies_nth opened : forall times k i r,
  nth_error (window_replies opened k times) i = Some r ->
  is_rate_limit_error r = (k + Z.of_nat i >? RATE_LIMIT_MAX).
Proof.
  induction times as [|now rest IH]; intros k i r H.
  - destruct i; discriminate.
  - destruct i as [|i]; cbn in H.
    + injection H as <-. unfold window_reply. rewrite Z.add_0_r.
      now destruct (k >? RATE_LIMIT_MAX).
    + rewrite (IH _ _ _ H). f_equal. lia.
Qed.

(** X1. When the counter of a relay is absent or has expired,
    [checkRateLimit] returns limit 100, remaining 99 and a reset time one
    minute ahead; it leaves the counter at 1 with that expiry and touches
    no other key. *)
Theorem first_request_opens_window :
  forall now relay d,
    Redis.lookup_live now d ("ratelimit:" +:+ relay) = None ->
    let r := checkRateLimit now relay d in
    snd r = Returns (mkRateLimitInfo 100 99 (now + 60000))
    /\ counter_at (fst r) relay now 1
    /\ forall key, key <> "ratelimit:" +:+ relay -> fst r !! key = d !! key.
Proof.
  intros now relay d H r. subst r. rewrite (checkRateLimit_first _ _ _ H).
  cbn [fst snd]. split; [reflexivity|]. split.
  - unfold counter_at. apply lookup_insert_eq.
  - intros key Hk. now rewrite lookup_insert_ne by congruence.
Qed.

(** X2. The requests of one relay inside one window, one after the
    other.  The first request finds no live counter and every later one
    arrives at most one minute after it.  Then the replies are those of
    [window_replies]: request number [i] is told that [100 - i] remain
    and that the window resets one minute after the first request, as
    long as [i] is at most 100; every request after the hundredth, and no
    earlier one, is rejected with a [RateLimitError], whose [retryAfter]
    is the time left in the window. *)
Theorem requests_of_one_window :
  forall relay d opened times,
    Redis.lookup_live opened d ("ratelimit:" +:+ relay) = None ->
    Forall (fun now => now <= opened + 60000) times ->
    Z.of_nat (length times) < 2 ^ 62 ->
    let replies := snd (checkRateLimit_each relay (opened :: times) d) in
    replies = window_replies opened 1 (opened :: times)
    /\ forall i r, nth_error replies i = Some r ->
         is_rate_limit_error r = (Z.of_nat i >=? 100).
Proof.
  intros relay d opened times Hfresh Hall Hlen replies.
  assert (E : replies = window_replies opened 1 (opened :: times)).
  { subst replies. cbn [checkRateLimit_each window_replies].
    rewrite (checkRateLimit_first _ _ _ Hfresh).
    set (d1 := <[_ := _]> d).
    assert (Hc : counter_at d1 relay opened 1).
    { unfold counter_at. subst d1. apply lookup_insert_eq. }
    destruct (checkRateLimit_each_in_window relay opened times d1 1 Hc)
      as [E _]; try lia; try assumption.
    destruct (checkRateLimit_each relay times d1) as [d2 rs].
    cbn [snd] in *. rewrite E. reflexivity. }
  split; [exact E|].
  intros i r H. rewrite E in H.
  rewrite (window_replies_nth _ _ _ _ _ H). unfold RATE_LIMIT_MAX.
  destruct (Z.gtb_spec (1 + Z.of_nat i) 100), (Z.geb_spec (Z.of_nat i) 100);
    (reflexivity || lia).
Qed.

Lemma checkRateLimit_no_expiry now relay d k :
  counter_without_expiry d relay k ->
  1 <= k < 2 ^ 63 - 1 ->
  checkRateLimit now relay d
  = (<["ratelimit:" +:+ relay :=
         Redis.mkEntry (Redis.RString (JS.string_of_Z (k + 1))) None]> d,
     if k + 1 >? RATE_LIMIT_MAX
     then Throws (RateLimitError
                    ("Rate limit exceeded. Retry after "
                       +:+ JS.string_of_Z (-1) +:+ "ms") (-1))
     else Returns (mkRateLimitInfo RATE_LIMIT_MAX
                     (Z.max 0 (RATE_LIMIT_MAX - (k + 1))) (now + -1))).
Proof.
  unfold counter_without_expiry. intros Hc Hk. unfold checkRateLimit.
  set (key := "ratelimit:" +:+ relay) in *.
  unfold bind at 1. unfold redis_incr, Redis.incr.
  unfold Redis.lookup_live at 1. rewrite Hc.
  unfold Redis.expired at 1. cbn [Redis.expireAt Redis.value].
  cbn [Redis.expireAt Redis.value].
  rewrite parse_string_of_Z by lia.
  destruct (Z.ltb_spec (k + 1) (2 ^ 63)); [|lia].
  cbn [of_reply].
  destruct (Z.eqb_spec (k + 1) 1); [lia|].
  unfold bind, redis_pttl, Redis.pttl, ret, throw.
  unfold Redis.lookup_live. rewrite lookup_insert_eq.
  unfold Redis.expired. cbn [Redis.expireAt].
  destruct (k + 1 >? RATE_LIMIT_MAX); reflexivity.
Qed.

(** X3. [checkRateLimit] sets the expiry only when the increment
    returns 1, so a counter that is there without an expiry is never
    given one.  Once such a counter has reached 100, every later call, at
    whatever time, throws a [RateLimitError] with [retryAfter = -1], and
    the counter goes on counting without an expiry. *)
Theorem counter_without_expiry_is_never_reset :
  forall relay times d k,
    counter_without_expiry d relay k ->
    100 <= k ->
    k + Z.of_nat (length times) < 2 ^ 63 ->
    let r := checkRateLimit_each relay times d in
    Forall (fun reply =>
              exists message, reply = Throws (RateLimitError message (-1)))
      (snd r)
    /\ counter_without_expiry (fst r) relay (k + Z.of_nat (length times)).
Proof.
  intros relay times. induction times as [|now rest IH]; intros d k Hc Hk Hlen r.
  - subst r. cbn. rewrite Z.add_0_r. now split.
  - subst r. cbn [length] in *. rewrite Nat2Z.inj_succ in *.
    cbn [checkRateLimit_each].
    rewrite (checkRateLimit_no_expiry now relay d k Hc) by lia.
    set (d1 := <[_ := _]> d).
    destruct (IH d1 (k + 1)) as [IH1 IH2]; try lia.
    { unfold counter_without_expiry. subst d1. apply lookup_insert_eq. }
    destruct (checkRateLimit_each relay rest d1) as [d2 rs].
    cbn [fst snd] in *. split.
    + constructor; [|exact IH1].
      unfold RATE_LIMIT_MAX.
      destruct (Z.gtb_spec (k + 1) 100); [|lia]. eexists; reflexivity.
    + replace (k + Z.succ (Z.of_nat (length rest)))
        with (k + 1 + Z.of_nat (length rest)) by lia.
      exact IH2.
Qed.

End RateLimitFacts.

(** ** Requests inside the rate limiter at once *)

Module BurstFacts.
Import Async Server Burst.

(** One run on its own is [checkRateLimit]. *)
Lemma steps_are_checkRateLimit now relay d :
  let '(p1, d1) := step now relay AtIncr d in
  let '(p2, d2) := step now relay p1 d1 in
  let '(p3, d3) := step now relay p2 d2 in
  match result p3 with
  | Some r => checkRateLimit now relay d = (d3, r)
  | None => False
  end.
Proof.
  unfold checkRateLimit, bind, redis_incr, redis_pexpire, redis_pttl, ret,
    throw.
  cbn [step].
  destruct (Redis.incr now d ("ratelimit:" +:+ relay)) as [d1 [n|msg]];
    cbn [of_reply step result]; [|reflexivity].
  destruct (n =? 1); cbn [step result fst].
  - destruct (Redis.pexpire now d1 _ RATE_LIMIT_WINDOW) as [d2 k].
    cbn [fst]. destruct (n >? RATE_LIMIT_MAX); reflexivity.
  - destruct (n >? RATE_LIMIT_MAX); reflexivity.
Qed.

Lemma counts_cons p ps :
  counts (p :: ps)
  = match count_of p with
    | Some x => x :: counts ps
    | None => counts ps
    end.
Proof. reflexivity. Qed.

Lemma counts_insert_same ps : forall i p p',
  ps !! i = Some p -> count_of p' = count_of p ->
  counts (<[i := p']> ps) = counts ps.
Proof.
  induction ps as [|q ps IH]; intros [|i] p p' Hi Hc; try discriminate.
  - cbn in Hi. injection Hi as ->.
    change (<[0%nat := p']> (p :: ps)) with (p' :: ps).
    now rewrite !counts_cons, Hc.
  - cbn in Hi.
    change (<[S i := p']> (q :: ps)) with (q :: <[i := p']> ps).
    now rewrite !counts_cons, (IH i p p').
Qed.

Lemma counts_insert_new ps : forall i p p' x,
  ps !! i = Some p -> count_of p = None -> count_of p' = Some x ->
  counts (<[i := p']> ps) ≡ₚ x :: counts ps.
Proof.
  induction ps as [|q ps IH]; intros [|i] p p' x Hi Hp Hp'; try discriminate.
  - cbn in Hi. injection Hi as ->.
    change (<[0%nat := p']> (p :: ps)) with (p' :: ps).
    now rewrite !counts_cons, Hp, Hp'.
  - cbn in Hi.
    change (<[S i := p']> (q :: ps)) with (q :: <[i := p']> ps).
    rewrite !counts_cons. pose proof (IH i p p' x Hi Hp Hp') as H.
    destruct (count_of q) as [y|]; [|exact H].
    rewrite H. apply Permutation_swap.
Qed.

Lemma counts_length ps : (length (counts ps) <= length ps)%nat.
Proof.
  induction ps as [|q ps IH]; [reflexivity|].
  rewrite counts_cons. destruct (count_of q); cbn; lia.
Qed.

Lemma lookup_live_entry t d key v e :
  d !! key = Some (Redis.mkEntry v e) ->
  match e with Some x => t <= x | None => True end ->
  Redis.lookup_live t d key = Some (Redis.mkEntry v e).
Proof.
  intros H He. unfold Redis.lookup_live, Redis.expired. rewrite H.
  cbn. destruct e as [x|]; [|reflexivity].
  destruct (Z.ltb_spec x t); [lia | reflexivity].
Qed.

Lemma in_step_start t0 relay n d :
  Redis.lookup_live t0 d ("ratelimit:" +:+ relay) = None ->
  in_step t0 relay (mkConfig (repeat AtIncr n) d).
Proof.
  intros Hd. unfold in_step. cbn [runs store].
  assert (E : counts (repeat AtIncr n) = []).
  { induction n as [|n IH]; [reflexivity|]. unfold counts in *. cbn. exact IH. }
  rewrite E. cbn [length]. repeat split.
  - constructor.
  - constructor.
  - induction n; constructor; auto. exact I.
  - intros _ t Ht. revert Hd. unfold Redis.lookup_live, Redis.expired.
    destruct (d !! _) as [[v [x|]]|]; cbn; try discriminate; [|reflexivity].
    destruct (Z.ltb_spec x t0); [|discriminate].
    destruct (Z.ltb_spec x t); [reflexivity | lia].
  - lia.
Qed.

Lemma in_step_intro t0 relay ps d m :
  Z.of_nat (length (counts ps)) = m ->
  NoDup (counts ps) ->
  Forall (fun x => 1 <= x <= m) (counts ps) ->
  Forall consistent ps ->
  (m = 0 ->
   forall t, t0 <= t ->
     Redis.lookup_live t d ("ratelimit:" +:+ relay) = None) ->
  (0 < m ->
   exists e,
     d !! ("ratelimit:" +:+ relay)
     = Some (Redis.mkEntry (Redis.RString (JS.string_of_Z m)) e)
     /\ match e with
        | Some x => t0 + RATE_LIMIT_WINDOW <= x
        | None => True
        end) ->
  in_step t0 relay (mkConfig ps d).
Proof. intros <- H1 H2 H3 H4 H5. repeat split; assumption. Qed.

Lemma in_step_move t0 relay who now c :
  t0 <= now <= t0 + 60000 ->
  Z.of_nat (length (runs c)) < 2 ^ 62 ->
  in_step t0 relay c -> in_step t0 relay (move relay who now c).
Proof.
  intros Hnow Hlen (Hnd & Hrange & Hcons & Hzero & Hpos).
  unfold move. destruct (runs c !! who) as [p|] eqn:Hp;
    [|repeat split; assumption].
  set (m := Z.of_nat (length (counts (runs c)))) in *.
  assert (Hm : 0 <= m < 2 ^ 62).
  { subst m. pose proof (counts_length (runs c)). lia. }
  assert (Hcp : consistent p).
  { eapply Forall_lookup_1; [exact Hcons | exact Hp]. }
  assert (Hnew : forall p' x,
             p = AtIncr -> count_of p' = Some x -> x = m + 1 ->
             consistent p' ->
             Z.of_nat (length (counts (<[who := p']> (runs c)))) = m + 1
             /\ NoDup (counts (<[who := p']> (runs c)))
             /\ Forall (fun x => 1 <= x <= m + 1)
                  (counts (<[who := p']> (runs c)))
             /\ Forall consistent (<[who := p']> (runs c))).
  { intros p' x -> Hx -> Hcons'.
    pose proof (counts_insert_new (runs c) who AtIncr p' (m + 1) Hp
                  eq_refl Hx) as Hperm.
    split; [|split; [|split]].
    - rewrite (Permutation_length Hperm). cbn [length].
      rewrite Nat2Z.inj_succ. fold m. lia.
    - rewrite Hperm. constructor; [|exact Hnd].
      intros Hin. rewrite Forall_forall in Hrange.
      specialize (Hrange (m + 1) Hin). lia.
    - rewrite Hperm. constructor; [lia|].
      eapply Forall_impl; [exact Hrange|]. cbn. intros; lia.
    - apply Forall_insert; assumption. }
  assert (Hsame : forall p',
             count_of p' = count_of p -> consistent p' ->
             Z.of_nat (length (counts (<[who := p']> (runs c)))) = m
             /\ NoDup (counts (<[who := p']> (runs c)))
             /\ Forall (fun x => 1 <= x <= m)
                  (counts (<[who := p']> (runs c)))
             /\ Forall consistent (<[who := p']> (runs c))).
  { intros p' Hc' Hcons'.
    rewrite (counts_insert_same (runs c) who p p' Hp Hc').
    repeat split; try assumption. apply Forall_insert; assumption. }
  destruct p as [|count|count|count r|msg]; cbn [step].
  - (* the increment *)
    unfold Redis.incr.
    destruct (Z.eq_dec m 0) as [Hz|Hnz].
    + rewrite (Hzero Hz now) by lia.
      change (1 =? 1) with true. cbv iota.
      destruct (Hnew (AtPexpire 1) 1 eq_refl eq_refl ltac:(lia) eq_refl)
        as (H1 & H2 & H3 & H4).
      apply (in_step_intro t0 relay _ _ (m + 1)); try assumption.
      * lia.
      * intros _. exists None. split; [|exact I].
        rewrite lookup_insert_eq, Hz. reflexivity.
    + destruct (Hpos ltac:(lia)) as (e & He & Hexp).
      rewrite (lookup_live_entry now _ _ _ e He)
        by (destruct e; [unfold RATE_LIMIT_WINDOW in *; lia | exact I]).
      cbn [Redis.value Redis.expireAt].
      rewrite RateLimitFacts.parse_string_of_Z by lia.
      destruct (Z.ltb_spec (m + 1) (2 ^ 63)); [|lia].
      destruct (Z.eqb_spec (m + 1) 1); [lia|].
      destruct (Hnew (AtPttl (m + 1)) (m + 1) eq_refl eq_refl eq_refl I)
        as (H1 & H2 & H3 & H4).
      apply (in_step_intro t0 relay _ _ (m + 1)); try assumption.
      * lia.
      * intros _. exists e. split; [|exact Hexp]. apply lookup_insert_eq.
  - (* the expiry *)
    assert (Hin : count ∈ counts (runs c)).
    { unfold counts. apply list_elem_of_omap. exists (AtPexpire count).
      split; [|reflexivity]. eapply list_elem_of_lookup_2, Hp. }
    assert (Hmpos : 0 < m).
    { rewrite Forall_forall in Hrange. specialize (Hrange _ Hin). lia. }
    destruct (Hpos Hmpos) as (e & He & Hexp).
    unfold Redis.pexpire.
    rewrite (lookup_live_entry now _ _ _ e He)
      by (destruct e; [unfold RATE_LIMIT_WINDOW in *; lia | exact I]).
    cbn [fst Redis.value].
    destruct (Hsame (AtPttl count) eq_refl I) as (H1 & H2 & H3 & H4).
    apply (in_step_intro t0 relay _ _ m); try assumption.
    + intros Hz. lia.
    + intros _. exists (Some (now + RATE_LIMIT_WINDOW)).
      split; [apply lookup_insert_eq | lia].
  - (* the time to live *)
    match goal with
    | |- in_step _ _ (mkConfig (<[who := ?p']> _) _) =>
        destruct (Hsame p' eq_refl) as (H1 & H2 & H3 & H4)
    end.
    { cbn. destruct (Z.gtb_spec count RATE_LIMIT_MAX),
             (Z.leb_spec count RATE_LIMIT_MAX); (reflexivity || lia). }
    apply (in_step_intro t0 relay _ _ m); assumption.
  - rewrite list_insert_id by exact Hp.
    apply (in_step_intro t0 relay _ _ m); (reflexivity || assumption).
  - destruct Hcp.
Qed.

Lemma move_length relay who now c :
  length (runs (move relay who now c)) = length (runs c).
Proof.
  unfold move. destruct (runs c !! who) as [p|]; [|reflexivity].
  destruct (step now relay p (store c)) as [p' d']. cbn.
  apply length_insert.
Qed.

Lemma in_step_run t0 relay schedule : forall c,
  Forall (fun m => t0 <= snd m <= t0 + 60000) schedule ->
  Z.of_nat (length (runs c)) < 2 ^ 62 ->
  in_step t0 relay c ->
  in_step t0 relay (run relay schedule c)
  /\ length (runs (run relay schedule c)) = length (runs c).
Proof.
  induction schedule as [|[who now] schedule IH]; intros c Hall Hlen Hc.
  - now split.
  - apply Forall_cons in Hall as [Hnow Hall]. cbn [snd] in Hnow.
    cbn [run fold_left fst snd].
    destruct (IH (move relay who now c)) as [H1 H2]; try assumption.
    + now rewrite move_length.
    + now apply in_step_move.
    + split; [exact H1|]. unfold run in H2. rewrite H2. apply move_length.
Qed.

Lemma accepted_sublist ps :
  omap accepted_count ps `sublist_of` counts ps.
Proof.
  induction ps as [|p ps IH]; [constructor|].
  unfold counts in *. cbn. unfold accepted_count at 1.
  destruct (accepted p) eqn:Ha.
  - destruct (count_of p); [now constructor | exact IH].
  - destruct (count_of p); [now constructor | exact IH].
Qed.

Lemma accepted_length ps :
  length (List.filter accepted ps) = length (omap accepted_count ps).
Proof.
  induction ps as [|p ps IH]; [reflexivity|].
  cbn. unfold accepted_count at 1.
  destruct (accepted p) eqn:Ha; [|exact IH].
  destruct p as [| | |count [info|e]|]; try discriminate.
  cbn. now rewrite IH.
Qed.

Lemma accepted_small ps :
  Forall consistent ps ->
  Forall (fun x => x <= RATE_LIMIT_MAX) (omap accepted_count ps).
Proof.
  induction 1 as [|p ps Hp _ IH]; [constructor|].
  cbn. unfold accepted_count at 1.
  destruct (accepted p) eqn:Ha; [|exact IH].
  destruct p as [| | |count [info|e]|]; try discriminate.
  cbn. constructor; [|exact IH].
  cbn in Hp. symmetry in Hp. now apply Z.leb_le in Hp.
Qed.

Lemma at_most (l : list Z) (n : nat) :
  NoDup l -> Forall (fun x => 1 <= x <= Z.of_nat n) l ->
  (length l <= n)%nat.
Proof.
  intros Hnd Hall.
  assert (Hincl : incl (map Z.to_nat l) (seq 1 n)).
  { intros k Hk. apply in_map_iff in Hk as (x & <- & Hx).
    rewrite Forall_forall in Hall.
    apply list_elem_of_In in Hx. specialize (Hall x Hx).
    apply in_seq. lia. }
  assert (Hnd' : List.NoDup (map Z.to_nat l)).
  { apply NoDup_ListNoDup, NoDup_fmap_2_strong; [|exact Hnd].
    intros x y Hx Hy E. rewrite Forall_forall in Hall.
    pose proof (Hall x Hx). pose proof (Hall y Hy). lia. }
  pose proof (NoDup_incl_length Hnd' Hincl) as H.
  rewrite length_map, length_seq in H. exact H.
Qed.

(** X4. Requests that are inside [checkRateLimit] at the same time.
    Any number of runs start without a live counter; their Redis commands
    are executed in any order, all within one minute.  Then at most 100
    of the runs return a [RateLimitInfo], whatever the order; and when at
    most 100 runs take part, every run that finishes returns one.  The
    increment is a single Redis command, so no two runs see the same
    count. *)
Theorem at_most_a_hundred_pass_in_any_interleaving :
  forall relay n schedule d t0,
    Redis.lookup_live t0 d ("ratelimit:" +:+ relay) = None ->
    Forall (fun m => t0 <= snd m <= t0 + 60000) schedule ->
    Z.of_nat n < 2 ^ 62 ->
    let c := run relay schedule (mkConfig (repeat AtIncr n) d) in
    (length (List.filter accepted (runs c)) <= 100)%nat
    /\ ((n <= 100)%nat ->
        forall who count r,
          runs c !! who = Some (Finished count r) ->
          exists info, r = Returns info).
Proof.
  intros relay n schedule d t0 Hd Hall Hn c.
  destruct (in_step_run t0 relay schedule (mkConfig (repeat AtIncr n) d))
    as [(Hnd & Hrange & Hcons & _ & _) Hlen]; try assumption.
  { cbn. now rewrite repeat_length. }
  { now apply in_step_start. }
  fold c in Hnd, Hrange, Hcons, Hlen. cbn [runs] in Hlen.
  rewrite repeat_length in Hlen.
  split.
  - rewrite accepted_length. apply at_most.
    + eapply sublist_NoDup; [exact Hnd | apply accepted_sublist].
    + pose proof (accepted_small _ Hcons) as Hsmall.
      rewrite Forall_forall in *. intros x Hx.
      specialize (Hsmall x Hx).
      pose proof (Hrange x (elem_of_sublist _ _ _ Hx
                              (accepted_sublist (runs c)))) as Hone.
      unfold RATE_LIMIT_MAX in Hsmall. cbn in Hone. lia.
  - intros Hsmall who count r Hwho.
    assert (Hc : consistent (Finished count r)).
    { eapply Forall_lookup_1; [exact Hcons | exact Hwho]. }
    assert (Hin : count ∈ counts (runs c)).
    { unfold counts. apply list_elem_of_omap. exists (Finished count r).
      split; [|reflexivity]. eapply list_elem_of_lookup_2, Hwho. }
    rewrite Forall_forall in Hrange. specialize (Hrange _ Hin).
    pose proof (counts_length (runs c)) as Hcl.
    cbn in Hc. unfold RATE_LIMIT_MAX in Hc.
    destruct (Z.leb_spec count 100); [|lia].
    destruct r as [info|e]; [eauto | discriminate].
Qed.

End BurstFacts.

(** ** The replay guard, one request after the other
    (services/replay.ts) *)

Module ReplayFacts.
Import Async AsyncFacts Server.

(** X5. The replay marker lasts ten minutes and is not refreshed.
    After [preventReplay] has accepted an event id at [now1], a call for
    the same id up to and including [now1 + 600000] throws [ReplayError]
    and leaves the store as it is; a call later than that is accepted
    again and marks the id for ten minutes from then. *)
Theorem replay_marker_lasts_ten_minutes :
  forall now1 now2 eventId d,
    Redis.exists_ now1 d ("event:processed:" +:+ eventId) = 0 ->
    let r1 := preventReplay now1 eventId d in
    let r2 := preventReplay now2 eventId (fst r1) in
    snd r1 = Returns tt
    /\ (now2 <= now1 + 600000 ->
        r2 = (fst r1, Throws (ReplayError "Event already processed")))
    /\ (now1 + 600000 < now2 ->
        snd r2 = Returns tt
        /\ fst r2 !! ("event:processed:" +:+ eventId)
           = Some (Redis.mkEntry (Redis.RString "1") (Some (now2 + 600000)))).
Proof.
  intros now1 now2 eventId d Hfresh r1 r2. subst r2 r1.
  rewrite (WebhookFacts.preventReplay_fresh _ _ _ Hfresh). cbn [fst snd].
  split; [reflexivity|]. split.
  - intros Hin. apply WebhookFacts.preventReplay_marked.
    apply RedisFacts.exists_setex_eq. unfold DEDUP_TTL. lia.
  - intros Hout.
    rewrite WebhookFacts.preventReplay_fresh.
    + split; [reflexivity|]. cbn [fst]. unfold Redis.setex.
      rewrite lookup_insert_eq. unfold DEDUP_TTL. repeat f_equal; lia.
    + unfold Redis.exists_, Redis.lookup_live, Redis.setex.
      rewrite lookup_insert_eq. unfold Redis.expired. cbn [Redis.expireAt].
      unfold DEDUP_TTL.
      destruct (Z.ltb_spec (now1 + 10 * 60 * 1000) now2); [reflexivity | lia].
Qed.

Lemma replay_marker_witness :
  let r1 := preventReplay Fixture.now "evt_1" ∅ in
  let r2 := preventReplay (Fixture.now + 600000) "evt_1" (fst r1) in
  snd r1 = Returns tt
  /\ (Fixture.now + 600000 <= Fixture.now + 600000 ->
      r2 = (fst r1, Throws (ReplayError "Event already processed")))
  /\ (Fixture.now + 600000 < Fixture.now + 600000 ->
      snd r2 = Returns tt
      /\ fst r2 !! ("event:processed:" +:+ "evt_1")
         = Some (Redis.mkEntry (Redis.RString "1")
                   (Some (Fixture.now + 600000 + 600000)))).
Proof.
  apply (replay_marker_lasts_ten_minutes Fixture.now (Fixture.now + 600000)
           "evt_1" ∅).
  reflexivity.
Defined.

End ReplayFacts.

(** ** Signature verification (services/signature.ts and the copy in
    the Node SDK) *)

Module SignatureFacts.
Import Async AsyncFacts Server.

Lemma substring_all s : String.substring 0 (String.length s) s = s.
Proof. induction s as [|c s IH]; cbn; [reflexivity | now rewrite IH]. Qed.

Lemma remove_first_sha256 x : JS.remove_first "sha256=" ("sha256=" +:+ x) = x.
Proof.
  change ("sha256=" +:+ x)
    with (String "s" (String "h" (String "a" (String "2" (String "5"
            (String "6" (String "=" x))))))).
  cbn. replace (String.prefix EmptyString x) with true by now destruct x.
  rewrite Nat.sub_0_r. apply substring_all.
Qed.

Lemma bytes_eqb_iff (a : list byte) : forall b,
  length a = length b ->
  forallb (fun p => Byte.eqb (fst p) (snd p)) (combine a b) = true <-> a = b.
Proof.
  induction a as [|x a IH]; intros [|y b] Hlen; try discriminate.
  - now split.
  - cbn in *. rewrite andb_true_iff, (IH b) by congruence.
    split.
    + intros [Hxy ->]. f_equal. now apply Byte.byte_dec_bl.
    + intros [= -> ->]. split; [apply Byte.byte_dec_lb|]; reflexivity.
Qed.

Section Verify.

Variable hmac_sha256_hex : string -> string -> string.
Variable JSON_stringify : JS.json -> string.

Local Abbreviation verifySignature :=
  (Server.verifySignature hmac_sha256_hex JSON_stringify).

Lemma timingSafeEqual_true_iff a b : timingSafeEqual a b = Some true <-> a = b.
Proof.
  unfold timingSafeEqual.
  destruct (Nat.eqb_spec (length a) (length b)) as [Hlen|Hlen].
  - rewrite <- (bytes_eqb_iff a b Hlen).
    split; [now intros [= ->] | now intros ->].
  - split; [discriminate | intros ->; contradiction].
Qed.

(** X6. [verifySignature] accepts what the holder of the secret
    sends: for every payload, timestamp and secret, the header value
    [sha256=] followed by the HMAC of [timestamp.body] under the secret
    verifies. *)
Theorem verifySignature_accepts_the_signature_of_the_secret :
  forall payload timestamp secret,
    verifySignature payload timestamp
      ("sha256=" +:+ hmac_sha256_hex secret
                       (timestamp +:+ "." +:+ JSON_stringify payload))
      secret = true.
Proof.
  intros payload timestamp secret. unfold Server.verifySignature.
  rewrite remove_first_sha256.
  now rewrite (proj2 (timingSafeEqual_true_iff _ _) eq_refl).
Qed.

Lemma buffer_from_hex_app bs rest :
  JS.buffer_from_hex (JS.buffer_to_hex bs +:+ rest)
  = (bs ++ JS.buffer_from_hex rest)%list.
Proof.
  induction bs as [|b bs IH]; [reflexivity|].
  change (JS.buffer_to_hex (b :: bs) +:+ rest)
    with (String (JS.hex_digit (Byte.to_N b / 16))
            (String (JS.hex_digit (Byte.to_N b mod 16))
               (JS.buffer_to_hex bs +:+ rest))).
  cbn [JS.buffer_from_hex].
  pose proof (EncryptionFacts.hex_pair b) as H.
  destruct (JS.hex_val (JS.hex_digit (Byte.to_N b / 16))) as [h|];
    [|discriminate].
  destruct (JS.hex_val (JS.hex_digit (Byte.to_N b mod 16))) as [l|];
    [|discriminate].
  rewrite H, IH. reflexivity.
Qed.

(** X7. [verifySignature] compares the bytes that
    [Buffer.from(_, 'hex')] decodes, and decoding stops at the first pair
    of characters that is not hex.  So when the HMAC is the hex of
    [digest], a header that carries this hex followed by any text that
    does not start with a hex pair verifies as well. *)
Theorem verifySignature_ignores_what_follows_the_digest :
  forall payload timestamp secret digest rest,
    hmac_sha256_hex secret (timestamp +:+ "." +:+ JSON_stringify payload)
    = JS.buffer_to_hex digest ->
    JS.buffer_from_hex rest = [] ->
    verifySignature payload timestamp
      ("sha256=" +:+ JS.buffer_to_hex digest +:+ rest) secret = true.
Proof.
  intros payload timestamp secret digest rest Hmac Hrest.
  unfold Server.verifySignature.
  rewrite Hmac, remove_first_sha256, buffer_from_hex_app, Hrest, app_nil_r.
  rewrite EncryptionFacts.buffer_from_to_hex.
  now rewrite (proj2 (timingSafeEqual_true_iff _ _) eq_refl).
Qed.

End Verify.
End SignatureFacts.

(** ** The ingestion route, reply by reply (routes/webhook.ts) *)

Module RouteFacts.
Import Async AsyncFacts Server WebhookFacts.

Section Route.

Variable hmac_sha256_hex : string -> string -> string.
Variable JSON_stringify : JS.json -> string.
Variable WEBHOOK_SECRET : string.

Local Abbreviation ingest :=
  (Server.ingest hmac_sha256_hex JSON_stringify WEBHOOK_SECRET).
Local Abbreviation passes_gates :=
  (Server.passes_gates hmac_sha256_hex JSON_stringify WEBHOOK_SECRET).
Local Abbreviation sendWebhook := (Server.sendWebhook JSON_stringify).


(** X8. A request that does not pass the first three stages of the
    route (a header is missing or empty, the signature does not verify,
    or the timestamp is a number too far from [now]) is answered 401
    [unauthorized] without rate-limit headers, and the server is left
    exactly as it was. *)
Theorem rejected_request_changes_nothing :
  forall now uuid request s,
    passes_gates now request = false ->
    exists message,
      ingest now uuid request s = (s, mkReply 401 [] (unauthorized message)).
Proof.
  intros now uuid request s Hg.
  unfold Server.ingest, webhook_handler, Server.passes_gates, try_catch in *.
  destruct (x_signature request) as [sig|]; [|eexists; reflexivity].
  destruct (x_timestamp request) as [ts|]; [|eexists; reflexivity].
  destruct (JS.truthy_string (Some sig)); cbn [negb orb andb] in *;
    [|eexists; reflexivity].
  destruct (JS.truthy_string (Some ts)); cbn [negb orb andb] in *;
    [|eexists; reflexivity].
  destruct (verifySignature _ _ _ _ _ _); cbn [negb orb andb] in *;
    [|eexists; reflexivity].
  destruct (too_old_or_in_future _ _); [eexists; reflexivity | discriminate].
Qed.






(** X13. A request that passes the gates with the body [null] is
    answered 500 [internal_error]: reading [event.event_id] throws, the
    route catches the exception, and nothing has been written by then. *)
Theorem null_body_is_an_internal_error :
  forall now uuid request s,
    passes_gates now request = true ->
    body request = JS.JNull ->
    ingest now uuid request s
    = (s, mkReply 500 [] (internal_error "Failed to process webhook")).
Proof.
  intros now uuid request s Hg Hb.
  unfold Server.ingest, webhook_handler, Server.passes_gates in *.
  destruct (x_signature request) as [sig|]; [|discriminate].
  destruct (x_timestamp request) as [ts|]; [|discriminate].
  apply andb_prop in Hg as [Hg Hfresh].
  apply andb_prop in Hg as [Hg Hver].
  apply andb_prop in Hg as [Hs Hts].
  rewrite Hs, Hts, Hver. apply negb_true_iff in Hfresh. rewrite Hfresh.
  cbn [negb orb andb]. rewrite Hb.
  unfold try_catch.
  erewrite bind_throws by (apply on_server_eq; reflexivity).
  reflexivity.
Qed.

(** X14. The timestamp check on a numeric timestamp.  For a request
    whose signature verifies and whose timestamp header parses to the
    number [t]: when [now] and [t] are more than 300000 ms apart, in
    either direction, the reply is 401 with the message [Timestamp too
    old or in future] and the server is unchanged; when they are at most
    300000 ms apart, the request passes the gates. *)
Theorem timestamp_gate_is_five_minutes_either_side :
  forall now uuid request s sig ts t,
    x_signature request = Some sig ->
    x_timestamp request = Some ts ->
    JS.truthy_string (Some sig) = true ->
    verifySignature hmac_sha256_hex JSON_stringify (body request) ts sig
      WEBHOOK_SECRET = true ->
    JS.parseInt ts = Some t ->
    (300000 < Z.abs (now - t) ->
     ingest now uuid request s
     = (s, mkReply 401 [] (unauthorized "Timestamp too old or in future")))
    /\ (Z.abs (now - t) <= 300000 -> passes_gates now request = true).
Proof.
  intros now uuid request s sig ts t Hsig Hts Hts1 Hver Hparse.
  assert (Hts2 : JS.truthy_string (Some ts) = true).
  { destruct ts; [discriminate | reflexivity]. }
  split; intros Hage.
  - unfold Server.ingest, webhook_handler, try_catch.
    rewrite Hsig, Hts, Hts1, Hts2, Hver, Hparse. cbn [negb orb].
    unfold too_old_or_in_future, MAX_AGE.
    destruct (Z.gtb_spec (Z.abs (now - t)) (5 * 60 * 1000)); [reflexivity | lia].
  - unfold Server.passes_gates.
    rewrite Hsig, Hts, Hts1, Hts2, Hver, Hparse. cbn [andb].
    unfold too_old_or_in_future, MAX_AGE.
    destruct (Z.gtb_spec (Z.abs (now - t)) (5 * 60 * 1000)); [lia | reflexivity].
Qed.

(** X15. An [event_id] that JavaScript takes for false ([0], the
    empty string, [false], [null]) is replaced by a fresh UUID exactly
    like a missing one.  When each drawn UUID is unmarked at the time it
    is drawn, neither such a request nor its resubmission with the
    identical body is answered 409 [duplicate_event]. *)
Theorem falsy_event_id_is_replaced_by_a_uuid :
  forall s now1 now2 uuid1 uuid2 request v,
    JS.get_field "event_id" (body request) = Some v ->
    JS.truthy v = false ->
    Redis.exists_ now1 (redis s) ("event:processed:" +:+ uuid1) = 0 ->
    let r1 := ingest now1 uuid1 request s in
    Redis.exists_ now2 (redis (fst r1)) ("event:processed:" +:+ uuid2) = 0 ->
    let r2 := ingest now2 uuid2 request (fst r1) in
    event_id_or (body request) uuid1 = JS.JStr uuid1
    /\ event_id_or (body request) uuid2 = JS.JStr uuid2
    /\ code (snd r1) <> 409
    /\ code (snd r2) <> 409.
Proof.
  intros s now1 now2 uuid1 uuid2 request v Hv Hfalsy Hf1 r1 Hf2 r2.
  assert (Hid : forall uuid, event_id_or (body request) uuid = JS.JStr uuid).
  { intros uuid. unfold event_id_or. now rewrite Hv, Hfalsy. }
  repeat split; auto.
  - intros H. apply ingest_409 in H. rewrite Hid in H. now apply H.
  - intros H. apply ingest_409 in H. rewrite Hid in H. now apply H.
Qed.


End Route.
End RouteFacts.

(** ** The heartbeat sweep and [destroy] (websocket/manager.ts) *)

Module SweepFacts.
Import Async AsyncFacts Server.

Lemma connections_socket_send h f s :
  connections (socket_send h f s) = connections s.
Proof.
  unfold socket_send. destruct (sockets s !! h) as [[[] ?]|]; reflexivity.
Qed.

Lemma connections_socket_close h s :
  connections (socket_close h s) = connections s.
Proof.
  unfold socket_close. destruct (sockets s !! h) as [[[] ?]|]; reflexivity.
Qed.

Lemma sendHeartbeats_registry now s r :
  connections (sendHeartbeats now s) !! r
  = match connections s !! r with
    | Some conn => if timed_out now conn then None else Some conn
    | None => None
    end.
Proof.
  assert (H : forall m i,
             connections (map_fold (heartbeat_entry now) s m) !! i
             = match m !! i with
               | Some conn =>
                   if timed_out now conn then None else connections s !! i
               | None => connections s !! i
               end).
  { intros m.
    apply (map_fold_weak_ind
             (fun acc m => forall i,
                connections acc !! i
                = match m !! i with
                  | Some conn =>
                      if timed_out now conn then None else connections s !! i
                  | None => connections s !! i
                  end)).
    - intros i. now rewrite lookup_empty.
    - intros k conn m' acc Hk IH i.
      unfold heartbeat_entry. fold (timed_out now conn).
      destruct (decide (k = i)) as [->|Hne].
      + rewrite lookup_insert_eq.
        destruct (timed_out now conn).
        * cbn. apply lookup_delete_eq.
        * rewrite connections_socket_send, IH, Hk. reflexivity.
      + rewrite lookup_insert_ne by exact Hne.
        destruct (timed_out now conn).
        * cbn. rewrite lookup_delete_ne by exact Hne.
          rewrite connections_socket_close. apply IH.
        * rewrite connections_socket_send. apply IH. }
  unfold sendHeartbeats. rewrite H.
  destruct (connections s !! r) as [conn|] eqn:E; [|reflexivity].
  destruct (timed_out now conn); reflexivity.
Qed.

(** X17. The heartbeat sweep and the registry.  After
    [sendHeartbeats] at [now], the registry holds exactly the entries it
    held before whose [lastPing] is at most 90000 ms old, each unchanged;
    it does not matter in which order the loop visits the entries. *)
Theorem sweep_drops_exactly_the_silent :
  forall now s r,
    connections (sendHeartbeats now s) !! r
    = match connections s !! r with
      | Some conn => if now - lastPing conn >? 90000 then None else Some conn
      | None => None
      end.
Proof. exact sendHeartbeats_registry. Qed.

Lemma sockets_socket_send_ne h h' f s :
  h' <> h -> sockets (socket_send h' f s) !! h = sockets s !! h.
Proof.
  intros Hne. unfold socket_send.
  destruct (sockets s !! h') as [[[] ?]|]; try reflexivity.
  cbn. now rewrite lookup_insert_ne.
Qed.

Lemma sockets_socket_close_ne h h' s :
  h' <> h -> sockets (socket_close h' s) !! h = sockets s !! h.
Proof.
  intros Hne. unfold socket_close.
  destruct (sockets s !! h') as [[[] ?]|]; try reflexivity.
  cbn. now rewrite lookup_insert_ne.
Qed.

(** X18. The heartbeat sweep and the channels.  For a registry entry
    whose channel is open and is not the channel of another entry: when
    the entry has been silent for more than 90000 ms its channel is
    closing after the sweep, with nothing more written on it; otherwise
    the channel is open and exactly one frame, [ping now], has been
    written on it. *)
Theorem sweep_pings_or_closes :
  forall now s r conn out,
    connections s !! r = Some conn ->
    (forall r' conn', connections s !! r' = Some conn' ->
                      socket conn' = socket conn -> r' = r) ->
    sockets s !! socket conn = Some (mkSocket OPEN out) ->
    sockets (sendHeartbeats now s) !! socket conn
    = Some (if now - lastPing conn >? 90000
            then mkSocket CLOSING out
            else mkSocket OPEN (ping now :: out)).
Proof.
  intros now s r conn out Hr Hinj Hsock. unfold sendHeartbeats.
  set (final := if now - lastPing conn >? 90000
                then mkSocket CLOSING out
                else mkSocket OPEN (ping now :: out)).
  enough (H : forall m,
              m ⊆ connections s ->
              sockets (map_fold (heartbeat_entry now) s m) !! socket conn
              = match m !! r with
                | Some _ => Some final
                | None => Some (mkSocket OPEN out)
                end).
  { rewrite H by reflexivity. now rewrite Hr. }
  intros m.
  apply (map_fold_weak_ind
           (fun acc m =>
              m ⊆ connections s ->
              sockets acc !! socket conn
              = match m !! r with
                | Some _ => Some final
                | None => Some (mkSocket OPEN out)
                end)).
  - intros _. now rewrite lookup_empty.
  - intros k x m' acc Hk IH Hsub.
    assert (Hx : connections s !! k = Some x).
    { eapply lookup_weaken; [|exact Hsub]. apply lookup_insert_eq. }
    assert (Hsub' : m' ⊆ connections s).
    { etrans; [|exact Hsub]. now apply insert_subseteq. }
    specialize (IH Hsub').
    destruct (decide (k = r)) as [->|Hne].
    + rewrite lookup_insert_eq. rewrite Hk in IH.
      assert (x = conn) as -> by congruence.
      unfold heartbeat_entry, socket_close, socket_send. rewrite IH.
      subst final. destruct (now - lastPing conn >? 90000); cbn;
        now rewrite lookup_insert_eq.
    + rewrite lookup_insert_ne by exact Hne.
      assert (Hh : socket x <> socket conn).
      { intros E. apply Hne. now apply (Hinj k x). }
      unfold heartbeat_entry.
      destruct (now - lastPing x >? 90000).
      * cbn. rewrite sockets_socket_close_ne by exact Hh. exact IH.
      * rewrite sockets_socket_send_ne by exact Hh. exact IH.
Qed.

Lemma socket_close_sockets_only h s :
  socket_close h s = set_sockets (sockets (socket_close h s)) s.
Proof.
  unfold socket_close.
  destruct (sockets s !! h) as [[[] o]|]; try (now destruct s).
Qed.

(** X19. [destroy] closes the channels of the registry and does
    nothing else: afterwards no channel of a registry entry is open; the
    registry (the entries are not removed), the closures, Redis and the
    agent table are as they were; nothing has been written on any
    channel. *)
Theorem destroy_closes_every_registered_channel :
  forall s,
    destroy s = set_sockets (sockets (destroy s)) s
    /\ (forall r conn, connections s !! r = Some conn ->
                       not_open (socket conn) (destroy s))
    /\ (forall h, sent <$> sockets (destroy s) !! h = sent <$> sockets s !! h).
Proof.
  intros s. unfold destroy.
  enough (H : forall m,
            let s' := map_fold (fun _ conn s => socket_close (socket conn) s)
                        s m in
            s' = set_sockets (sockets s') s
            /\ (forall r conn, m !! r = Some conn -> not_open (socket conn) s')
            /\ (forall h, sent <$> sockets s' !! h = sent <$> sockets s !! h))
    by exact (H (connections s)).
  intros m.
  apply (map_fold_weak_ind
           (fun acc m =>
              acc = set_sockets (sockets acc) s
              /\ (forall r conn, m !! r = Some conn ->
                                 not_open (socket conn) acc)
              /\ (forall h, sent <$> sockets acc !! h
                            = sent <$> sockets s !! h))).
  - repeat split; auto.
    + now destruct s.
    + intros r conn H. now rewrite lookup_empty in H.
  - intros k x m' acc Hk (IH1 & IH2 & IH3).
    assert (Hkeep : forall h, not_open h acc ->
                              not_open h (socket_close (socket x) acc)).
    { intros h Hn. unfold not_open, socket_close in *.
      destruct (sockets acc !! socket x) as [[[] o]|] eqn:E; try exact Hn.
      cbn. destruct (decide (socket x = h)) as [<-|Hne].
      - rewrite lookup_insert_eq. cbn. discriminate.
      - now rewrite lookup_insert_ne. }
    repeat split.
    + rewrite (socket_close_sockets_only (socket x) acc) at 1.
      rewrite IH1 at 2. reflexivity.
    + intros r conn Hl. destruct (decide (k = r)) as [->|Hne].
      * rewrite lookup_insert_eq in Hl. injection Hl as <-.
        unfold not_open, socket_close.
        destruct (sockets acc !! socket x) as [[[] o]|] eqn:E; cbn;
          rewrite ?lookup_insert_eq, ?E; cbn; (discriminate || exact I).
      * rewrite lookup_insert_ne in Hl by exact Hne.
        apply Hkeep. now apply (IH2 r).
    + intros h. rewrite <- IH3. unfold socket_close.
      destruct (sockets acc !! socket x) as [[[] o]|] eqn:E; try reflexivity.
      cbn. destruct (decide (socket x = h)) as [<-|Hne].
      * now rewrite lookup_insert_eq, E.
      * now rewrite lookup_insert_ne.
Qed.

End SweepFacts.

(** ** The handlers of one channel (websocket/manager.ts) *)

Module ChannelFacts.
Import Async AsyncFacts Server.

Section Channel.

Variable hmac_sha256_hex : string -> string -> string.
Variable JSON_stringify : JS.json -> string.
Variable bcrypt_compare : string -> string -> bool.
Variable WEBHOOK_SECRET : string.
Variable PUBLIC_URL : string.

Local Abbreviation onMessage :=
  (Server.onMessage JSON_stringify bcrypt_compare PUBLIC_URL).
Local Abbreviation sendWebhook := (Server.sendWebhook JSON_stringify).
Local Abbreviation ingest :=
  (Server.ingest hmac_sha256_hex JSON_stringify WEBHOOK_SECRET).
Local Abbreviation passes_gates :=
  (Server.passes_gates hmac_sha256_hex JSON_stringify WEBHOOK_SECRET).

(** X20. A channel that has not authenticated changes nothing on
    the server unless it presents valid credentials.  Whatever it sends
    (text that does not parse, [null], a message of another type, an
    [auth] message with a [relay_id] that is unknown or is not a string,
    with an [api_key] that does not match or is not a string), the server
    writes one [error] frame on that channel and the registry, the
    closures, Redis and the agent table are as before. *)
Theorem no_effect_without_valid_credentials :
  forall h data now uuid s,
    has_authenticated h s = false ->
    credentials_ok bcrypt_compare s data = false ->
    exists code message,
      onMessage h data now uuid s
      = (socket_send h (error code message now) s, Returns tt).
Proof.
  intros h data now uuid s Hunauth Hbad.
  unfold Server.onMessage, try_catch.
  destruct data as [m|]; [|eexists _, _; reflexivity].
  unfold bind at 1. unfold get_closure.
  assert (Hc : authenticated
                 (match closures s !! h with
                  | Some c => c
                  | None => mkClosure false None
                  end) = false).
  { unfold has_authenticated in Hunauth.
    destruct (closures s !! h); [exact Hunauth | reflexivity]. }
  rewrite Hc. cbn [negb].
  assert (Hnull : m = JS.JNull \/ m <> JS.JNull)
    by (destruct m; (now left) || (right; discriminate)).
  destruct Hnull as [->|Hm]; [eexists _, _; reflexivity|].
  rewrite !(WebhookFacts.prop_not_null _ _ Hm).
  unfold bind at 1. unfold ret at 1.
  destruct (is_string (JS.get_field "type" m) "auth") eqn:Htype; cbn [negb];
    [|eexists _, _; reflexivity].
  unfold bind at 1. unfold ret at 1.
  unfold bind at 1. unfold ret at 1.
  assert (Hbad' :
            match JS.get_field "relay_id" m, JS.get_field "api_key" m with
            | Some (JS.JStr r), Some (JS.JStr k) =>
                match agents s !! r with
                | Some a => bcrypt_compare k (api_key_hash a)
                | None => false
                end
            | _, _ => false
            end = false).
  { unfold credentials_ok in Hbad. rewrite Htype in Hbad.
    destruct m; try exact Hbad; congruence. }
  clear Hbad.
  unfold bind at 1.
  destruct (JS.get_field "relay_id" m) as [[| | |r| |]|];
    try (eexists _, _; reflexivity).
  cbn [getAgentByRelayId].
  destruct (agents s !! r) as [a|]; [|eexists _, _; reflexivity].
  unfold bind at 1.
  destruct (JS.get_field "api_key" m) as [[| | |k| |]|];
    try (eexists _, _; reflexivity).
  cbn [verifyApiKey ret]. rewrite Hbad'. cbn [negb].
  eexists _, _; reflexivity.
Qed.

Lemma onMessage_pong h m now uuid s relay :
  closures s !! h = Some (mkClosure true relay) ->
  m <> JS.JNull ->
  is_string (JS.get_field "type" m) "pong" = true ->
  onMessage h (Some m) now uuid s = handlePong relay now s.
Proof.
  intros Hcl Hm Hpong.
  unfold Server.onMessage, try_catch.
  unfold bind at 1. unfold get_closure. rewrite Hcl.
  rewrite !(WebhookFacts.prop_not_null _ _ Hm).
  unfold bind at 1. unfold ret at 1. cbn [authenticated negb closure_relayId].
  rewrite Hpong.
  unfold handlePong. destruct relay as [r|]; [|reflexivity].
  destruct (connections s !! r); reflexivity.
Qed.

(** X21. A pong keeps the connection through the next sweep.  When a
    channel that authenticated as [r] sends [pong] at [now], and [r] has a
    registry entry, a sweep at most 90000 ms later keeps the entry of [r],
    with [lastPing = now] and otherwise unchanged.  [handlePong] looks the
    entry up by relay id, so this holds whichever channel the entry
    names. *)
Theorem pong_keeps_the_connection_through_the_sweep :
  forall h m now now' uuid s r conn,
    closures s !! h = Some (mkClosure true (Some r)) ->
    connections s !! r = Some conn ->
    m <> JS.JNull ->
    JS.get_field "type" m = Some (JS.JStr "pong") ->
    now' - now <= 90000 ->
    let s1 := fst (onMessage h (Some m) now uuid s) in
    connections (sendHeartbeats now' s1) !! r
    = Some (mkConnection (relayId conn) (socket conn) (sessionId conn)
              (connectedAt conn) now).
Proof.
  intros h m now now' uuid s r conn Hcl Hr Hm Htype Hnow s1. subst s1.
  rewrite (onMessage_pong h m now uuid s (Some r) Hcl Hm)
    by (rewrite Htype; reflexivity).
  rewrite SweepFacts.sendHeartbeats_registry.
  unfold handlePong. rewrite Hr. cbn [fst connections set_connections].
  rewrite lookup_insert_eq. unfold timed_out. cbn [lastPing].
  destruct (Z.gtb_spec (now' - now) 90000); [lia | reflexivity].
Qed.






End Channel.
End ChannelFacts.

(** ** The frames of the Node SDK as the server handles them *)

Module WireFacts.
Import Async AsyncFacts Server.

Section Wire.

Variable JSON_stringify : JS.json -> string.
Variable bcrypt_compare : string -> string -> bool.
Variable PUBLIC_URL : string.

Local Abbreviation onMessage :=
  (Server.onMessage JSON_stringify bcrypt_compare PUBLIC_URL).

(** X24. The [auth] frame that the Node SDK sends when its channel
    opens carries the empty [relay_id] ([extractRelayId] returns the
    empty string).  Whatever the state of the server and of the channel,
    the server adds no registry entry when it handles this frame: the
    frame is refused (as an unknown message type on a channel that has
    authenticated, for its credentials otherwise), or the credentials
    are accepted and the entry is not stored because the [relay_id] is
    empty. *)
Theorem sdk_auth_frame_registers_nothing :
  forall c h now uuid s,
    let frame :=
      Client.auth EmptyString (Client.apiKey (Client.options c)) "1.0.0" in
    snd (Client.onOpen c) = [Client.Sent frame]
    /\ connections (fst (onMessage h (Some (Client.wire frame)) now uuid s))
       = connections s.
Proof.
  intros c h now uuid s frame. split; [reflexivity|].
  subst frame. set (k := Client.apiKey (Client.options c)). clearbody k.
  unfold Server.onMessage, try_catch.
  unfold bind at 1. unfold get_closure.
  set (cl := match closures s !! h with
             | Some c0 => c0
             | None => mkClosure false None
             end).
  cbn [Client.wire prop]. unfold bind at 1. unfold ret at 1.
  change (JS.get_field "type" _) with (Some (JS.JStr "auth")).
  destruct (authenticated cl); cbn [negb is_string].
  - change (String.eqb "auth" "pong") with false.
    change (String.eqb "auth" "ack") with false. cbv iota.
    cbn [sendError fst]. apply SweepFacts.connections_socket_send.
  - change (String.eqb "auth" "auth") with true. cbn [negb].
    unfold bind at 1. unfold ret at 1.
    unfold bind at 1. unfold ret at 1.
    change (JS.get_field "relay_id" _) with (Some (JS.JStr EmptyString)).
    change (JS.get_field "api_key" _) with (Some (JS.JStr k)).
    unfold bind at 1. cbn [getAgentByRelayId].
    destruct (agents s !! EmptyString) as [a|].
    + unfold bind at 1. cbn [verifyApiKey ret].
      destruct (bcrypt_compare k (api_key_hash a)); cbn [negb].
      * unfold bind, set_closure, with_redis, zoom, redis_setex, ret.
        cbn [template JS.to_string JS.truthy_string String.eqb negb fst
               connections set_closures set_redis redis].
        now rewrite SweepFacts.connections_socket_send.
      * cbn [sendError fst]. apply SweepFacts.connections_socket_send.
    + unfold bind at 1. unfold ret at 1. cbn [negb].
      cbn [sendError fst]. apply SweepFacts.connections_socket_send.
Qed.

End Wire.
End WireFacts.

(** ** Registration (routes/register.ts, services/auth.ts) *)

Module RegistrationFacts.
Import Async AsyncFacts Server Registration.

Section Register.

Variable JSON_stringify : JS.json -> string.
Variable bcrypt_compare : string -> string -> bool.
Variable bcrypt_hash : string -> Z -> string -> string.
Variable base64url : list byte -> string.
Variable PUBLIC_URL : string.

(** What bcrypt guarantees: a key matches every hash made of it. *)
Hypothesis bcrypt_correct :
  forall data rounds salt,
    bcrypt_compare data (bcrypt_hash data rounds salt) = true.

Local Abbreviation onMessage :=
  (Server.onMessage JSON_stringify bcrypt_compare PUBLIC_URL).
Local Abbreviation register :=
  (Registration.register bcrypt_hash base64url PUBLIC_URL).

(** X25. Registration, then authentication.  When [POST /register]
    returns, an open channel that has not authenticated and sends an
    [auth] message with the returned [relay_id] and [api_key] is
    registered under that [relay_id], is bound to it, and receives
    [auth_success] carrying the [webhook_url] that registration
    returned. *)
Theorem registered_agent_can_authenticate :
  forall body random32 random16 random8 salt s s1 reg h out now uuid,
    register body random32 random16 random8 salt s = (s1, Returns reg) ->
    sockets s1 !! h = Some (mkSocket OPEN out) ->
    closures s1 !! h = Some (mkClosure false None) ->
    let s2 := fst (onMessage h (Some (auth_with reg)) now uuid s1) in
    connections s2 !! relay_id reg
    = Some (mkConnection (relay_id reg) h uuid now now)
    /\ written h (auth_success (relay_id reg) (webhook_url reg) uuid now) out s2
    /\ closures s2 !! h = Some (mkClosure true (Some (relay_id reg))).
Proof.
  intros body random32 random16 random8 salt s s1 reg h out now uuid Hreg
    Hsock Hclo s2.
  set (key := generateApiKey base64url random32 random16).
  set (r := "agt_" +:+ JS.buffer_to_hex random8).
  assert (H : reg = mkRegistered r key
                      (PUBLIC_URL +:+ "/api/v1/webhook/" +:+ r)
              /\ agents s1 !! r
                 = Some (mkAgent (hashApiKey bcrypt_hash key salt))).
  { revert Hreg. unfold Registration.register.
    assert (Hnull : body = JS.JNull \/ body <> JS.JNull)
      by (destruct body; (now left) || (right; discriminate)).
    destruct Hnull as [->|Hb]; [discriminate|].
    rewrite (WebhookFacts.prop_not_null _ _ Hb).
    unfold bind, ret, create. fold r. fold key.
    destruct (JS.get_field "workspace_id" body) as [[]|];
      try discriminate;
      (destruct (agents s !! r); [discriminate|]);
      intros [= <- <-]; cbn; rewrite lookup_insert_eq; auto. }
  destruct H as (-> & Hagent).
  cbn [relay_id webhook_url api_key] in *.
  subst s2.
  rewrite (ManagerFacts.onMessage_auth_success JSON_stringify bcrypt_compare
             PUBLIC_URL s1 h (mkClosure false None)
             (auth_with (mkRegistered r key
                           (PUBLIC_URL +:+ "/api/v1/webhook/" +:+ r)))
             r key (mkAgent (hashApiKey bcrypt_hash key salt)) out now uuid);
    try assumption; try reflexivity; try discriminate.
  - unfold written. cbn. rewrite !lookup_insert_eq. auto.
  - apply bcrypt_correct.
Qed.

End Register.
End RegistrationFacts.

(** ** The fields of an encrypted endpoint *)

Module FieldFacts.
Import Encryption.

Section Cipher.

Variable gcm_decrypt : list byte -> list byte -> list byte -> list byte
                       -> option (list byte).

(** X26. [decryptEndpoint] reads the first three colon-separated
    fields of its input: with fewer than three fields (no colon, or one)
    it throws, whatever the key and the cipher; what follows a third
    colon does not change its result. *)
Theorem decryptEndpoint_reads_the_first_three_fields :
  forall a b c rest key,
    no_colon a -> no_colon b -> no_colon c ->
    decryptEndpoint gcm_decrypt a key = None
    /\ decryptEndpoint gcm_decrypt (a +:+ ":" +:+ b) key = None
    /\ decryptEndpoint gcm_decrypt
         (a +:+ ":" +:+ b +:+ ":" +:+ c +:+ ":" +:+ rest) key
       = decryptEndpoint gcm_decrypt (a +:+ ":" +:+ b +:+ ":" +:+ c) key.
Proof.
  intros a b c rest key Ha Hb Hc. unfold decryptEndpoint.
  rewrite (EncryptionFacts.split_last a Ha).
  rewrite !(EncryptionFacts.split_field a _ Ha).
  rewrite !(EncryptionFacts.split_field b _ Hb).
  rewrite (EncryptionFacts.split_last b Hb).
  rewrite (EncryptionFacts.split_field c _ Hc).
  rewrite (EncryptionFacts.split_last c Hc).
  repeat split; reflexivity.
Qed.

End Cipher.
End FieldFacts.

(** ** The client as a transition system *)

Module ClientMachine.
Import Client.

Lemma handleWebhook_client id payload listeners now c :
  fst (handleWebhook id payload listeners now c) = c.
Proof.
  unfold handleWebhook. destruct payload as [[]|]; try reflexivity;
    (destruct listeners as [|l ls]; [reflexivity|];
     destruct (call_handlers (l :: ls) true) as [?|[]]; reflexivity).
Qed.

Lemma shouldReconnect_step e c :
  shouldReconnect (fst (step e c)) = true -> shouldReconnect c = true.
Proof.
  destruct e as [| | |msg|m listeners now|code reason random|now|random];
    cbn [step].
  - auto.
  - cbn. discriminate.
  - auto.
  - auto.
  - destruct m; cbn [handleMessage]; rewrite ?handleWebhook_client;
      cbn; auto.
  - unfold handleClose. cbn [shouldReconnect options].
    destruct (shouldReconnect c && autoReconnect (options c)); [|auto].
    unfold reconnect. cbn [options reconnectAttempt].
    destruct (match maxReconnectAttempts (options c) with
              | Some m => reconnectAttempt c >=? m
              | None => false
              end); auto.
  - unfold heartbeat_tick.
    destruct (now - lastPongTime c >? heartbeatInterval (options c) * 3);
      [|auto].
    destruct (ws c) as [[]|]; auto.
  - unfold reconnect.
    destruct (match maxReconnectAttempts (options c) with
              | Some m => reconnectAttempt c >=? m
              | None => false
              end); auto.
Qed.

Lemma shouldReconnect_run es : forall c,
  shouldReconnect (run es c) = true -> shouldReconnect c = true.
Proof.
  induction es as [|e es IH]; intros c H; [exact H|].
  cbn in H. apply shouldReconnect_step with (e := e). now apply IH.
Qed.

(** X27. No method of the client sets [shouldReconnect] back to
    true.  After [disconnect()], whatever happens next (a new [connect()]
    included), [shouldReconnect] is false and a close of the channel
    starts no reconnection. *)
Theorem disconnect_is_final :
  forall c es code reason random,
    let c' := run es (fst (disconnect_ c)) in
    shouldReconnect c' = false
    /\ initiates_reconnect (snd (step (On_close code reason random) c'))
       = false.
Proof.
  intros c es code reason random c'.
  assert (H : shouldReconnect c' = false).
  { destruct (shouldReconnect c') eqn:E; [|reflexivity].
    apply shouldReconnect_run in E. discriminate. }
  split; [exact H|].
  cbn [step]. unfold handleClose. cbn [shouldReconnect options].
  rewrite H. reflexivity.
Qed.

Lemma options_step e c : options (fst (step e c)) = options c.
Proof.
  destruct e as [| | |msg|m listeners now|code reason random|now|random];
    cbn [step]; try reflexivity.
  - destruct m; cbn [handleMessage]; rewrite ?handleWebhook_client;
      reflexivity.
  - unfold handleClose. cbn [shouldReconnect options].
    destruct (shouldReconnect c && autoReconnect (options c)); [|reflexivity].
    unfold reconnect. cbn [options reconnectAttempt].
    destruct (match maxReconnectAttempts (options c) with
              | Some m => reconnectAttempt c >=? m
              | None => false
              end); reflexivity.
  - unfold heartbeat_tick.
    destruct (now - lastPongTime c >? heartbeatInterval (options c) * 3);
      [|reflexivity].
    destruct (ws c) as [[]|]; reflexivity.
  - unfold reconnect.
    destruct (match maxReconnectAttempts (options c) with
              | Some m => reconnectAttempt c >=? m
              | None => false
              end); reflexivity.
Qed.

Lemma attempts_step e c m :
  maxReconnectAttempts (options c) = Some m ->
  0 <= reconnectAttempt c <= m ->
  0 <= reconnectAttempt (fst (step e c)) <= m.
Proof.
  intros Hm Hc.
  destruct e as [| | |msg|msg listeners now|code reason random|now|random];
    cbn [step]; try exact Hc.
  - destruct msg; cbn [handleMessage]; rewrite ?handleWebhook_client;
      cbn; try exact Hc; try lia.
  - unfold handleClose. cbn [shouldReconnect options].
    destruct (shouldReconnect c && autoReconnect (options c)); [|exact Hc].
    unfold reconnect. cbn [options reconnectAttempt]. rewrite Hm.
    destruct (Z.geb_spec (reconnectAttempt c) m); cbn; lia.
  - unfold heartbeat_tick.
    destruct (now - lastPongTime c >? heartbeatInterval (options c) * 3);
      [|exact Hc].
    destruct (ws c) as [[]|]; exact Hc.
  - unfold reconnect. rewrite Hm.
    destruct (Z.geb_spec (reconnectAttempt c) m); cbn; lia.
Qed.

(** X28. For a client built with a [maxReconnectAttempts] that is a
    whole number, zero or more, the counter [reconnectAttempt] stays
    between 0 and that maximum whatever happens to the client.  (The
    test is [reconnectAttempt >= maxReconnectAttempts]; with a maximum
    that is not a whole number the counter would stop at the next whole
    number above it, which is why the statement is about whole
    numbers.) *)
Theorem reconnect_attempts_stay_within_the_maximum :
  forall o c0 m es,
    constructor o = Some c0 ->
    maxReconnectAttempts o = Some m ->
    0 <= m ->
    0 <= reconnectAttempt (run es c0) <= m.
Proof.
  intros o c0 m es Hc Hm Hpos.
  assert (H0 : maxReconnectAttempts (options c0) = Some m
               /\ 0 <= reconnectAttempt c0 <= m).
  { unfold constructor in Hc.
    destruct (_ || _); [discriminate|]. injection Hc as <-. cbn. split; [exact Hm | lia]. }
  clear Hc. revert c0 H0.
  induction es as [|e es IH]; intros c [Ho Ha]; [exact Ha|].
  cbn [run fold_left]. apply IH. split.
  - now rewrite options_step.
  - now apply attempts_step.
Qed.

Lemma call_handlers_ack hs : forall b,
  call_handlers hs b = inr true
  <-> b = true /\ forallb is_returns_other hs = true.
Proof.
  induction hs as [|h hs IH]; intros b; cbn.
  - split; [intros [= ->]; auto | intros [-> _]; reflexivity].
  - destruct h; cbn.
    + rewrite IH. split; [intros [? _]; discriminate | intros [_ ?]; discriminate].
    + apply IH.
    + split; [discriminate | intros [_ ?]; discriminate].
Qed.

(** X29. [handleWebhook] sends the [ack] frame for an event exactly
    when the frame carries a payload (so that [message.payload.event] can
    be read), every registered listener returned something other than
    [false] without throwing (in particular when no listener is
    registered), and the channel is open when the listeners have
    returned.  Without a payload the method throws before its [try]:
    nothing is sent and no [error] event is emitted. *)
Theorem webhook_acknowledged_iff_every_listener_accepts :
  forall id payload listeners now c,
    (snd (handleWebhook id payload listeners now c) = [Sent (ack id now)]
     <-> has_payload payload = true
         /\ ws c = Some OPEN
         /\ forallb is_returns_other listeners = true)
    /\ (has_payload payload = false ->
        exists message,
          snd (handleWebhook id payload listeners now c)
          = [Unhandled_rejection message]).
Proof.
  intros id payload listeners now c.
  assert (Hsend : acknowledge id now c = [Sent (ack id now)]
                  <-> ws c = Some OPEN).
  { unfold acknowledge, send. destruct (ws c) as [[]|]; split;
      (reflexivity || discriminate). }
  assert (Hlisten :
    snd (match listeners with
         | [] => (c, acknowledge id now c)
         | _ :: _ =>
             match call_handlers listeners true with
             | inl m => (c, [Emit_error m])
             | inr true => (c, acknowledge id now c)
             | inr false => (c, [])
             end
         end) = [Sent (ack id now)]
    <-> ws c = Some OPEN /\ forallb is_returns_other listeners = true).
  { destruct listeners as [|l ls].
    - cbn [snd forallb]. split.
      + intros H. split; [now apply Hsend | reflexivity].
      + intros [H _]. now apply Hsend.
    - pose proof (call_handlers_ack (l :: ls) true) as H.
      destruct (call_handlers (l :: ls) true) as [msg|[]]; cbn [snd].
      + split; [discriminate|]. intros [_ Hall].
        destruct H as [_ H]. specialize (H (conj eq_refl Hall)). discriminate.
      + destruct H as [H _]. specialize (H eq_refl) as [_ Hall]. split.
        * intros H. split; [now apply Hsend | exact Hall].
        * intros [H _]. now apply Hsend.
      + split; [discriminate|]. intros [_ Hall].
        destruct H as [_ H]. specialize (H (conj eq_refl Hall)). discriminate. }
  unfold handleWebhook.
  destruct payload as [v|]; [destruct v|]; cbn [has_payload snd];
    (split;
     [ first [ split; [discriminate | intros [? _]; discriminate]
             | rewrite Hlisten; tauto ]
     | first [ discriminate | intros _; eexists; reflexivity ] ]).
Qed.

End ClientMachine.

(** ** The range of the back-off delay *)

Module BackoffFacts.
Import Retry.
Local Open Scope Q_scope.

Lemma capped_range (n : Z) (base : Q) :
  0 <= base -> 0 <= capped n base /\ capped n base <= 30000 # 1.
Proof.
  intros Hb. unfold capped. split.
  - apply Q.min_glb; [|discriminate].
    apply Qmult_le_0_compat; [exact Hb|].
    apply Qpower_pos. discriminate.
  - apply Q.le_min_r.
Qed.

(** X30. For every attempt number from 1 on, every base delay that is
    a whole number of milliseconds, 1 or more, and every draw in [0, 1),
    [exponentialBackoff] returns a whole number that is greater than 0.9
    times the capped delay minus 1 and at most 1.1 times the capped delay:
    the jitter is ten per cent either side.  The result lies between 0
    and 33000 ms, both included.  (On these inputs the capped delay is a
    whole number and the bounds hold of the doubles of the source as of
    the exact arithmetic of the model; the upper bounds are not strict
    because the doubles round the highest draws up to 1.1 times the
    delay.) *)
Theorem backoff_jitter_is_ten_per_cent :
  forall (n base : Z) (r : Q),
    (1 <= n)%Z -> (1 <= base)%Z -> 0 <= r -> r < 1 ->
    let result := exponentialBackoff n (inject_Z base) r in
    (9 # 10) * capped n (inject_Z base) - 1 < inject_Z result
    /\ inject_Z result <= (11 # 10) * capped n (inject_Z base)
    /\ (0 <= result <= 33000)%Z.
Proof.
  intros n base r Hn Hbase Hr0 Hr1 result. subst result.
  assert (Hb : 0 <= inject_Z base).
  { change 0 with (inject_Z 0). rewrite <- Zle_Qle. lia. }
  unfold exponentialBackoff. fold (capped n (inject_Z base)).
  destruct (capped_range n (inject_Z base) Hb) as [Hd0 Hd1].
  set (d := capped n (inject_Z base)) in *. clearbody d.
  destruct (RetryFacts.floor_bounds (d + d * (2 # 10) * (r - (1 # 2))))
    as [Hle Hlt].
  set (k := Qfloor (d + d * (2 # 10) * (r - (1 # 2)))) in *. clearbody k.
  assert (Hdr0 : 0 <= d * r) by (apply Qmult_le_0_compat; assumption).
  assert (Hdr1 : r * d <= 1 * d) by (apply Qmult_le_compat_r; lra).
  split; [lra|]. split; [lra|].
  assert (H1 : inject_Z (-1) < inject_Z k).
  { change (inject_Z (-1)) with (-1 # 1). lra. }
  assert (H2 : inject_Z k <= inject_Z 33000).
  { change (inject_Z 33000) with (33000 # 1). lra. }
  rewrite <- Zlt_Qlt in H1. rewrite <- Zle_Qle in H2. lia.
Qed.

Lemma backoff_jitter_witness :
  let result := exponentialBackoff 3 (inject_Z 5000) (1 # 4) in
  (9 # 10) * capped 3 (inject_Z 5000) - 1 < inject_Z result
  /\ inject_Z result <= (11 # 10) * capped 3 (inject_Z 5000)
  /\ (0 <= result <= 33000)%Z.
Proof.
  apply (backoff_jitter_is_ten_per_cent 3 5000 (1 # 4)).
  - lia.
  - lia.
  - discriminate.
  - reflexivity.
Defined.

End BackoffFacts.

(** ** Concrete runs for the further properties *)

Module Scenarios.
Import Async Server.

Lemma first_request_witness :
  let r := checkRateLimit Fixture.now "agt_1" ∅ in
  snd r = Returns (mkRateLimitInfo 100 99 (Fixture.now + 60000))
  /\ counter_at (fst r) "agt_1" Fixture.now 1
  /\ forall key, key <> "ratelimit:" +:+ "agt_1" ->
                 fst r !! key = (∅ : Redis.db) !! key.
Proof.
  apply (RateLimitFacts.first_request_opens_window Fixture.now "agt_1" ∅).
  reflexivity.
Defined.

Lemma requests_of_one_window_witness :
  let replies :=
    snd (checkRateLimit_each "agt_1"
           [Fixture.now; Fixture.now + 1; Fixture.now + 60000] ∅) in
  replies
  = window_replies Fixture.now 1
      [Fixture.now; Fixture.now + 1; Fixture.now + 60000]
  /\ forall i r, nth_error replies i = Some r ->
                 is_rate_limit_error r = (Z.of_nat i >=? 100).
Proof.
  apply (RateLimitFacts.requests_of_one_window "agt_1" ∅ Fixture.now
           [Fixture.now + 1; Fixture.now + 60000]).
  - reflexivity.
  - repeat constructor; vm_compute; discriminate.
  - vm_compute; reflexivity.
Defined.

Lemma counter_without_expiry_witness :
  let r := checkRateLimit_each "agt_1"
             [Fixture.now; Fixture.now + 3600000] Fixture.stuck_counter in
  Forall (fun reply =>
            exists message, reply = Throws (RateLimitError message (-1)))
    (snd r)
  /\ counter_without_expiry (fst r) "agt_1" (100 + Z.of_nat 2).
Proof.
  apply (RateLimitFacts.counter_without_expiry_is_never_reset "agt_1"
           [Fixture.now; Fixture.now + 3600000] Fixture.stuck_counter 100).
  - vm_compute; reflexivity.
  - lia.
  - vm_compute; reflexivity.
Defined.

Lemma signature_with_trailing_text_witness :
  verifySignature Fixture.hmac Fixture.stringify (Fixture.event "evt_1")
    Fixture.timestamp
    ("sha256="
       +:+ JS.buffer_to_hex
             (list_byte_of_string
                (Fixture.secret +:+ Fixture.timestamp +:+ "."
                   +:+ Fixture.stringify (Fixture.event "evt_1")))
       +:+ ", v2=zz")
    Fixture.secret = true.
Proof.
  apply (SignatureFacts.verifySignature_ignores_what_follows_the_digest
           Fixture.hmac Fixture.stringify (Fixture.event "evt_1")
           Fixture.timestamp Fixture.secret
           (list_byte_of_string
              (Fixture.secret +:+ Fixture.timestamp +:+ "."
                 +:+ Fixture.stringify (Fixture.event "evt_1")))
           ", v2=zz").
  - reflexivity.
  - reflexivity.
Defined.

Lemma rejected_request_witness :
  exists message,
    Fixture.ingest Fixture.now "u-1"
      (mkRequest "agt_1" (Some "sha256=00") (Some Fixture.timestamp)
         (Fixture.event "evt_1"))
      Fixture.online_server
    = (Fixture.online_server, mkReply 401 [] (unauthorized message)).
Proof.
  apply (RouteFacts.rejected_request_changes_nothing Fixture.hmac
           Fixture.stringify Fixture.secret Fixture.now "u-1"
           (mkRequest "agt_1" (Some "sha256=00") (Some Fixture.timestamp)
              (Fixture.event "evt_1"))
           Fixture.online_server).
  vm_compute; reflexivity.
Defined.

Lemma timestamp_gate_witness :
  let request := Fixture.post "agt_1" Fixture.timestamp (Fixture.event "evt_1") in
  (300000 < Z.abs (Fixture.now + 300001 - Fixture.now) ->
   Fixture.ingest (Fixture.now + 300001) "u-1" request Fixture.fresh_server
   = (Fixture.fresh_server,
      mkReply 401 [] (unauthorized "Timestamp too old or in future")))
  /\ (Z.abs (Fixture.now + 300001 - Fixture.now) <= 300000 ->
      Fixture.passes_gates (Fixture.now + 300001) request = true).
Proof.
  apply (RouteFacts.timestamp_gate_is_five_minutes_either_side Fixture.hmac
           Fixture.stringify Fixture.secret (Fixture.now + 300001) "u-1"
           (Fixture.post "agt_1" Fixture.timestamp (Fixture.event "evt_1"))
           Fixture.fresh_server
           (Fixture.sign Fixture.timestamp (Fixture.event "evt_1"))
           Fixture.timestamp Fixture.now).
  - reflexivity.
  - reflexivity.
  - reflexivity.
  - vm_compute; reflexivity.
  - vm_compute; reflexivity.
Defined.

Lemma null_body_witness :
  Fixture.ingest Fixture.now "u-1"
    (Fixture.post "agt_1" Fixture.timestamp JS.JNull) Fixture.fresh_server
  = (Fixture.fresh_server,
     mkReply 500 [] (internal_error "Failed to process webhook")).
Proof.
  apply (RouteFacts.null_body_is_an_internal_error Fixture.hmac
           Fixture.stringify Fixture.secret Fixture.now "u-1"
           (Fixture.post "agt_1" Fixture.timestamp JS.JNull)
           Fixture.fresh_server).
  - vm_compute; reflexivity.
  - reflexivity.
Defined.





Lemma falsy_event_id_witness :
  let request :=
    Fixture.post "agt_1" Fixture.timestamp
      (JS.JObj [("event_id", JS.JNum 0)]) in
  let r1 := Fixture.ingest Fixture.now "u-1" request Fixture.fresh_server in
  let r2 := Fixture.ingest (Fixture.now + 1000) "u-2" request (fst r1) in
  event_id_or (body request) "u-1" = JS.JStr "u-1"
  /\ event_id_or (body request) "u-2" = JS.JStr "u-2"
  /\ code (snd r1) <> 409
  /\ code (snd r2) <> 409.
Proof.
  apply (RouteFacts.falsy_event_id_is_replaced_by_a_uuid Fixture.hmac
           Fixture.stringify Fixture.secret Fixture.fresh_server Fixture.now
           (Fixture.now + 1000) "u-1" "u-2"
           (Fixture.post "agt_1" Fixture.timestamp
              (JS.JObj [("event_id", JS.JNum 0)]))
           (JS.JNum 0)).
  - reflexivity.
  - reflexivity.
  - vm_compute; reflexivity.
  - vm_compute; reflexivity.
Defined.


Lemma sweep_witness :
  sockets (sendHeartbeats (Fixture.now + 30000) Fixture.online_server)
    !! socket Fixture.connection_1
  = Some (if Fixture.now + 30000 - lastPing Fixture.connection_1 >? 90000
          then mkSocket CLOSING [Fixture.greeting]
          else mkSocket OPEN
                 (ping (Fixture.now + 30000) :: [Fixture.greeting])).
Proof.
  apply (SweepFacts.sweep_pings_or_closes (Fixture.now + 30000)
           Fixture.online_server "agt_1" Fixture.connection_1
           [Fixture.greeting]).
  - vm_compute; reflexivity.
  - intros r' conn' H _.
    destruct (String.eqb_spec r' "agt_1") as [E|E]; [exact E|].
    exfalso. revert H.
    replace (connections Fixture.online_server)
      with ({[ "agt_1" := Fixture.connection_1 ]}
            : gmap string AgentConnection)
      by (vm_compute; reflexivity).
    rewrite lookup_singleton_ne by congruence. discriminate.
  - vm_compute; reflexivity.
Defined.

Lemma invalid_credentials_witness :
  exists code message,
    Fixture.onMessage 1 (Fixture.auth_message "agt_1" "sk_2") Fixture.now
      "s-1" Fixture.waiting_server
    = (socket_send 1 (error code message Fixture.now) Fixture.waiting_server,
       Returns tt).
Proof.
  apply (ChannelFacts.no_effect_without_valid_credentials Fixture.stringify
           Fixture.bcrypt Fixture.public_url 1%nat
           (Fixture.auth_message "agt_1" "sk_2") Fixture.now "s-1"
           Fixture.waiting_server).
  - vm_compute; reflexivity.
  - vm_compute; reflexivity.
Defined.

Lemma pong_witness :
  let s1 := fst (Fixture.onMessage 1 (Some Fixture.pong_message)
                   (Fixture.now + 60000) "s-2" Fixture.online_server) in
  connections (sendHeartbeats (Fixture.now + 150000) s1) !! "agt_1"
  = Some (mkConnection (relayId Fixture.connection_1)
            (socket Fixture.connection_1) (sessionId Fixture.connection_1)
            (connectedAt Fixture.connection_1) (Fixture.now + 60000)).
Proof.
  apply (ChannelFacts.pong_keeps_the_connection_through_the_sweep
           Fixture.stringify Fixture.bcrypt Fixture.public_url 1%nat
           Fixture.pong_message (Fixture.now + 60000) (Fixture.now + 150000)
           "s-2" Fixture.online_server "agt_1" Fixture.connection_1).
  - vm_compute; reflexivity.
  - vm_compute; reflexivity.
  - discriminate.
  - reflexivity.
  - lia.
Defined.



Lemma registered_agent_witness :
  let body := JS.JObj [("workspace_id", JS.JStr "ws_1")] in
  let r := Fixture.register body Fixture.nonce Fixture.nonce
             [Byte.x01; Byte.x02; Byte.x03; Byte.x04; Byte.x05; Byte.x06;
              Byte.x07; Byte.x08] "salt" Fixture.waiting_server in
  let reg :=
    Registration.mkRegistered "agt_0102030405060708"
      "sk_0102030405060708090a0b0c_0102030405060708090a0b0c"
      (Fixture.public_url +:+ "/api/v1/webhook/agt_0102030405060708") in
  let s2 := fst (Fixture.onMessage 1 (Some (Registration.auth_with reg))
                   Fixture.now "s-1" (fst r)) in
  connections s2 !! Registration.relay_id reg
  = Some (mkConnection (Registration.relay_id reg) 1 "s-1" Fixture.now
            Fixture.now)
  /\ written 1
       (auth_success (Registration.relay_id reg)
          (Registration.webhook_url reg) "s-1" Fixture.now) [] s2
  /\ closures s2 !! 1%nat
     = Some (mkClosure true (Some (Registration.relay_id reg))).
Proof.
  apply (RegistrationFacts.registered_agent_can_authenticate
           Fixture.stringify Fixture.bcrypt Fixture.hash Fixture.base64
           Fixture.public_url
           (fun data rounds salt => String.eqb_refl _)
           (JS.JObj [("workspace_id", JS.JStr "ws_1")])
           Fixture.nonce Fixture.nonce
           [Byte.x01; Byte.x02; Byte.x03; Byte.x04; Byte.x05; Byte.x06;
            Byte.x07; Byte.x08] "salt" Fixture.waiting_server).
  - vm_compute; reflexivity.
  - vm_compute; reflexivity.
  - vm_compute; reflexivity.
Defined.

Lemma three_fields_witness :
  Encryption.decryptEndpoint Fixture.unseal "0102" Fixture.key = None
  /\ Encryption.decryptEndpoint Fixture.unseal ("0102" +:+ ":" +:+ "00")
       Fixture.key = None
  /\ Encryption.decryptEndpoint Fixture.unseal
       ("0102" +:+ ":" +:+ "00" +:+ ":" +:+ "6869" +:+ ":" +:+ "x:y")
       Fixture.key
     = Encryption.decryptEndpoint Fixture.unseal
         ("0102" +:+ ":" +:+ "00" +:+ ":" +:+ "6869") Fixture.key.
Proof.
  apply (FieldFacts.decryptEndpoint_reads_the_first_three_fields
           Fixture.unseal "0102" "00" "6869" "x:y" Fixture.key).
  - vm_compute. repeat split; discriminate.
  - vm_compute. repeat split; discriminate.
  - vm_compute. repeat split; discriminate.
Defined.

Lemma reconnect_attempts_witness :
  let es := [Client.On_close 1006 "lost" (1 # 2)%Q;
             Client.On_close 1006 "lost" (1 # 2)%Q;
             Client.On_close 1006 "lost" (1 # 2)%Q;
             Client.On_close 1006 "lost" (1 # 2)%Q] in
  0 <= Client.reconnectAttempt (Client.run es Fixture.cautious_client) <= 3.
Proof.
  apply (ClientMachine.reconnect_attempts_stay_within_the_maximum
           Fixture.cautious_options Fixture.cautious_client 3).
  - reflexivity.
  - reflexivity.
  - lia.
Defined.

Lemma two_requests_at_once_witness :
  let c := Burst.run "agt_1"
             [(0%nat, Fixture.now); (1%nat, Fixture.now);
              (1%nat, Fixture.now + 1); (0%nat, Fixture.now + 1);
              (0%nat, Fixture.now + 2)]
             (Burst.mkConfig (repeat Burst.AtIncr 2) ∅) in
  (length (List.filter Burst.accepted (Burst.runs c)) <= 100)%nat
  /\ ((2 <= 100)%nat ->
      forall who count r,
        Burst.runs c !! who = Some (Burst.Finished count r) ->
        exists info, r = Returns info).
Proof.
  apply (BurstFacts.at_most_a_hundred_pass_in_any_interleaving "agt_1" 2
           [(0%nat, Fixture.now); (1%nat, Fixture.now);
            (1%nat, Fixture.now + 1); (0%nat, Fixture.now + 1);
            (0%nat, Fixture.now + 2)]
           ∅ Fixture.now).
  - reflexivity.
  - repeat constructor; vm_compute; discriminate.
  - vm_compute; reflexivity.
Defined.

End Scenarios.
